(** * PiModel training loop: a shallow embedding and its verified properties

    The development follows [models/pimodel/pimodel.py] (class [PiModel]),
    [models/remixmatch/remixmatch_utils.py] and the labelled split of
    [datasets/comatch_dataloaders/cifar.py].  Python integers are [Z], Python
    floats and tensor entries are idealised as rationals [Q], Python lists are
    [list], dictionaries whose iteration order matters are association lists,
    and a Python exception is a [Raise] result that leaves the mutated object
    state observable. *)

From Stdlib Require Import String Ascii ZArith QArith Qminmax Bool Lia Lqa Permutation List.
Import ListNotations.

Local Open Scope Z_scope.

(** ** Python results *)

Inductive exn : Type :=
| ZeroDivisionError
| IndexError
| AssertionError
| RuntimeError
| KeyError
| AttributeError
| FileNotFoundError.

Inductive result (A : Type) : Type :=
| Ok (a : A)
| Raise (e : exn).

Arguments Ok {A} a.
Arguments Raise {A} e.

Definition rbind {A B : Type} (r : result A) (k : A -> result B) : result B :=
  match r with
  | Ok a => k a
  | Raise e => Raise e
  end.

(** ** Python list primitives used by [interleave_offsets] *)

Module PyList.

(** [[v] * n]: a list of [n] copies, empty when [n <= 0]. *)
Definition times {A : Type} (v : A) (n : Z) : list A := repeat v (Z.to_nat n).

(** [range(n)]: empty when [n <= 0]. *)
Definition range (n : Z) : list Z := map Z.of_nat (seq 0 (Z.to_nat n)).

(** [sum(l)]. *)
Definition sum (l : list Z) : Z := fold_left Z.add l 0.

(** Position denoted by a Python index on a list of length [len]:
    negative indices count from the end, anything else is out of range. *)
Definition position (len : nat) (i : Z) : option nat :=
  if (0 <=? i) && (i <? Z.of_nat len) then Some (Z.to_nat i)
  else if (i <? 0) && (- Z.of_nat len <=? i) then Some (Z.to_nat (Z.of_nat len + i))
  else None.

Fixpoint set_nth {A : Type} (n : nat) (v : A) (l : list A) : list A :=
  match l, n with
  | [], _ => []
  | _ :: t, O => v :: t
  | h :: t, S n' => h :: set_nth n' v t
  end.

(** [l[i] += d]; raises [IndexError] out of range. *)
Definition add_at (l : list Z) (i : Z) (d : Z) : result (list Z) :=
  match position (length l) i with
  | Some n =>
      match nth_error l n with
      | Some v => Ok (set_nth n (v + d) l)
      | None => Raise IndexError
      end
  | None => Raise IndexError
  end.

(** [l[-1]] on a list known to be non-empty at the call site. *)
Definition last_elt (l : list Z) : Z := last l 0.

End PyList.

(** ** [PiModel.interleave_offsets] *)

(** The loop [for x in range(...): groups[-x - 1] += 1]. *)
Fixpoint bump_groups (xs : list Z) (groups : list Z) : result (list Z) :=
  match xs with
  | [] => Ok groups
  | x :: xs' => rbind (PyList.add_at groups (- x - 1) 1) (bump_groups xs')
  end.

(** The loop [for g in groups: offsets.append(offsets[-1] + g)]. *)
Definition append_offsets (groups : list Z) (offsets : list Z) : list Z :=
  fold_left (fun offs g => offs ++ [PyList.last_elt offs + g]) groups offsets.

Definition interleave_offsets (batch nu : Z) : result (list Z) :=
  if nu + 1 =? 0 then Raise ZeroDivisionError
  else
    let groups := PyList.times (batch / (nu + 1)) (nu + 1) in
    rbind (bump_groups (PyList.range (batch - PyList.sum groups)) groups)
      (fun groups =>
         let offsets := append_offsets groups [0] in
         if PyList.last_elt offsets =? batch then Ok offsets
         else Raise AssertionError).

(** ** Numbers

    Python floats are idealised as exact rationals.  Division keeps Python's
    behaviour on a zero divisor (an exception, not an infinity). *)

Definition py_div (a b : Q) : result Q :=
  if Qeq_bool b 0 then Raise ZeroDivisionError else Ok (a / b)%Q.

(** [a > b] on floats. *)
Definition Qgt_bool (a b : Q) : bool := negb (Qle_bool a b).

(** [a % b] on Python integers. *)
Definition py_mod (a b : Z) : result Z :=
  if b =? 0 then Raise ZeroDivisionError else Ok (a mod b).

(** [np.clip(a, a_min, a_max)], which numpy defines as
    [minimum(a_max, maximum(a, a_min))]. *)
Definition np_clip (a a_min a_max : Q) : Q := Qmin a_max (Qmax a a_min).

(** Line 101 of [PiModel.train]:
    [np.clip(self.it / (args.unsup_warmup_pos * args.num_train_iter), 0.0, 1.0)]. *)
Definition unsup_warmup (it : Z) (unsup_warmup_pos : Q) (num_train_iter : Z) : result Q :=
  rbind (py_div (inject_Z it) (unsup_warmup_pos * inject_Z num_train_iter)%Q)
    (fun ratio => Ok (np_clip ratio 0 1)).

(** Line 127: [sup_loss + self.lambda_u * unsup_loss * unsup_warmup]. *)
Definition compose_loss (sup_loss lambda_u unsup_loss warmup : Q) : Q :=
  (sup_loss + lambda_u * unsup_loss * warmup)%Q.

(** The spec's wording of the warmup factor, [clip(x, 0, 1)] as a case
    distinction, kept apart from [np_clip] so that the two can be compared. *)
Definition clip01_spec (x : Q) : Q :=
  if Qlt_le_dec x 0 then 0%Q else if Qlt_le_dec 1 x then 1%Q else x.

Definition warmup_factor_spec (it : Z) (unsup_warmup_fraction : Q) (total_iterations : Z) : Q :=
  clip01_spec (inject_Z it / (unsup_warmup_fraction * inject_Z total_iterations))%Q.

(** ** Python strings *)

Module PyStr.

Local Open Scope string_scope.

(** [s.startswith(p)]. *)
Definition startswith (p s : string) : bool := String.prefix p s.

(** [p in s]: [p] occurs somewhere in [s]. *)
Fixpoint contains (p s : string) : bool :=
  String.prefix p s ||
  match s with
  | EmptyString => false
  | String _ s' => contains p s'
  end.

(** The scan of [str.replace]: left to right, occurrences do not overlap.
    [skip] counts the characters of a matched occurrence still to be dropped. *)
Fixpoint replace_from (old new : string) (skip : nat) (s : string) : string :=
  match s with
  | EmptyString => EmptyString
  | String c s' =>
      match skip with
      | S k => replace_from old new k s'
      | O =>
          if String.prefix old s
          then new ++ replace_from old new (String.length old - 1) s'
          else String c (replace_from old new 0 s')
      end
  end.

(** [s.replace(old, new)] for a non-empty [old] (the only use in the code is
    [k.replace("module.", "")]). *)
Definition replace (old new s : string) : string := replace_from old new 0 s.

(** [os.path.join(a, b)] for two components. *)
Definition path_join (a b : string) : string :=
  if String.prefix "/" b then b
  else match a with
       | EmptyString => b
       | _ => if String.eqb (substring (String.length a - 1) 1 a) "/"
              then a ++ b else a ++ "/" ++ b
       end.

End PyStr.

Arguments PyStr.path_join : simpl never.

(** ** Dictionaries in insertion order *)

Module PyDict.

Fixpoint get {V : Type} (k : string) (d : list (string * V)) : option V :=
  match d with
  | [] => None
  | (k', v) :: d' => if String.eqb k k' then Some v else get k d'
  end.

(** [d[k] = v]: an existing key keeps its position, a new key goes last. *)
Fixpoint set {V : Type} (k : string) (v : V) (d : list (string * V)) : list (string * V) :=
  match d with
  | [] => [(k, v)]
  | (k', v') :: d' =>
      if String.eqb k k' then (k, v) :: d' else (k', v') :: set k v d'
  end.

Definition mem {V : Type} (k : string) (d : list (string * V)) : bool :=
  match get k d with Some _ => true | None => false end.

Definition keys {V : Type} (d : list (string * V)) : list string := map fst d.

(** [d.update(other)]. *)
Definition update {V : Type} (d other : list (string * V)) : list (string * V) :=
  fold_left (fun acc kv => set (fst kv) (snd kv) acc) other d.

End PyDict.

(** ** Tensors and model state *)

(** A flattened parameter tensor; its length stands for its shape. *)
Definition vec : Type := list Q.

(** A batch-major two-dimensional tensor (inputs, logits, probabilities). *)
Definition tensor : Type := list vec.

(** [module.state_dict()]: parameter name to value, in registration order. *)
Definition state_dict : Type := list (string * vec).

Definition optimizer_state : Type := list (string * vec).

Definition scheduler_state : Type := Z.

(** The bundle written by [torch.save] in [save_model]. *)
Record checkpoint : Type := {
  ck_model : state_dict;
  ck_optimizer : optimizer_state;
  ck_scheduler : scheduler_state;
  ck_it : Z;
  ck_ema_model : state_dict
}.

Definition same_shape (a b : vec) : bool := Nat.eqb (length a) (length b).

Definition copy_entry (sd : state_dict) (kv : string * vec) : string * vec :=
  match PyDict.get (fst kv) sd with
  | Some v => if same_shape (snd kv) v then (fst kv, v) else kv
  | None => kv
  end.

Definition copy_matching (own sd : state_dict) : state_dict := map (copy_entry sd) own.

Definition loadable (own sd : state_dict) : bool :=
  forallb (fun kv =>
             match PyDict.get (fst kv) sd with
             | Some v => same_shape (snd kv) v
             | None => false
             end) own
  && forallb (fun kv => PyDict.mem (fst kv) own) sd.

(** [torch.nn.Module.load_state_dict(sd)] with the default [strict=True]:
    entries whose name and shape match are copied in, then a missing key, an
    unexpected key or a shape mismatch raises [RuntimeError]. *)
Definition load_state_dict (own sd : state_dict) : result unit * state_dict :=
  (if loadable own sd then Ok tt else Raise RuntimeError, copy_matching own sd).

(** The two renaming loops of [load_model]:
    [for k, v in state_dict.items(): k = f(k); new_state_dict[k] = v]. *)
Definition rename_keys (f : string -> string) (sd : state_dict) : state_dict :=
  fold_left (fun acc kv => PyDict.set (f (fst kv)) (snd kv) acc) sd [].

Arguments copy_matching : simpl never.
Arguments loadable : simpl never.
Arguments rename_keys : simpl never.

Definition strip_module (k : string) : string := PyStr.replace "module." "" k.

Definition add_module (k : string) : string := String.append "module." k.

(** The spec's wording for the single-device reconciliation, "strip a
    recognized prefix from every stored parameter name", kept apart from
    [strip_module] so that the two can be compared. *)
Definition strip_prefix_spec (k : string) : string :=
  if PyStr.startswith "module." k
  then substring 7 (String.length k - 7) k
  else k.

(** ** The [PiModel] object *)

(** Modelled from the spec: [train_utils.EMA] is not part of the sources at
    hand.  Section 4.1: [register] snapshots the live parameters as the shadow,
    [update] sets [shadow = decay * shadow + (1 - decay) * live],
    [apply_shadow] swaps the live parameters for the shadow values keeping the
    originals, [restore] swaps the originals back, [load] seeds the shadow
    from another model. *)
Record EMA : Type := {
  decay : Q;
  shadow : state_dict;
  backup : state_dict
}.

(** A labeled or held-out batch [(_, x, y)] and an unlabeled batch
    [(_, x_ulb_w1, x_ulb_w2)]. *)
Definition lb_batch : Type := tensor * list Z.

Definition ulb_batch : Type := tensor * tensor.

Record loaders : Type := {
  train_lb : list lb_batch;
  train_ulb : list ulb_batch;
  eval_data : list lb_batch
}.

(** The fields of [self] that the methods read or write, together with the
    checkpoint files the object can see.  [replicated] is the test of
    [load_model]: [self.model] is a [DistributedDataParallel]. *)
Record PiModel : Type := {
  model : state_dict;
  replicated : bool;
  training : bool;
  bn_frozen : bool;
  ema : option EMA;
  ema_model : state_dict;
  ema_m : Q;
  optimizer : optimizer_state;
  scheduler : scheduler_state;
  it : Z;
  num_eval_iter : Z;
  lambda_u : Q;
  loader_dict : loaders;
  disk : list (string * checkpoint)
}.

Definition with_model (v : state_dict) (s : PiModel) : PiModel :=
  {| model := v; replicated := replicated s; training := training s;
     bn_frozen := bn_frozen s; ema := ema s; ema_model := ema_model s;
     ema_m := ema_m s; optimizer := optimizer s; scheduler := scheduler s;
     it := it s; num_eval_iter := num_eval_iter s; lambda_u := lambda_u s;
     loader_dict := loader_dict s; disk := disk s |}.

Definition with_training (v : bool) (s : PiModel) : PiModel :=
  {| model := model s; replicated := replicated s; training := v;
     bn_frozen := bn_frozen s; ema := ema s; ema_model := ema_model s;
     ema_m := ema_m s; optimizer := optimizer s; scheduler := scheduler s;
     it := it s; num_eval_iter := num_eval_iter s; lambda_u := lambda_u s;
     loader_dict := loader_dict s; disk := disk s |}.

Definition with_bn_frozen (v : bool) (s : PiModel) : PiModel :=
  {| model := model s; replicated := replicated s; training := training s;
     bn_frozen := v; ema := ema s; ema_model := ema_model s;
     ema_m := ema_m s; optimizer := optimizer s; scheduler := scheduler s;
     it := it s; num_eval_iter := num_eval_iter s; lambda_u := lambda_u s;
     loader_dict := loader_dict s; disk := disk s |}.

Definition with_ema (v : option EMA) (s : PiModel) : PiModel :=
  {| model := model s; replicated := replicated s; training := training s;
     bn_frozen := bn_frozen s; ema := v; ema_model := ema_model s;
     ema_m := ema_m s; optimizer := optimizer s; scheduler := scheduler s;
     it := it s; num_eval_iter := num_eval_iter s; lambda_u := lambda_u s;
     loader_dict := loader_dict s; disk := disk s |}.

Definition with_ema_model (v : state_dict) (s : PiModel) : PiModel :=
  {| model := model s; replicated := replicated s; training := training s;
     bn_frozen := bn_frozen s; ema := ema s; ema_model := v;
     ema_m := ema_m s; optimizer := optimizer s; scheduler := scheduler s;
     it := it s; num_eval_iter := num_eval_iter s; lambda_u := lambda_u s;
     loader_dict := loader_dict s; disk := disk s |}.

Definition with_optimizer (v : optimizer_state) (s : PiModel) : PiModel :=
  {| model := model s; replicated := replicated s; training := training s;
     bn_frozen := bn_frozen s; ema := ema s; ema_model := ema_model s;
     ema_m := ema_m s; optimizer := v; scheduler := scheduler s;
     it := it s; num_eval_iter := num_eval_iter s; lambda_u := lambda_u s;
     loader_dict := loader_dict s; disk := disk s |}.

Definition with_scheduler (v : scheduler_state) (s : PiModel) : PiModel :=
  {| model := model s; replicated := replicated s; training := training s;
     bn_frozen := bn_frozen s; ema := ema s; ema_model := ema_model s;
     ema_m := ema_m s; optimizer := optimizer s; scheduler := v;
     it := it s; num_eval_iter := num_eval_iter s; lambda_u := lambda_u s;
     loader_dict := loader_dict s; disk := disk s |}.

Definition with_it (v : Z) (s : PiModel) : PiModel :=
  {| model := model s; replicated := replicated s; training := training s;
     bn_frozen := bn_frozen s; ema := ema s; ema_model := ema_model s;
     ema_m := ema_m s; optimizer := optimizer s; scheduler := scheduler s;
     it := v; num_eval_iter := num_eval_iter s; lambda_u := lambda_u s;
     loader_dict := loader_dict s; disk := disk s |}.

Definition with_num_eval_iter (v : Z) (s : PiModel) : PiModel :=
  {| model := model s; replicated := replicated s; training := training s;
     bn_frozen := bn_frozen s; ema := ema s; ema_model := ema_model s;
     ema_m := ema_m s; optimizer := optimizer s; scheduler := scheduler s;
     it := it s; num_eval_iter := v; lambda_u := lambda_u s;
     loader_dict := loader_dict s; disk := disk s |}.

Definition with_disk (v : list (string * checkpoint)) (s : PiModel) : PiModel :=
  {| model := model s; replicated := replicated s; training := training s;
     bn_frozen := bn_frozen s; ema := ema s; ema_model := ema_model s;
     ema_m := ema_m s; optimizer := optimizer s; scheduler := scheduler s;
     it := it s; num_eval_iter := num_eval_iter s; lambda_u := lambda_u s;
     loader_dict := loader_dict s; disk := v |}.

(** ** Observable calls *)

Inductive pass : Type :=
| Labeled
| UnlabeledW1
| UnlabeledW2
| HeldOut.

Inductive event : Type :=
| EvTrainMode
| EvEvalMode
| EvApplyShadow
| EvRestore
| EvFreezeBN
| EvUnfreezeBN
| EvForward (p : pass) (frozen : bool)
| EvComposeLoss (sup_loss unsup_loss total_loss : Q)
| EvBackward
| EvClipGrad
| EvOptimizerStep
| EvSchedulerStep
| EvEmaUpdate
| EvZeroGrad
| EvTorchSave (file : string)
| EvPrint (msg : string)
| EvTbLog.

(** ** Methods as state transformers

    A method maps the object to a result, the object as the call left it
    (also when it raised) and the calls it made, oldest first. *)

Definition M (A : Type) : Type := PiModel -> result A * PiModel * list event.

Definition ret {A : Type} (a : A) : M A := fun s => (Ok a, s, []).

Definition raise {A : Type} (e : exn) : M A := fun s => (Raise e, s, []).

Definition bind {A B : Type} (m : M A) (k : A -> M B) : M B :=
  fun s =>
    match m s with
    | (Ok a, s1, t1) =>
        match k a s1 with
        | (r, s2, t2) => (r, s2, t1 ++ t2)
        end
    | (Raise e, s1, t1) => (Raise e, s1, t1)
    end.

(** [try: body except Exception: handler]. *)
Definition try_except {A : Type} (body : M A) (handler : exn -> M A) : M A :=
  fun s =>
    match body s with
    | (Ok a, s1, t1) => (Ok a, s1, t1)
    | (Raise e, s1, t1) =>
        match handler e s1 with
        | (r, s2, t2) => (r, s2, t1 ++ t2)
        end
    end.

Definition get {A : Type} (f : PiModel -> A) : M A := fun s => (Ok (f s), s, []).

Definition modify (f : PiModel -> PiModel) : M unit := fun s => (Ok tt, f s, []).

Definition emit (e : event) : M unit := fun s => (Ok tt, s, [e]).

Definition lift {A : Type} (r : result A) : M A := fun s => (r, s, []).

Declare Scope method_scope.
Delimit Scope method_scope with method.

Notation "x <- m ;; k" := (bind m (fun x => k))
  (at level 61, m at next level, right associativity) : method_scope.

Notation "m ;; k" := (bind m (fun _ => k))
  (at level 61, right associativity) : method_scope.

Definition outcome {A : Type} (r : result A * PiModel * list event) : result A :=
  fst (fst r).

Definition after {A : Type} (r : result A * PiModel * list event) : PiModel :=
  snd (fst r).

Definition calls {A : Type} (r : result A * PiModel * list event) : list event :=
  snd r.

(** Runs the primitives of a method on the object at hand. *)
Ltac run := unfold bind, try_except, get, modify, emit, lift, ret, raise; cbn.

(** ** Tensor arithmetic *)

Fixpoint zip_with {A B C : Type} (f : A -> B -> C) (l1 : list A) (l2 : list B) : list C :=
  match l1, l2 with
  | a :: l1', b :: l2' => f a b :: zip_with f l1' l2'
  | _, _ => []
  end.

Definition qsum (l : list Q) : Q := fold_right Qplus 0%Q l.

(** [torch.softmax(t, dim=-1)] over an exponential [e]. *)
Definition softmax_row (e : Q -> Q) (row : vec) : vec :=
  let exps := map e row in
  map (fun x => (x / qsum exps)%Q) exps.

Definition softmax (e : Q -> Q) (t : tensor) : tensor := map (softmax_row e) t.

(** [F.mse_loss(a, b, reduction='mean')] on tensors of one shape: the sum of
    the squared differences over the number of elements. *)
Definition squared_errors (a b : tensor) : list Q :=
  concat (zip_with (zip_with (fun x y => ((x - y) * (x - y))%Q)) a b).

Definition mse_loss (a b : tensor) : Q :=
  (qsum (squared_errors a b) / inject_Z (Z.of_nat (length (concat a))))%Q.

(** Index of the first largest entry, [torch.max(row, dim=-1)[1]]. *)
Fixpoint argmax_from (best : Q) (best_i i : Z) (row : vec) : Z :=
  match row with
  | [] => best_i
  | x :: row' =>
      if Qle_bool x best then argmax_from best best_i (i + 1) row'
      else argmax_from x i (i + 1) row'
  end.

Definition argmax (row : vec) : Z :=
  match row with
  | [] => 0
  | x :: row' => argmax_from x 0 1 row'
  end.

(** ** [models/remixmatch/remixmatch_utils.py] *)

Module Remixmatch.

(** [consistency_loss(logits_w, y)]: the softmax is applied to [logits_w]
    only; [y] is compared as it is. *)
Definition consistency_loss (e : Q -> Q) (logits_w y : tensor) : Q :=
  mse_loss (softmax e logits_w) y.

(** What [lam * a + (1 - lam) * b] needs of its operands, at any rank:
    scaling, elementwise sum, elementwise equality and having one shape. *)
Class Blend (T : Type) : Type := {
  scale : Q -> T -> T;
  plus : T -> T -> T;
  same : T -> T -> Prop;
  like : T -> T -> Prop
}.

#[export] Instance Blend_Q : Blend Q :=
  {| scale := Qmult; plus := Qplus; same := Qeq; like := fun _ _ => True |}.

#[export] Instance Blend_list (T : Type) `{Blend T} : Blend (list T) :=
  {| scale := fun a => map (scale a);
     plus := zip_with plus;
     same := Forall2 same;
     like := Forall2 like |}.

(** A batch is a tensor: its samples have one shape. *)
Definition uniform {T : Type} `{Blend T} (batch : list T) : Prop :=
  forall a b, In a batch -> In b batch -> like a b.

(** The laws of the arithmetic that mixing relies on. *)
Class BlendLaws (T : Type) `{Blend T} : Prop := {
  keep_first : forall a b : T, like a b -> same (plus (scale 1 a) (scale (1 - 1) b)) a
}.

(** [t[index]] along the first dimension; an index out of range raises. *)
Fixpoint gather {T : Type} (t : list T) (index : list nat) : result (list T) :=
  match index with
  | [] => Ok []
  | i :: index' =>
      match nth_error t i with
      | Some v => rbind (gather t index') (fun rest => Ok (v :: rest))
      | None => Raise IndexError
      end
  end.

(** [mixup_one_target(x, y, gpu, alpha, is_bias)].  The two random draws are
    arguments: [beta_draw] is the value of [np.random.beta(alpha, alpha)] and
    [index] the value of [torch.randperm(x.size(0))]. *)
Definition mixup_one_target {X Y : Type} `{Blend X} `{Blend Y}
    (x : list X) (y : list Y) (alpha : Q) (is_bias : bool)
    (beta_draw : Q) (index : list nat) : result (list X * list Y * Q) :=
  let lam := if Qgt_bool alpha 0 then beta_draw else 1%Q in
  let lam := if is_bias then Qmax lam (1 - lam)%Q else lam in
  rbind (gather x index) (fun x_perm =>
  rbind (gather y index) (fun y_perm =>
    let mixed_x := plus (scale lam x) (scale (1 - lam)%Q x_perm) in
    let mixed_y := plus (scale lam y) (scale (1 - lam)%Q y_perm) in
    Ok (mixed_x, mixed_y, lam))).

End Remixmatch.

(** ** Collaborators of the training loop

    The backbone network, the loss and metric libraries and the optimizer are
    outside the repository; the methods below are written against them. *)

Record Collaborators : Type := {
  (** [self.model(x)]: the logits, or an exception of the accelerator. *)
  net : state_dict -> tensor -> result tensor;
  (** Effect of a forward pass in training mode on the running statistics
      of the normalization layers, when these are not frozen. *)
  bn_stats : state_dict -> tensor -> state_dict;
  (** [ce_loss(..., reduction='mean')] and [F.cross_entropy]. *)
  ce_loss : tensor -> list Z -> result Q;
  (** The exponential behind [torch.softmax]. *)
  expq : Q -> Q;
  (** [accuracy_score], [top_k_accuracy_score] and [confusion_matrix] of
      scikit-learn, giving top-1 and top-5 accuracy. *)
  sk_metrics : list Z -> list Z -> tensor -> result (Q * Q);
  (** Backward pass, gradient clipping and [optimizer.step()]. *)
  optimizer_step : state_dict -> optimizer_state -> Q -> state_dict * optimizer_state;
  (** [torch.cuda.device_count()]. *)
  device_count : Z;
  (** [self.tb_log is not None]. *)
  has_tb_log : bool;
  (** Appending the line [<save_name> <best accuracy>] to the results log. *)
  append_results : string -> Q -> result unit
}.

(** Modelled from the spec: [pimodel_utils.consistency_loss], which
    [pimodel.py] imports, is not part of the sources at hand.  Section 4.3:
    "mean-squared-error between softmax outputs of two weakly-augmented views
    of the same unlabeled image". *)
Definition consistency_loss (e : Q -> Q) (logits_w1 logits_w2 : tensor) : Q :=
  mse_loss (softmax e logits_w1) (softmax e logits_w2).

Local Open Scope method_scope.

(** ** EMA tracker and BatchNorm controller *)

Definition the_ema : M EMA :=
  fun s =>
    match ema s with
    | Some e => ret e s
    | None => raise AttributeError s
    end.

(** Modelled from the spec: [EMA(self.model, self.ema_m)], a tracker with the
    configured decay and nothing recorded yet. *)
Definition ema_new : M unit :=
  fun s => modify (with_ema (Some {| decay := ema_m s; shadow := []; backup := [] |})) s.

(** Modelled from the spec: [EMA.register], section 4.1. *)
Definition ema_register : M unit :=
  e <- the_ema ;;
  live <- get model ;;
  modify (with_ema (Some {| decay := decay e; shadow := live; backup := backup e |})).

(** Modelled from the spec: [EMA.load], section 4.1. *)
Definition ema_load (other : state_dict) : M unit :=
  e <- the_ema ;;
  modify (with_ema (Some {| decay := decay e; shadow := other; backup := backup e |})).

(** Modelled from the spec: the average of [EMA.update], section 4.1. *)
Definition ema_average (d : Q) (sh live : state_dict) : state_dict :=
  map (fun kv =>
         match PyDict.get (fst kv) sh with
         | Some v =>
             (fst kv, zip_with (fun a p => (d * a + (1 - d) * p)%Q) v (snd kv))
         | None => kv
         end) live.

(** Modelled from the spec: [EMA.update], section 4.1. *)
Definition ema_update : M unit :=
  e <- the_ema ;;
  live <- get model ;;
  modify (with_ema (Some {| decay := decay e;
                            shadow := ema_average (decay e) (shadow e) live;
                            backup := backup e |})) ;;
  emit EvEmaUpdate.

(** Modelled from the spec: [EMA.apply_shadow], section 4.1. *)
Definition ema_apply_shadow : M unit :=
  e <- the_ema ;;
  live <- get model ;;
  modify (with_ema (Some {| decay := decay e; shadow := shadow e; backup := live |})) ;;
  modify (with_model (shadow e)) ;;
  emit EvApplyShadow.

(** Modelled from the spec: [EMA.restore], section 4.1. *)
Definition ema_restore : M unit :=
  e <- the_ema ;;
  modify (with_model (backup e)) ;;
  modify (with_ema (Some {| decay := decay e; shadow := shadow e; backup := [] |})) ;;
  emit EvRestore.

(** Modelled from the spec: [train_utils.Bn_Controller] is not part of the
    sources at hand.  Section 4.2: [freeze_bn] disables the running-statistics
    updates of the normalization layers, [unfreeze_bn] re-enables them. *)
Definition freeze_bn : M unit := modify (with_bn_frozen true) ;; emit EvFreezeBN.

(** Modelled from the spec: [Bn_Controller.unfreeze_bn], section 4.2. *)
Definition unfreeze_bn : M unit := modify (with_bn_frozen false) ;; emit EvUnfreezeBN.

(** [self.model.train()] and [self.model.eval()]. *)
Definition model_train : M unit := modify (with_training true) ;; emit EvTrainMode.

Definition model_eval : M unit := modify (with_training false) ;; emit EvEvalMode.

(** [self.model(x)]: running statistics move only in training mode and only
    while they are not frozen. *)
Definition forward (C : Collaborators) (p : pass) (x : tensor) : M tensor :=
  frozen <- get bn_frozen ;;
  emit (EvForward p frozen) ;;
  live <- get model ;;
  logits <- lift (net C live x) ;;
  tracked <- get (fun s => training s && negb (bn_frozen s)) ;;
  (if tracked then modify (with_model (bn_stats C live x)) else ret tt) ;;
  ret logits.

(** The object after a forward pass over [x] that did not raise. *)
Definition after_forward (C : Collaborators) (x : tensor) (s : PiModel) : PiModel :=
  if training s && negb (bn_frozen s)
  then with_model (bn_stats C (model s) x) s
  else s.

(** ** [PiModel.evaluate] *)

Record eval_acc : Type := {
  total_loss : Q;
  total_num : Q;
  y_true : list Z;
  y_pred : list Z;
  y_logits : tensor
}.

Definition eval_acc0 : eval_acc :=
  {| total_loss := 0; total_num := 0; y_true := []; y_pred := []; y_logits := [] |}.

(** Body of [for _, x, y in eval_loader]. *)
Definition evaluate_batch (C : Collaborators) (acc : eval_acc) (b : lb_batch) : M eval_acc :=
  let x := fst b in
  let y := snd b in
  let num_batch := inject_Z (Z.of_nat (length x)) in
  logits <- forward C HeldOut x ;;
  loss <- lift (ce_loss C logits y) ;;
  ret {| total_loss := (total_loss acc + loss * num_batch)%Q;
         total_num := (total_num acc + num_batch)%Q;
         y_true := y_true acc ++ y;
         y_pred := y_pred acc ++ map argmax logits;
         y_logits := y_logits acc ++ softmax (expq C) logits |}.

Fixpoint evaluate_loop (C : Collaborators) (batches : list lb_batch) (acc : eval_acc)
  : M eval_acc :=
  match batches with
  | [] => ret acc
  | b :: rest => acc' <- evaluate_batch C acc b ;; evaluate_loop C rest acc'
  end.

(** The returned dictionary; with an empty loader [total_loss / total_num] is
    the float division [0.0 / 0.0], which raises. *)
Definition eval_result (batches : list lb_batch) (acc : eval_acc) (top1 top5 : Q)
  : result (list (string * Q)) :=
  match batches with
  | [] => Raise ZeroDivisionError
  | _ => Ok [("eval/loss"%string, (total_loss acc / total_num acc)%Q);
             ("eval/top-1-acc"%string, top1);
             ("eval/top-5-acc"%string, top5)]
  end.

(** Lines 213-231: the forward passes over the loader and the metrics. *)
Definition eval_computation (C : Collaborators) (batches : list lb_batch)
  : M (eval_acc * (Q * Q)) :=
  acc <- evaluate_loop C batches eval_acc0 ;;
  tops <- lift (sk_metrics C (y_true acc) (y_pred acc) (y_logits acc)) ;;
  emit (EvPrint "confusion matrix") ;;
  ret (acc, tops).

Definition evaluate (C : Collaborators) (eval_loader : option (list lb_batch))
  : M (list (string * Q)) :=
  model_eval ;;
  ema_apply_shadow ;;
  batches <- match eval_loader with
             | Some l => ret l
             | None => get (fun s => eval_data (loader_dict s))
             end ;;
  computed <- eval_computation C batches ;;
  ema_restore ;;
  model_train ;;
  lift (eval_result batches (fst computed) (fst (snd computed)) (snd (snd computed))).

(** The object once [self.model.eval()] and [self.ema.apply_shadow()] have
    run: the live parameters are the shadow values, the originals are kept
    by the tracker. *)
Definition shadowed (e : EMA) (s : PiModel) : PiModel :=
  with_model (shadow e)
    (with_ema (Some {| decay := decay e; shadow := shadow e; backup := model s |})
       (with_training false s)).

(** The object once [self.ema.restore()] and [self.model.train()] have run
    on [shadowed e s]. *)
Definition unshadowed (e : EMA) (s : PiModel) : PiModel :=
  with_training true
    (with_ema (Some {| decay := decay e; shadow := shadow e; backup := [] |})
       (with_model (model s) (shadowed e s))).

(** A method that leaves the freezing flag of the statistics as it found
    it, whether it returns or raises. *)
Definition keeps_bn {A : Type} (m : M A) : Prop :=
  forall s, bn_frozen (after (m s)) = bn_frozen s.

(** A sequence of calls made of forward passes only. *)
Definition only_forward (t : list event) : Prop :=
  forall ev, In ev t -> exists p f, ev = EvForward p f.

(** The loader [evaluate] iterates over. *)
Definition chosen_loader (eval_loader : option (list lb_batch)) (s : PiModel)
  : list lb_batch :=
  match eval_loader with
  | Some l => l
  | None => eval_data (loader_dict s)
  end.

(** ** [PiModel.save_model] and [PiModel.load_model] *)

Definition torch_save (ck : checkpoint) (file : string) : M unit :=
  fun s => (modify (with_disk (PyDict.set file ck (disk s))) ;; emit (EvTorchSave file)) s.

Definition torch_load (file : string) : M checkpoint :=
  fun s =>
    match PyDict.get file (disk s) with
    | Some ck => ret ck s
    | None => raise FileNotFoundError s
    end.

Definition save_model (save_name save_path : string) : M unit :=
  let save_filename := PyStr.path_join save_path save_name in
  model_eval ;;
  ema_apply_shadow ;;
  ema_copy <- get model ;;
  ema_restore ;;
  model_train ;;
  (fun s =>
     torch_save {| ck_model := model s;
                   ck_optimizer := optimizer s;
                   ck_scheduler := scheduler s;
                   ck_it := it s;
                   ck_ema_model := ema_copy |} save_filename s) ;;
  emit (EvPrint "model saved").

(** [self.model.load_state_dict(sd)] and [self.ema_model.load_state_dict(sd)]. *)
Definition model_load_state_dict (sd : state_dict) : M unit :=
  fun s =>
    let r := load_state_dict (model s) sd in
    (fst r, with_model (snd r) s, []).

Definition ema_model_load_state_dict (sd : state_dict) : M unit :=
  fun s =>
    let r := load_state_dict (ema_model s) sd in
    (fst r, with_ema_model (snd r) s, []).

(** The three statements that end both fallback scenarios and the method. *)
Definition restore_progress (ck : checkpoint) : M unit :=
  modify (with_optimizer (ck_optimizer ck)) ;;
  modify (with_scheduler (ck_scheduler ck)) ;;
  modify (with_it (ck_it ck)).

Definition load_renamed (f : string -> string) (ck : checkpoint) (msg : string) : M unit :=
  model_load_state_dict (rename_keys f (ck_model ck)) ;;
  ema_model_load_state_dict (rename_keys f (ck_ema_model ck)) ;;
  restore_progress ck ;;
  emit (EvPrint msg).

Definition load_model (load_path : string) : M unit :=
  ck <- torch_load load_path ;;
  emit (EvPrint "Loading save model from") ;;
  live <- get model ;;
  modify (with_ema_model live) ;;
  try_except
    (model_load_state_dict (ck_model ck) ;;
     ema_model_load_state_dict (ck_ema_model ck) ;;
     emit (EvPrint "model loaded"))
    (fun _ =>
       emit (EvPrint "SAVED CHECKPOINT IS NOT COMPATIBLE WITH CURRENT MODEL! ATTEMPTING TO LOAD MANUALLY") ;;
       ddp <- get replicated ;;
       if negb ddp
       then load_renamed strip_module ck "model loaded from multi-gpu checkpoint to single gpu"
       else load_renamed add_module ck "model loaded from single-gpu checkpoint to multi gpu") ;;
  restore_progress ck.

(** ** [PiModel.train] *)

Record Args : Type := {
  num_train_iter : Z;
  unsup_warmup_pos : Q;
  amp : bool;
  clip : Q;
  resume : bool;
  multiprocessing_distributed : bool;
  rank : Z;
  terminal_iter : option Z;
  save_dir : string;
  save_name : string
}.

(** The local variables [best_eval_acc, best_it]. *)
Record tracker : Type := {
  best_eval_acc : Q;
  best_it : Z
}.

Inductive flow : Type :=
| Continue
| Break.

(** [not args.multiprocessing_distributed or
     (args.multiprocessing_distributed and args.rank % ngpus_per_node == 0)]. *)
Definition may_write (C : Collaborators) (args : Args) : result bool :=
  if negb (multiprocessing_distributed args) then Ok true
  else rbind (py_mod (rank args) (device_count C)) (fun r => Ok (r =? 0)).

(** Lines 130-140: both branches on [args.amp] run backward, optional
    gradient clipping and the optimizer step. *)
Definition parameter_updates (C : Collaborators) (args : Args) (loss : Q) : M unit :=
  emit EvBackward ;;
  (if Qgt_bool (clip args) 0 then emit EvClipGrad else ret tt) ;;
  (fun s =>
     let r := optimizer_step C (model s) (optimizer s) loss in
     modify (fun s => with_optimizer (snd r) (with_model (fst r) s)) s) ;;
  emit EvOptimizerStep.

Definition scheduler_step : M unit :=
  (fun s => modify (with_scheduler (scheduler s + 1)) s) ;; emit EvSchedulerStep.

(** Lines 115-127: the forward passes and the composition of the loss. *)
Definition compute_losses (C : Collaborators) (lb : lb_batch) (ulb : ulb_batch)
    (warmup : Q) : M (Q * Q * Q) :=
  logits_x_lb <- forward C Labeled (fst lb) ;;
  freeze_bn ;;
  logits_x_ulb_w1 <- forward C UnlabeledW1 (fst ulb) ;;
  logits_x_ulb_w2 <- forward C UnlabeledW2 (snd ulb) ;;
  unfreeze_bn ;;
  sup_loss <- lift (ce_loss C logits_x_lb (snd lb)) ;;
  let unsup_loss := consistency_loss (expq C) logits_x_ulb_w1 logits_x_ulb_w2 in
  lam <- get lambda_u ;;
  let total := compose_loss sup_loss lam unsup_loss warmup in
  emit (EvComposeLoss sup_loss unsup_loss total) ;;
  ret (sup_loss, unsup_loss, total).

(** Lines 159-163. *)
Definition save_latest (C : Collaborators) (args : Args) : M unit :=
  cur <- get it ;;
  r <- lift (py_mod cur 10000) ;;
  if r =? 0 then
    w <- lift (may_write C args) ;;
    if w then save_model "latest_model.pth" (PyStr.path_join (save_dir args) (save_name args))
    else ret tt
  else ret tt.

(** Lines 171-189, once [self.evaluate] has returned [eval_dict]. *)
Definition record_evaluation (C : Collaborators) (args : Args)
    (tb_dict eval_dict : list (string * Q)) (tr : tracker) : M tracker :=
  let tb_dict := PyDict.update tb_dict eval_dict in
  let save_path := PyStr.path_join (save_dir args) (save_name args) in
  top1 <- lift (match PyDict.get "eval/top-1-acc" tb_dict with
                | Some v => Ok v
                | None => Raise KeyError
                end) ;;
  cur <- get it ;;
  let tr := if Qgt_bool top1 (best_eval_acc tr)
            then {| best_eval_acc := top1; best_it := cur |}
            else tr in
  emit (EvPrint "iteration, BEST_EVAL_ACC") ;;
  w <- lift (may_write C args) ;;
  (if w then
     (if cur =? best_it tr
      then save_model "model_best.pth" save_path
      else ret tt) ;;
     (if has_tb_log C then emit EvTbLog else ret tt)
   else ret tt) ;;
  ret tr.

(** Lines 169-189. *)
Definition evaluate_and_record (C : Collaborators) (args : Args)
    (tb_dict : list (string * Q)) (tr : tracker) : M tracker :=
  cur <- get it ;;
  every <- get num_eval_iter ;;
  r <- lift (py_mod cur every) ;;
  if r =? 0 then
    eval_dict <- evaluate C None ;;
    record_evaluation C args tb_dict eval_dict tr
  else ret tr.

(** Lines 191-195. *)
Definition advance (args : Args) : M unit :=
  (fun s => modify (with_it (it s + 1)) s) ;;
  cur <- get it ;;
  if Qgt_bool (inject_Z cur) ((8 # 10) * inject_Z (num_train_iter args))%Q
  then modify (with_num_eval_iter 1000)
  else ret tt.

(** Lines 101-127: warmup factor, forward passes, losses. *)
Definition forward_and_losses (C : Collaborators) (args : Args)
    (lb : lb_batch) (ulb : ulb_batch) : M (Q * Q * Q) :=
  cur <- get it ;;
  warmup <- lift (unsup_warmup cur (unsup_warmup_pos args) (num_train_iter args)) ;;
  compute_losses C lb ulb warmup.

(** One turn of the [for] loop of [train], lines 99-195. *)
Definition train_iteration (C : Collaborators) (args : Args)
    (lb : lb_batch) (ulb : ulb_batch) (tr : tracker) : M (flow * tracker) :=
  cur <- get it ;;
  if cur >? num_train_iter args then ret (Break, tr)
  else
    losses <- forward_and_losses C args lb ulb ;;
    parameter_updates C args (snd losses) ;;
    scheduler_step ;;
    ema_update ;;
    emit EvZeroGrad ;;
    let tb_dict := [("train/sup_loss"%string, fst (fst losses));
                    ("train/unsup_loss"%string, snd (fst losses));
                    ("train/total_loss"%string, snd losses)] in
    save_latest C args ;;
    if match terminal_iter args with
       | Some t => cur >=? t
       | None => false
       end
    then ret (Break, tr)
    else
      tr' <- evaluate_and_record C args tb_dict tr ;;
      advance args ;;
      ret (Continue, tr').

(** [for ... in zip(self.loader_dict['train_lb'], self.loader_dict['train_ulb'])]. *)
Fixpoint train_loop (C : Collaborators) (args : Args)
    (lbs : list lb_batch) (ulbs : list ulb_batch) (tr : tracker) : M tracker :=
  match lbs, ulbs with
  | lb :: lbs', ulb :: ulbs' =>
      step <- train_iteration C args lb ulb tr ;;
      match fst step with
      | Break => ret (snd step)
      | Continue => train_loop C args lbs' ulbs' (snd step)
      end
  | _, _ => ret tr
  end.

Definition train (C : Collaborators) (args : Args) : M (list (string * Q)) :=
  model_train ;;
  ema_new ;;
  ema_register ;;
  (if resume args then (other <- get ema_model ;; ema_load other) else ret tt) ;;
  let tr0 := {| best_eval_acc := 0; best_it := 0 |} in
  (if resume args then (_ <- evaluate C None ;; emit (EvPrint "eval_dict")) else ret tt) ;;
  lbs <- get (fun s => train_lb (loader_dict s)) ;;
  ulbs <- get (fun s => train_ulb (loader_dict s)) ;;
  tr <- train_loop C args lbs ulbs tr0 ;;
  eval_dict <- evaluate C None ;;
  let eval_dict := PyDict.update eval_dict
                     [("eval/best_acc"%string, best_eval_acc tr);
                      ("eval/best_it"%string, inject_Z (best_it tr))] in
  try_except
    (lift (append_results C (save_name args) (best_eval_acc tr)))
    (fun _ => ret tt) ;;
  ret eval_dict.

(** ** Vocabulary of the statements *)

(** The calls of [compute_losses] up to each point where a collaborator can
    raise. *)
Definition passes_1 (s : PiModel) : list event := [EvForward Labeled (bn_frozen s)].

Definition passes_2 (s : PiModel) : list event :=
  passes_1 s ++ [EvFreezeBN; EvForward UnlabeledW1 true].

Definition passes_3 (s : PiModel) : list event :=
  passes_2 s ++ [EvForward UnlabeledW2 true].

Definition passes_4 (s : PiModel) : list event := passes_3 s ++ [EvUnfreezeBN].

(** The order of calls the spec prescribes for the forward passes of one
    iteration (section 4.4), ending with the composition of the loss. *)
Definition forward_protocol (sup_loss unsup_loss total : Q) : list event :=
  [EvForward Labeled false; EvFreezeBN;
   EvForward UnlabeledW1 true; EvForward UnlabeledW2 true;
   EvUnfreezeBN; EvComposeLoss sup_loss unsup_loss total].

(** The object once the three closing statements of [load_model] have run. *)
Definition progress_restored (ck : checkpoint) (s : PiModel) : PiModel :=
  with_it (ck_it ck) (with_scheduler (ck_scheduler ck) (with_optimizer (ck_optimizer ck) s)).

(** The renaming the [except] branch of [load_model] applies to stored names. *)
Definition reconcile (s : PiModel) : string -> string :=
  if replicated s then add_module else strip_module.

Definition print_loading : event := EvPrint "Loading save model from".

Definition print_incompatible : event :=
  EvPrint "SAVED CHECKPOINT IS NOT COMPATIBLE WITH CURRENT MODEL! ATTEMPTING TO LOAD MANUALLY".

Definition print_reconciled (s : PiModel) : event :=
  EvPrint (if replicated s
           then "model loaded from single-gpu checkpoint to multi gpu"
           else "model loaded from multi-gpu checkpoint to single gpu").

(** Closed form of the [except] branch entered on the object [s]. *)
Definition fallback_run (ck : checkpoint) (s : PiModel) : result unit * PiModel * list event :=
  let sd := rename_keys (reconcile s) (ck_model ck) in
  let sd_ema := rename_keys (reconcile s) (ck_ema_model ck) in
  let s1 := with_model (copy_matching (model s) sd) s in
  if loadable (model s) sd then
    let s2 := with_ema_model (copy_matching (ema_model s) sd_ema) s1 in
    if loadable (ema_model s) sd_ema then
      (Ok tt, progress_restored ck s2,
       [print_loading; print_incompatible; print_reconciled s])
    else (Raise RuntimeError, s2, [print_loading; print_incompatible])
  else (Raise RuntimeError, s1, [print_loading; print_incompatible]).

(** Closed form of [load_model] on a checkpoint [ck] read from the file. *)
Definition load_model_cases (ck : checkpoint) (s : PiModel) : result unit * PiModel * list event :=
  let s1 := with_model (copy_matching (model s) (ck_model ck)) (with_ema_model (model s) s) in
  if loadable (model s) (ck_model ck) then
    let s2 := with_ema_model (copy_matching (model s) (ck_ema_model ck)) s1 in
    if loadable (model s) (ck_ema_model ck) then
      (Ok tt, progress_restored ck s2, [print_loading; EvPrint "model loaded"])
    else fallback_run ck s2
  else fallback_run ck s1.

(** Name of a parameter in the [state_dict] of an instance: a wrapper
    ([DistributedDataParallel], [DataParallel]) holds the network in an
    attribute called [module]; [ddp] says whether the instance is wrapped. *)
Definition wrapped (ddp : bool) (name : string) : string :=
  if ddp then add_module name else name.

(** Entry of a renamed dictionary. *)
Definition rename_entry (f : string -> string) (kv : string * vec) : string * vec :=
  (f (fst kv), snd kv).

(** The [state_dict] an instance shows for a network whose own parameter
    dictionary is [network]. *)
Definition state_dict_of (ddp : bool) (network : state_dict) : state_dict :=
  map (rename_entry (wrapped ddp)) network.

(** A parameter name that a network can have without meeting the defect of
    [strip_module]: ["module."] does not occur in it. *)
Definition clean (name : string) : Prop := PyStr.contains "module." name = false.

(** The bundle [save_model] writes. *)
Definition written (s : PiModel) (e : EMA) : checkpoint :=
  {| ck_model := model s;
     ck_optimizer := optimizer s;
     ck_scheduler := scheduler s;
     ck_it := it s;
     ck_ema_model := shadow e |}.

(** Two dictionaries with the same names in the same order and values of the
    same shapes. *)
Definition congruent (a b : state_dict) : Prop :=
  Forall2 (fun x y => fst x = fst y /\ length (snd x) = length (snd y)) a b.

(** Path of the "best" checkpoint of a run. *)
Definition best_file (args : Args) : string :=
  PyStr.path_join (PyStr.path_join (save_dir args) (save_name args)) "model_best.pth".

(** The calls of [save_model] writing [file]. *)
Definition save_calls (file : string) : list event :=
  [EvEvalMode; EvApplyShadow; EvRestore; EvTrainMode; EvTorchSave file;
   EvPrint "model saved"].

(** Size of the [i]-th group delimited by a list of offsets. *)
Definition group_size (offsets : list Z) (i : nat) : Z :=
  nth (S i) offsets 0 - nth i offsets 0.

(** Running sums of [gs] started at [a]; the closed form of [append_offsets]. *)
Fixpoint prefix_sums (a : Z) (gs : list Z) : list Z :=
  match gs with
  | [] => []
  | g :: gs' => (a + g) :: prefix_sums (a + g) gs'
  end.

(** ** Further vocabulary *)

(** A method that leaves the observation [f] of the object as it found it,
    whether it returns or raises. *)
Definition keeps {A B : Type} (f : PiModel -> A) (m : M B) : Prop :=
  forall s, f (after (m s)) = f s.

(** What the training loop calls its progress: the counter and the
    evaluation interval. *)
Definition cadence (s : PiModel) : Z * Z := (it s, num_eval_iter s).

(** What only the optimizer and scheduler steps and [load_model] may change. *)
Definition progress (s : PiModel) : Z * optimizer_state * scheduler_state :=
  (it s, optimizer s, scheduler s).

(** The override [args.terminal_iter] has been reached at counter [cur]. *)
Definition terminal_reached (args : Args) (cur : Z) : bool :=
  match terminal_iter args with
  | Some t => cur >=? t
  | None => false
  end.

(** The tracker after an evaluation at iteration [cur] either is the one
    before or records a strictly better accuracy at [cur]. *)
Definition tracker_advanced (cur : Z) (before after_ : tracker) : Prop :=
  after_ = before \/
  (best_it after_ = cur /\ (best_eval_acc before < best_eval_acc after_)%Q).

(** ** [remixmatch_utils.one_hot] *)

(** [torch.zeros(n, c)]: a negative dimension raises. *)
Definition zeros (n : nat) (c : Z) : result tensor :=
  if c <? 0 then Raise RuntimeError else Ok (repeat (repeat 0%Q (Z.to_nat c)) n).

(** One row of [t.scatter_(1, index, value)] for an index of one column:
    the index must lie in [[0, width)]; negative indices do not wrap. *)
Definition scatter_row (row : vec) (idx : Z) (value : Q) : result vec :=
  if (0 <=? idx) && (idx <? Z.of_nat (length row))
  then Ok (PyList.set_nth (Z.to_nat idx) value row)
  else Raise RuntimeError.

Fixpoint scatter_rows (t : tensor) (index : list Z) (value : Q) : result tensor :=
  match t, index with
  | row :: t', i :: index' =>
      rbind (scatter_row row i value) (fun row' =>
      rbind (scatter_rows t' index' value) (fun rest => Ok (row' :: rest)))
  | _, _ => Ok t
  end.

(** [one_hot(targets, nClass, gpu)]:
    [torch.zeros(targets.size(0), nClass).scatter_(1, targets.unsqueeze(1), 1)]. *)
Definition one_hot (targets : list Z) (nClass : Z) : result tensor :=
  rbind (zeros (length targets) nClass) (fun logits => scatter_rows logits targets 1%Q).

(** The row that has a one at [t] and zeros elsewhere. *)
Definition indicator (nClass : Z) (t : Z) : vec :=
  map (fun j => if Z.of_nat j =? t then 1%Q else 0%Q) (seq 0 (Z.to_nat nClass)).

(** ** [PiModel.interleave] *)

(** [l[i]]; raises [IndexError] out of range. *)
Definition py_item {A : Type} (l : list A) (i : Z) : result A :=
  match PyList.position (length l) i with
  | Some n =>
      match nth_error l n with
      | Some v => Ok v
      | None => Raise IndexError
      end
  | None => Raise IndexError
  end.

(** [l[i] = v]; raises [IndexError] out of range. *)
Definition py_set_item {A : Type} (l : list A) (i : Z) (v : A) : result (list A) :=
  match PyList.position (length l) i with
  | Some n => Ok (PyList.set_nth n v l)
  | None => Raise IndexError
  end.

(** Position denoted by a bound of a slice on a sequence of length [len]:
    a negative bound counts from the end, and the position is clamped to
    [[0, len]]. *)
Definition slice_bound (len : nat) (i : Z) : nat :=
  if i <? 0 then Z.to_nat (Z.of_nat len + i) else Nat.min (Z.to_nat i) len.

(** [v[a:b]] along the first dimension; empty when the bounds cross. *)
Definition py_slice {A : Type} (v : list A) (a b : Z) : list A :=
  let lo := slice_bound (length v) a in
  let hi := slice_bound (length v) b in
  firstn (hi - lo) (skipn lo v).

(** [range(a, b)]. *)
Definition py_range (a b : Z) : list Z :=
  map (fun k => a + Z.of_nat k) (seq 0 (Z.to_nat (b - a))).

(** A list comprehension whose element expression may raise. *)
Fixpoint comprehension {A B : Type} (f : A -> result B) (l : list A) : result (list B) :=
  match l with
  | [] => Ok []
  | a :: l' =>
      rbind (f a) (fun b =>
      rbind (comprehension f l') (fun bs => Ok (b :: bs)))
  end.

(** A [for] loop that updates [s] and stops at the first exception. *)
Fixpoint for_each {A S : Type} (body : S -> A -> result S) (l : list A) (s : S) : result S :=
  match l with
  | [] => Ok s
  | a :: l' => rbind (body s a) (for_each body l')
  end.

(** [[v[offsets[p]:offsets[p + 1]] for p in range(nu + 1)]]. *)
Definition groups_of {A : Type} (offsets : list Z) (nu : Z) (v : list A) : result (list (list A)) :=
  comprehension
    (fun p =>
       rbind (py_item offsets p) (fun a =>
       rbind (py_item offsets (p + 1)) (fun b =>
       Ok (py_slice v a b))))
    (PyList.range (nu + 1)).

(** [xy[j][p]]. *)
Definition group_at {A : Type} (xy : list (list A)) (j p : Z) : result A :=
  rbind (py_item xy j) (fun row => py_item row p).

(** [xy[j][p] = g]: the row object [xy[j]] is updated in place, and [xy]
    keeps holding it.  The rows are distinct objects, each made by its own
    comprehension, so no other row changes. *)
Definition set_group_at {A : Type} (xy : list (list A)) (j p : Z) (g : A) : result (list (list A)) :=
  rbind (py_item xy j) (fun row =>
  rbind (py_set_item row p g) (fun row' =>
  py_set_item xy j row')).

(** [xy[0][i], xy[i][i] = xy[i][i], xy[0][i]]: the right-hand side is read
    first, then the two targets are assigned from left to right. *)
Definition swap_groups {A : Type} (xy : list (list A)) (i : Z) : result (list (list A)) :=
  rbind (group_at xy i i) (fun a =>
  rbind (group_at xy 0 i) (fun b =>
  rbind (set_group_at xy 0 i a) (fun xy' =>
  set_group_at xy' i i b))).

(** [torch.cat(v, dim=0)] on tensors whose rows have a common shape; an
    empty list of tensors raises. *)
Definition cat {A : Type} (v : list (list A)) : result (list A) :=
  match v with
  | [] => Raise RuntimeError
  | _ :: _ => Ok (concat v)
  end.

(** [interleave(xy, batch)]; a tensor is the list of its rows. *)
Definition interleave {A : Type} (xy : list (list A)) (batch : Z) : result (list (list A)) :=
  let nu := Z.of_nat (length xy) - 1 in
  rbind (interleave_offsets batch nu) (fun offsets =>
  rbind (comprehension (groups_of offsets nu) xy) (fun xy =>
  rbind (for_each swap_groups (py_range 1 (nu + 1)) xy) (fun xy =>
  comprehension cat xy))).

(** The input tensor from which group [p] of output tensor [j] is taken. *)
Definition source_of (j p : nat) : nat :=
  if (j =? 0)%nat then p else if (j =? p)%nat then 0%nat else j.

(** Cut [v] into consecutive pieces of the given sizes. *)
Fixpoint pieces {A : Type} (sizes : list nat) (v : list A) : list (list A) :=
  match sizes with
  | [] => []
  | g :: sizes' => firstn g v :: pieces sizes' (skipn g v)
  end.

(** The groups of [v] between consecutive offsets, as [groups_of] returns
    them when the indices are in range. *)
Definition slices {A : Type} (offsets : list Z) (n : nat) (v : list A) : list (list A) :=
  map (fun p => py_slice v (nth p offsets 0) (nth (S p) offsets 0)) (seq 0 n).

(** Group [p] of tensor [j] in the list of lists of groups [G]. *)
Definition cell {A : Type} (G : list (list (list A))) (j p : nat) : list A :=
  nth p (nth j G []) [].

(** [n] tensors cut into [n] groups each. *)
Definition square {A : Type} (n : nat) (G : list (list (list A))) : Prop :=
  length G = n /\ forall j, (j < n)%nat -> length (nth j G []) = n.

(** [G] with group [p] of tensor [j] replaced by [g]. *)
Definition put {A : Type} (G : list (list (list A))) (j p : nat) (g : list A) : list (list (list A)) :=
  PyList.set_nth j (PyList.set_nth p g (nth j G [])) G.

(** [G] is what the rounds [1..k] of the exchange loop make of [C]. *)
Definition swapped {A : Type} (k n : nat) (C G : list (list (list A))) : Prop :=
  square n G /\
  forall j p, (j < n)%nat -> (p < n)%nat ->
    cell G j p = if (1 <=? p)%nat && (p <=? k)%nat
                 then cell C (source_of j p) p else cell C j p.

(** The sizes of the groups delimited by [interleave_offsets batch nu]:
    the floor quotient, and one more for the last [batch mod (nu + 1)]. *)
Definition group_sizes (batch nu : Z) : list Z :=
  repeat (batch / (nu + 1)) (Z.to_nat (nu + 1) - Z.to_nat (batch mod (nu + 1)))
  ++ repeat (batch / (nu + 1) + 1) (Z.to_nat (batch mod (nu + 1))).

(** ** [remixmatch_utils.off_diagonal] *)

(** A two-dimensional tensor: its shape and its entries in the order of
    [x.flatten()], row after row. *)
Record matrix (A : Type) : Type := {
  nrows : nat;
  ncols : nat;
  flat : list A
}.

Arguments nrows {A} m.
Arguments ncols {A} m.
Arguments flat {A} m.

(** The shape [t.view(r, c)] gives to a tensor of [numel] entries: one
    dimension may be [-1] and is then inferred; a shape that does not hold
    exactly [numel] entries raises. *)
Definition view_shape (numel r c : Z) : result (Z * Z) :=
  if (r <? -1) || (c <? -1) then Raise RuntimeError
  else if (r =? -1) && (c =? -1) then Raise RuntimeError
  else if r =? -1 then
    if (0 <? c) && (numel mod c =? 0) then Ok (numel / c, c) else Raise RuntimeError
  else if c =? -1 then
    if (0 <? r) && (numel mod r =? 0) then Ok (r, numel / r) else Raise RuntimeError
  else if r * c =? numel then Ok (r, c)
  else Raise RuntimeError.

(** [t.view(r, c)] on a contiguous one-dimensional tensor, as its rows. *)
Definition view {A : Type} (t : list A) (r c : Z) : result (list (list A)) :=
  rbind (view_shape (Z.of_nat (length t)) r c) (fun shape =>
  Ok (pieces (repeat (Z.to_nat (snd shape)) (Z.to_nat (fst shape))) t)).

(** [off_diagonal(x)]:
    [x.flatten()[:-1].view(n - 1, n + 1)[:, 1:].flatten()]. *)
Definition off_diagonal {A : Type} (x : matrix A) : result (list A) :=
  let n := Z.of_nat (nrows x) in
  let m := Z.of_nat (ncols x) in
  if negb (n =? m) then Raise AssertionError
  else
    rbind (view (py_slice (flat x) 0 (-1)) (n - 1) (n + 1)) (fun rows =>
    Ok (concat (map (fun row => py_slice row 1 (Z.of_nat (length row))) rows))).

(** The rows one after the other, each without its entry on the diagonal;
    [k] is the index of the first row. *)
Fixpoint without_diagonal {A : Type} (k : nat) (rows : list (list A)) : list A :=
  match rows with
  | [] => []
  | row :: rows' => (firstn k row ++ skipn (S k) row) ++ without_diagonal (S k) rows'
  end.

(** ** [datasets/comatch_dataloaders/cifar.py]: the labelled split *)

(** The two values of [dataset] that [load_data_train] handles.  With any
    other name neither branch runs, and the function stops at its first use
    of [datalist], before any data is read. *)
Inductive cifar : Type :=
| CIFAR10
| CIFAR100.

Definition n_class (dataset : cifar) : Z :=
  match dataset with
  | CIFAR10 => 10
  | CIFAR100 => 100
  end.

(** The numbers of labels each branch asserts [L] to be one of. *)
Definition permitted_L (dataset : cifar) : list Z :=
  match dataset with
  | CIFAR10 => [10; 20; 40; 80; 250; 4000]
  | CIFAR100 => [25; 400; 2500; 10000]
  end.

(** [np.where(labels == i)[0]], counting positions from [k]: the positions
    of the entries equal to [i], in increasing order. *)
Fixpoint where_from (k : Z) (labels : list Z) (i : Z) : list Z :=
  match labels with
  | [] => []
  | l :: labels' =>
      if l =? i then k :: where_from (k + 1) labels' i
      else where_from (k + 1) labels' i
  end.

Definition np_where_eq (labels : list Z) (i : Z) : list Z := where_from 0 labels i.

(** The four lists the loop over the classes extends. *)
Record labelled_split (Img : Type) : Type := {
  data_x : list Img;
  label_x : list Z;
  data_u : list Img;
  label_u : list Z
}.

Arguments data_x {Img} _.
Arguments label_x {Img} _.
Arguments data_u {Img} _.
Arguments label_u {Img} _.

(** One round of [for i in range(n_class)].  [shuffle i] is what
    [np.random.shuffle] makes of the indices of class [i], and [image] is
    [reshape(3, 32, 32).transpose(1, 2, 0)]. *)
Definition split_class {D Img : Type} (shuffle : Z -> list Z -> list Z) (image : D -> Img)
    (data : list D) (labels : list Z) (n_labels : Z) (acc : labelled_split Img) (i : Z)
    : result (labelled_split Img) :=
  let indices := shuffle i (np_where_eq labels i) in
  let inds_x := py_slice indices 0 n_labels in
  let inds_u := py_slice indices n_labels (Z.of_nat (length indices)) in
  rbind (comprehension (fun k => rbind (py_item data k) (fun d => Ok (image d))) inds_x) (fun dx =>
  rbind (comprehension (fun k => py_item labels k) inds_x) (fun lx =>
  rbind (comprehension (fun k => rbind (py_item data k) (fun d => Ok (image d))) inds_u) (fun du =>
  rbind (comprehension (fun k => py_item labels k) inds_u) (fun lu =>
  Ok {| data_x := data_x acc ++ dx; label_x := label_x acc ++ lx;
        data_u := data_u acc ++ du; label_u := label_u acc ++ lu |})))).

(** [load_data_train(L, dataset, dspth)], lines 45-56 and 67-83, from the
    arrays [data] and [labels] that lines 58-66 read from the files of the
    data set and concatenate.  The rows of [data] are taken to hold the 3072
    entries [image] reshapes. *)
Definition load_data_train {D Img : Type} (shuffle : Z -> list Z -> list Z) (image : D -> Img)
    (L : Z) (dataset : cifar) (data : list D) (labels : list Z) : result (labelled_split Img) :=
  if negb (existsb (Z.eqb L) (permitted_L dataset)) then Raise AssertionError
  else
    let n_labels := L / n_class dataset in
    for_each (split_class shuffle image data labels n_labels)
      (PyList.range (n_class dataset))
      {| data_x := []; label_x := []; data_u := []; label_u := [] |}.

(** The labels [0 .. n - 1], each repeated [copies c] times. *)
Definition by_class (n : Z) (copies : Z -> nat) : list Z :=
  flat_map (fun c => repeat c (copies c)) (PyList.range n).

(** The entries of [inds] index [data] and [labels], and [xs] and [ls] are
    what they select, position by position. *)
Definition drawn {D Img : Type} (image : D -> Img) (data : list D) (labels : list Z)
    (inds : list Z) (xs : list Img) (ls : list Z) : Prop :=
  Forall2 (fun k x => 0 <= k /\ exists d, nth_error data (Z.to_nat k) = Some d /\ x = image d)
    inds xs /\
  Forall2 (fun k l => 0 <= k /\ nth_error labels (Z.to_nat k) = Some l) inds ls.

(** ** The results log of [train] *)

(** The collaborators [C] with another way of appending to the results log. *)
Definition with_append_results (C : Collaborators) (f : string -> Q -> result unit)
    : Collaborators :=
  {| net := net C;
     bn_stats := bn_stats C;
     ce_loss := ce_loss C;
     expq := expq C;
     sk_metrics := sk_metrics C;
     optimizer_step := optimizer_step C;
     device_count := device_count C;
     has_tb_log := has_tb_log C;
     append_results := f |}.

(** ** A small concrete configuration, used to run the methods *)

Module Fixture.

Definition collaborators : Collaborators :=
  {| net := fun _ x => Ok x;
     bn_stats := fun sd _ => sd;
     ce_loss := fun _ _ => Ok (1 # 2)%Q;
     expq := fun x => (1 + x * x)%Q;
     sk_metrics := fun _ _ _ => Ok ((3 # 4)%Q, 1%Q);
     optimizer_step := fun m o _ => (m, o);
     device_count := 2;
     has_tb_log := false;
     append_results := fun _ _ => Ok tt |}.

(** The same collaborators with an accelerator that fails in the forward pass. *)
Definition failing_forward : Collaborators :=
  {| net := fun _ _ => Raise RuntimeError;
     bn_stats := bn_stats collaborators;
     ce_loss := ce_loss collaborators;
     expq := expq collaborators;
     sk_metrics := sk_metrics collaborators;
     optimizer_step := optimizer_step collaborators;
     device_count := device_count collaborators;
     has_tb_log := has_tb_log collaborators;
     append_results := append_results collaborators |}.

Definition tracker_ema : EMA :=
  {| decay := (999 # 1000)%Q;
     shadow := [("fc.weight"%string, [(3 # 1)%Q; (4 # 1)%Q])];
     backup := [] |}.

Definition object : PiModel :=
  {| model := [("fc.weight"%string, [(1 # 1)%Q; (2 # 1)%Q])];
     replicated := false;
     training := true;
     bn_frozen := false;
     ema := Some tracker_ema;
     ema_model := [("fc.weight"%string, [(3 # 1)%Q; (4 # 1)%Q])];
     ema_m := (999 # 1000)%Q;
     optimizer := [("momentum_buffer"%string, [0%Q; 0%Q])];
     scheduler := 200;
     it := 200;
     num_eval_iter := 1000;
     lambda_u := (10 # 1)%Q;
     loader_dict := {| train_lb := []; train_ulb := [];
                       eval_data := [([[1%Q; 0%Q]], [0])] |};
     disk := [] |}.

Definition args : Args :=
  {| num_train_iter := 1000;
     unsup_warmup_pos := (2 # 5)%Q;
     amp := false;
     clip := 0%Q;
     resume := false;
     multiprocessing_distributed := false;
     rank := 0;
     terminal_iter := None;
     save_dir := "saved_models";
     save_name := "pimodel" |}.

(** A replica of a distributed run that is not the writing process. *)
Definition replica_args : Args :=
  {| num_train_iter := 1000;
     unsup_warmup_pos := (2 # 5)%Q;
     amp := false;
     clip := 0%Q;
     resume := false;
     multiprocessing_distributed := true;
     rank := 1;
     terminal_iter := None;
     save_dir := "saved_models";
     save_name := "pimodel" |}.

(** The object as [train] finds it on a fresh run: counter at zero. *)
Definition fresh_object : PiModel := with_it 0 object.

(** A replicated (DistributedDataParallel) instance late in training. *)
Definition replicated_object (param : string) : PiModel :=
  {| model := [(param, [(5 # 1)%Q; (6 # 1)%Q])];
     replicated := true;
     training := true;
     bn_frozen := false;
     ema := Some {| decay := (999 # 1000)%Q;
                    shadow := [(param, [(7 # 1)%Q; (8 # 1)%Q])];
                    backup := [] |};
     ema_model := [(param, [(7 # 1)%Q; (8 # 1)%Q])];
     ema_m := (999 # 1000)%Q;
     optimizer := [("momentum_buffer"%string, [(1 # 10)%Q; (2 # 10)%Q])];
     scheduler := 5000;
     it := 5000;
     num_eval_iter := 1000;
     lambda_u := (10 # 1)%Q;
     loader_dict := {| train_lb := []; train_ulb := []; eval_data := [] |};
     disk := [] |}.

(** A freshly built single-device instance about to resume. *)
Definition single_object (param : string) : PiModel :=
  {| model := [(param, [0%Q; 0%Q])];
     replicated := false;
     training := true;
     bn_frozen := false;
     ema := None;
     ema_model := [(param, [0%Q; 0%Q])];
     ema_m := (999 # 1000)%Q;
     optimizer := [];
     scheduler := 0;
     it := 0;
     num_eval_iter := 1000;
     lambda_u := (10 # 1)%Q;
     loader_dict := {| train_lb := []; train_ulb := []; eval_data := [] |};
     disk := [] |}.

(** The bundle [save_model] writes for [replicated_object param]. *)
Definition replicated_checkpoint (param : string) : checkpoint :=
  {| ck_model := [(param, [(5 # 1)%Q; (6 # 1)%Q])];
     ck_optimizer := [("momentum_buffer"%string, [(1 # 10)%Q; (2 # 10)%Q])];
     ck_scheduler := 5000;
     ck_it := 5000;
     ck_ema_model := [(param, [(7 # 1)%Q; (8 # 1)%Q])] |}.

(** A single-device instance that finds the file of a replicated run. *)
Definition resuming (stored own : string) : PiModel :=
  with_disk [("run/latest_model.pth"%string, replicated_checkpoint stored)]
    (single_object own).

(** Save on [saver], then load the written file on [loader]. *)
Definition save_then_load (saver loader : PiModel) : result unit * PiModel * list event :=
  let saved := after (save_model "latest_model.pth" "run" saver) in
  load_model "run/latest_model.pth" (with_disk (disk saved) loader).

Definition lb : lb_batch := ([[1%Q; 0%Q]], [0]).

Definition ulb : ulb_batch := ([[1%Q; 2%Q]], [[2%Q; 1%Q]]).

(** A budget that ends one step after the counter of [object]. *)
Definition short_args : Args :=
  {| num_train_iter := 201;
     unsup_warmup_pos := (2 # 5)%Q;
     amp := false;
     clip := 0%Q;
     resume := false;
     multiprocessing_distributed := false;
     rank := 0;
     terminal_iter := None;
     save_dir := "saved_models";
     save_name := "pimodel" |}.

(** A run configured with no iteration at all. *)
Definition zero_args : Args :=
  {| num_train_iter := 0;
     unsup_warmup_pos := (2 # 5)%Q;
     amp := false;
     clip := 0%Q;
     resume := false;
     multiprocessing_distributed := false;
     rank := 0;
     terminal_iter := None;
     save_dir := "saved_models";
     save_name := "pimodel" |}.

Definition tracker0 : tracker := {| best_eval_acc := 0%Q; best_it := 0 |}.

End Fixture.

(* ================================================================== *)
(** * Verified properties *)
(* ================================================================== *)

(** ** [interleave_offsets] *)

Example interleave_offsets_7_2 : interleave_offsets 7 2 = Ok [0; 2; 4; 7].
Proof. reflexivity. Qed.

Example interleave_offsets_0_0 : interleave_offsets 0 0 = Ok [0; 0].
Proof. reflexivity. Qed.

Example interleave_offsets_div0 : interleave_offsets 5 (-1) = Raise ZeroDivisionError.
Proof. reflexivity. Qed.

Section InterleaveOffsets.

Lemma sum_shift (l : list Z) (a : Z) : fold_left Z.add l a = a + PyList.sum l.
Proof.
  unfold PyList.sum. revert a.
  induction l as [|x l IH]; intros a; simpl; [lia|].
  rewrite (IH (a + x)), (IH x). lia.
Qed.

Lemma sum_cons (x : Z) (l : list Z) : PyList.sum (x :: l) = x + PyList.sum l.
Proof. unfold PyList.sum at 1. simpl. apply sum_shift. Qed.

Lemma sum_app (l1 l2 : list Z) :
  PyList.sum (l1 ++ l2) = PyList.sum l1 + PyList.sum l2.
Proof.
  induction l1 as [|x l1 IH]; simpl; [reflexivity|].
  rewrite !sum_cons, IH. lia.
Qed.

Lemma sum_repeat (v : Z) (n : nat) : PyList.sum (repeat v n) = Z.of_nat n * v.
Proof.
  induction n as [|n IH]; [reflexivity|].
  cbn [repeat]. rewrite sum_cons, IH. lia.
Qed.

Lemma set_nth_middle {A : Type} (l1 l2 : list A) (x v : A) :
  PyList.set_nth (length l1) v (l1 ++ x :: l2) = l1 ++ v :: l2.
Proof. induction l1 as [|h l1 IH]; simpl; [reflexivity | now rewrite IH]. Qed.

Lemma nth_error_middle {A : Type} (l1 l2 : list A) (x : A) :
  nth_error (l1 ++ x :: l2) (length l1) = Some x.
Proof. induction l1 as [|h l1 IH]; simpl; [reflexivity | exact IH]. Qed.

Lemma repeat_snoc {A : Type} (v : A) (n : nat) : repeat v (S n) = repeat v n ++ [v].
Proof. induction n as [|n IH]; [reflexivity|]. cbn [repeat app] in *. now rewrite <- IH. Qed.

(** One pass of the bumping loop turns the last untouched group into a
    larger one. *)
Lemma add_at_from_end (q : Z) (a j : nat) :
  PyList.add_at (repeat q (S a) ++ repeat (q + 1) j) (- Z.of_nat j - 1) 1
  = Ok (repeat q a ++ repeat (q + 1) (S j)).
Proof.
  unfold PyList.add_at, PyList.position.
  rewrite length_app, !repeat_length.
  replace ((0 <=? - Z.of_nat j - 1) && (- Z.of_nat j - 1 <? Z.of_nat (S a + j)))
    with false by (symmetry; apply andb_false_iff; left; apply Z.leb_gt; lia).
  replace ((- Z.of_nat j - 1 <? 0) && (- Z.of_nat (S a + j) <=? - Z.of_nat j - 1))
    with true by (symmetry; apply andb_true_iff; split;
                  [apply Z.ltb_lt | apply Z.leb_le]; lia).
  replace (Z.to_nat (Z.of_nat (S a + j) + (- Z.of_nat j - 1))) with a by lia.
  rewrite repeat_snoc, <- app_assoc. cbn [app].
  rewrite <- (repeat_length q a) at 2.
  rewrite nth_error_middle.
  rewrite <- (repeat_length q a) at 1.
  rewrite set_nth_middle. reflexivity.
Qed.

Lemma bump_groups_spec (q : Z) (k : nat) :
  forall j a,
    bump_groups (map Z.of_nat (seq j k)) (repeat q (a + k) ++ repeat (q + 1) j)
    = Ok (repeat q a ++ repeat (q + 1) (j + k)).
Proof.
  induction k as [|k IH]; intros j a.
  - simpl. now rewrite !Nat.add_0_r.
  - cbn [seq map bump_groups].
    replace (a + S k)%nat with (S (a + k)) by lia.
    rewrite add_at_from_end. cbn [rbind].
    rewrite IH. now replace (S j + k)%nat with (j + S k)%nat by lia.
Qed.

Lemma last_elt_snoc (l : list Z) (a : Z) : PyList.last_elt (l ++ [a]) = a.
Proof. unfold PyList.last_elt. apply last_last. Qed.

Lemma append_offsets_spec (gs : list Z) :
  forall offs a, append_offsets gs (offs ++ [a]) = offs ++ a :: prefix_sums a gs.
Proof.
  unfold append_offsets.
  induction gs as [|g gs IH]; intros offs a; [reflexivity|].
  cbn [fold_left prefix_sums].
  rewrite last_elt_snoc, IH, <- app_assoc. reflexivity.
Qed.

Lemma prefix_sums_length (gs : list Z) : forall a, length (prefix_sums a gs) = length gs.
Proof. induction gs as [|g gs IH]; intros a; simpl; [reflexivity | now rewrite IH]. Qed.

Lemma prefix_sums_last (gs : list Z) :
  forall a, last (a :: prefix_sums a gs) 0 = a + PyList.sum gs.
Proof.
  induction gs as [|g gs IH]; intros a.
  - simpl. unfold PyList.sum. simpl. lia.
  - cbn [prefix_sums]. rewrite sum_cons.
    change (last (a :: (a + g) :: prefix_sums (a + g) gs) 0)
      with (last ((a + g) :: prefix_sums (a + g) gs) 0).
    rewrite IH. lia.
Qed.

Lemma prefix_sums_step (gs : list Z) :
  forall a i, (i < length gs)%nat ->
    group_size (a :: prefix_sums a gs) i = nth i gs 0.
Proof.
  unfold group_size.
  induction gs as [|g gs IH]; intros a i Hi; simpl in Hi; [lia|].
  destruct i as [|i].
  - simpl. lia.
  - cbn [prefix_sums].
    change (nth (S (S i)) (a :: (a + g) :: prefix_sums (a + g) gs) 0)
      with (nth (S i) ((a + g) :: prefix_sums (a + g) gs) 0).
    change (nth (S i) (a :: (a + g) :: prefix_sums (a + g) gs) 0)
      with (nth i ((a + g) :: prefix_sums (a + g) gs) 0).
    rewrite IH by lia. reflexivity.
Qed.

Lemma nth_two_levels (q : Z) (a r i : nat) :
  (i < a + r)%nat ->
  nth i (repeat q a ++ repeat (q + 1) r) 0 = q \/
  nth i (repeat q a ++ repeat (q + 1) r) 0 = q + 1.
Proof.
  intros Hi. destruct (Nat.lt_ge_cases i a) as [Hlt|Hge].
  - left. rewrite app_nth1 by (now rewrite repeat_length).
    apply nth_repeat_lt. exact Hlt.
  - right. rewrite app_nth2 by (now rewrite repeat_length).
    rewrite repeat_length. apply nth_repeat_lt. lia.
Qed.

(** What the function computes, in closed form: the first groups have the
    floor quotient, the last [batch mod (nu + 1)] groups one more. *)
Lemma interleave_offsets_closed_form (batch nu : Z) :
  0 <= batch -> 0 <= nu ->
  let q := batch / (nu + 1) in
  let r := Z.to_nat (batch mod (nu + 1)) in
  let a := (Z.to_nat (nu + 1) - r)%nat in
  interleave_offsets batch nu
  = Ok (0 :: prefix_sums 0 (repeat q a ++ repeat (q + 1) r)).
Proof.
  intros Hb Hn q r a.
  assert (Hmod : 0 <= batch mod (nu + 1) < nu + 1) by (apply Z.mod_pos_bound; lia).
  assert (Hdiv : batch = (nu + 1) * q + batch mod (nu + 1))
    by (apply Z.div_mod; lia).
  unfold interleave_offsets.
  destruct (Z.eqb_spec (nu + 1) 0) as [E|_]; [lia|].
  fold q. unfold PyList.times at 1.
  rewrite sum_repeat, Z2Nat.id by lia.
  replace (batch - (nu + 1) * q) with (batch mod (nu + 1)) by lia.
  unfold PyList.range, PyList.times. fold r.
  replace (Z.to_nat (nu + 1)) with (a + r)%nat by (unfold a, r; lia).
  rewrite <- (app_nil_r (repeat q (a + r))).
  change (@nil Z) with (repeat (q + 1) 0).
  rewrite bump_groups_spec. cbn [rbind Nat.add].
  rewrite (append_offsets_spec _ [] 0). cbn [app].
  unfold PyList.last_elt. rewrite prefix_sums_last.
  rewrite sum_app, !sum_repeat.
  destruct (Z.eqb_spec (0 + (Z.of_nat a * q + Z.of_nat r * (q + 1))) batch) as [_|Hne];
    [reflexivity|].
  exfalso. apply Hne. unfold a, r. nia.
Qed.

(** C10: for [batch >= 0] and [nu >= 0], [interleave_offsets] returns (its
    assertion does not fail) a list of [nu + 2] non-decreasing integers that
    starts at [0], ends at [batch], and delimits [nu + 1] contiguous groups
    whose sizes differ pairwise by at most one. *)
Theorem interleave_offsets_partition (batch nu : Z) :
  0 <= batch -> 0 <= nu ->
  exists offsets,
    interleave_offsets batch nu = Ok offsets /\
    Z.of_nat (length offsets) = nu + 2 /\
    nth 0 offsets 0 = 0 /\
    last offsets 0 = batch /\
    (forall i, (i <= Z.to_nat nu)%nat -> nth i offsets 0 <= nth (S i) offsets 0) /\
    (forall i j, (i <= Z.to_nat nu)%nat -> (j <= Z.to_nat nu)%nat ->
                 Z.abs (group_size offsets i - group_size offsets j) <= 1).
Proof.
  intros Hb Hn.
  pose proof (interleave_offsets_closed_form batch nu Hb Hn) as Hcf.
  cbv zeta in Hcf.
  set (q := batch / (nu + 1)) in *.
  set (r := Z.to_nat (batch mod (nu + 1))) in *.
  set (a := (Z.to_nat (nu + 1) - r)%nat) in *.
  set (gs := repeat q a ++ repeat (q + 1) r) in *.
  assert (Hmod : 0 <= batch mod (nu + 1) < nu + 1) by (apply Z.mod_pos_bound; lia).
  assert (Hdiv : batch = (nu + 1) * q + batch mod (nu + 1))
    by (apply Z.div_mod; lia).
  assert (Hq : 0 <= q) by (apply Z.div_pos; lia).
  assert (Hlen : length gs = (a + r)%nat)
    by (unfold gs; now rewrite length_app, !repeat_length).
  assert (Har : (a + r)%nat = S (Z.to_nat nu)) by (unfold a, r; lia).
  assert (Hsz : forall i, (i <= Z.to_nat nu)%nat ->
                  group_size (0 :: prefix_sums 0 gs) i = q \/
                  group_size (0 :: prefix_sums 0 gs) i = q + 1).
  { intros i Hi. rewrite prefix_sums_step by lia.
    apply nth_two_levels. lia. }
  exists (0 :: prefix_sums 0 gs). repeat split.
  - exact Hcf.
  - cbn [length]. rewrite prefix_sums_length, Hlen, Har. lia.
  - rewrite prefix_sums_last. unfold gs.
    rewrite sum_app, !sum_repeat. unfold a, r. nia.
  - intros i Hi. specialize (Hsz i Hi). unfold group_size in Hsz. lia.
  - intros i j Hi Hj.
    destruct (Hsz i Hi) as [-> | ->], (Hsz j Hj) as [-> | ->]; lia.
Qed.

Lemma interleave_offsets_partition_witness :
  0 <= 7 /\ 0 <= 2 /\
  exists offsets,
    interleave_offsets 7 2 = Ok offsets /\
    Z.of_nat (length offsets) = 2 + 2 /\
    nth 0 offsets 0 = 0 /\
    last offsets 0 = 7 /\
    (forall i, (i <= Z.to_nat 2)%nat -> nth i offsets 0 <= nth (S i) offsets 0) /\
    (forall i j, (i <= Z.to_nat 2)%nat -> (j <= Z.to_nat 2)%nat ->
                 Z.abs (group_size offsets i - group_size offsets j) <= 1).
Proof.
  split; [lia|]. split; [lia|].
  apply (interleave_offsets_partition 7 2); lia.
Defined.

End InterleaveOffsets.

(** ** Warmup schedule and loss composition *)

Section Warmup.

Local Open Scope Q_scope.

Lemma np_clip_bounds (a : Q) : 0 <= np_clip a 0 1 <= 1.
Proof.
  unfold np_clip. split.
  - apply Q.min_glb; [discriminate|]. apply Q.le_max_r.
  - apply Q.le_min_l.
Qed.

Lemma np_clip_monotone (a b : Q) : a <= b -> np_clip a 0 1 <= np_clip b 0 1.
Proof.
  intros Hab. unfold np_clip.
  apply Q.min_le_compat_l. apply Q.max_le_compat_r. exact Hab.
Qed.

Lemma np_clip_below (a : Q) : a <= 0 -> np_clip a 0 1 == 0.
Proof.
  intros Ha. unfold np_clip.
  rewrite (Q.max_r a 0) by exact Ha.
  apply Q.min_r. discriminate.
Qed.

Lemma np_clip_above (a : Q) : 1 <= a -> np_clip a 0 1 == 1.
Proof.
  intros Ha. unfold np_clip.
  rewrite (Q.max_l a 0) by (apply Qle_trans with 1; [discriminate | exact Ha]).
  apply Q.min_l. exact Ha.
Qed.

Lemma np_clip_matches_spec (a : Q) : np_clip a 0 1 == clip01_spec a.
Proof.
  unfold clip01_spec.
  destruct (Qlt_le_dec a 0) as [Hlt|Hge].
  - apply np_clip_below. apply Qlt_le_weak. exact Hlt.
  - destruct (Qlt_le_dec 1 a) as [Hgt|Hle].
    + apply np_clip_above. apply Qlt_le_weak. exact Hgt.
    + unfold np_clip. rewrite (Q.max_l a 0) by exact Hge.
      apply Q.min_r. exact Hle.
Qed.

Lemma py_div_defined (a b : Q) : ~ b == 0 -> py_div a b = Ok (a / b).
Proof.
  intros Hb. unfold py_div.
  destruct (Qeq_bool b 0) eqn:E; [|reflexivity].
  apply Qeq_bool_iff in E. contradiction.
Qed.

Lemma unsup_warmup_defined (it : Z) (pos : Q) (n : Z) :
  ~ pos * inject_Z n == 0 ->
  unsup_warmup it pos n = Ok (np_clip (inject_Z it / (pos * inject_Z n)) 0 1).
Proof. intros Hd. unfold unsup_warmup. now rewrite py_div_defined. Qed.

Lemma warmup_denominator_pos (pos : Q) (n : Z) :
  0 < pos -> (0 < n)%Z -> 0 < pos * inject_Z n.
Proof.
  intros Hp Hn. apply Qmult_lt_0_compat; [exact Hp|].
  change 0 with (inject_Z 0). rewrite <- Zlt_Qlt. exact Hn.
Qed.

(** C8: for positive [unsup_warmup_pos] and [num_train_iter] the warmup factor
    is defined at every iteration counter, is non-decreasing in [it], is [0]
    at [it = 0] and is [1] once [it >= unsup_warmup_pos * num_train_iter]. *)
Theorem warmup_monotone_saturating (pos : Q) (n : Z) :
  0 < pos -> (0 < n)%Z ->
  exists w : Z -> Q,
    (forall it, unsup_warmup it pos n = Ok (w it)) /\
    (forall it1 it2, (it1 <= it2)%Z -> w it1 <= w it2) /\
    w 0%Z == 0 /\
    (forall it, pos * inject_Z n <= inject_Z it -> w it == 1).
Proof.
  intros Hp Hn.
  pose proof (warmup_denominator_pos pos n Hp Hn) as Hd.
  assert (Hnz : ~ pos * inject_Z n == 0)
    by (intros E; rewrite E in Hd; discriminate).
  exists (fun it => np_clip (inject_Z it / (pos * inject_Z n)) 0 1).
  split; [|split; [|split]].
  - intros it. apply unsup_warmup_defined. exact Hnz.
  - intros it1 it2 Hle. apply np_clip_monotone.
    unfold Qdiv. apply Qmult_le_compat_r.
    + rewrite <- Zle_Qle. exact Hle.
    + apply Qlt_le_weak. apply Qinv_lt_0_compat. exact Hd.
  - apply np_clip_below. unfold Qdiv.
    change (inject_Z 0) with 0. rewrite Qmult_0_l. apply Qle_refl.
  - intros it Hge. apply np_clip_above.
    apply Qle_shift_div_l; [exact Hd|]. rewrite Qmult_1_l. exact Hge.
Qed.

Lemma warmup_monotone_saturating_witness :
  0 < 2 # 5 /\ (0 < 1000)%Z /\
  exists w : Z -> Q,
    (forall it, unsup_warmup it (2 # 5) 1000 = Ok (w it)) /\
    (forall it1 it2, (it1 <= it2)%Z -> w it1 <= w it2) /\
    w 0%Z == 0 /\
    (forall it, (2 # 5) * inject_Z 1000 <= inject_Z it -> w it == 1).
Proof.
  split; [reflexivity|]. split; [lia|].
  apply (warmup_monotone_saturating (2 # 5) 1000); [reflexivity | lia].
Defined.

Example unsup_warmup_halfway : unsup_warmup 200 (2 # 5) 1000 = Ok (np_clip (200 / ((2 # 5) * 1000)) 0 1).
Proof. reflexivity. Qed.

Example unsup_warmup_zero_budget : unsup_warmup 0 (2 # 5) 0 = Raise ZeroDivisionError.
Proof. reflexivity. Qed.

End Warmup.

(** ** Forward passes and the loss of one iteration *)

Section Losses.

Variable C : Collaborators.

Lemma forward_ok (p : pass) (x : tensor) (s : PiModel) (l : tensor) :
  net C (model s) x = Ok l ->
  forward C p x s = (Ok l, after_forward C x s, [EvForward p (bn_frozen s)]).
Proof.
  intros H. unfold forward, after_forward. run. rewrite H. cbn.
  destruct (training s && negb (bn_frozen s)); reflexivity.
Qed.

Lemma forward_raise (p : pass) (x : tensor) (s : PiModel) (e : exn) :
  net C (model s) x = Raise e ->
  forward C p x s = (Raise e, s, [EvForward p (bn_frozen s)]).
Proof. intros H. unfold forward. run. rewrite H. reflexivity. Qed.

Lemma after_forward_frozen (x : tensor) (s : PiModel) :
  bn_frozen s = true -> after_forward C x s = s.
Proof. intros H. unfold after_forward. rewrite H, andb_false_r. reflexivity. Qed.

Lemma after_forward_bn_frozen (x : tensor) (s : PiModel) :
  bn_frozen (after_forward C x s) = bn_frozen s.
Proof. unfold after_forward. destruct (training s && negb (bn_frozen s)); reflexivity. Qed.

Lemma after_forward_lambda_u (x : tensor) (s : PiModel) :
  lambda_u (after_forward C x s) = lambda_u s.
Proof. unfold after_forward. destruct (training s && negb (bn_frozen s)); reflexivity. Qed.

Lemma bind_ok {A B : Type} (m : M A) (k : A -> M B) (s s1 : PiModel) (a : A) (t1 : list event) :
  m s = (Ok a, s1, t1) ->
  bind m k s = (outcome (k a s1), after (k a s1), t1 ++ calls (k a s1)).
Proof.
  intros H. unfold bind, outcome, after, calls. rewrite H.
  destruct (k a s1) as [[r s2] t2]. reflexivity.
Qed.

Lemma bind_raise {A B : Type} (m : M A) (k : A -> M B) (s s1 : PiModel) (e : exn) (t1 : list event) :
  m s = (Raise e, s1, t1) ->
  bind m k s = (Raise e, s1, t1).
Proof. intros H. unfold bind. rewrite H. reflexivity. Qed.

(** [compute_losses] unfolded along the results of its collaborators. *)
Lemma compute_losses_run (lb : lb_batch) (ulb : ulb_batch) (warmup : Q) (s : PiModel) :
  compute_losses C lb ulb warmup s =
  match net C (model s) (fst lb) with
  | Raise e => (Raise e, s, passes_1 s)
  | Ok l =>
      let s1 := with_bn_frozen true (after_forward C (fst lb) s) in
      match net C (model s1) (fst ulb) with
      | Raise e => (Raise e, s1, passes_2 s)
      | Ok l1 =>
          match net C (model s1) (snd ulb) with
          | Raise e => (Raise e, s1, passes_3 s)
          | Ok l2 =>
              let s2 := with_bn_frozen false s1 in
              match ce_loss C l (snd lb) with
              | Raise e => (Raise e, s2, passes_4 s)
              | Ok sup_loss =>
                  let unsup_loss := consistency_loss (expq C) l1 l2 in
                  let total := compose_loss sup_loss (lambda_u s) unsup_loss warmup in
                  (Ok (sup_loss, unsup_loss, total), s2,
                   passes_4 s ++ [EvComposeLoss sup_loss unsup_loss total])
              end
          end
      end
  end.
Proof.
  destruct s as [m rep tr fr e em d o sc i n lam ld dk].
  unfold compute_losses, forward, freeze_bn, unfreeze_bn, after_forward,
    passes_4, passes_3, passes_2, passes_1.
  run.
  destruct (net C m (fst lb)) as [l|ex]; cbn; [|reflexivity].
  destruct tr, fr; cbn;
    repeat match goal with
      | |- context [net C ?p ?x] => destruct (net C p x); cbn; try reflexivity
      | |- context [ce_loss C ?p ?x] => destruct (ce_loss C p x); cbn; try reflexivity
      end.
Qed.

Lemma in_passes_4 (s : PiModel) (e : event) :
  In e (passes_4 s) ->
  e = EvForward Labeled (bn_frozen s) \/ e = EvFreezeBN \/
  e = EvForward UnlabeledW1 true \/ e = EvForward UnlabeledW2 true \/
  e = EvUnfreezeBN.
Proof.
  unfold passes_4, passes_3, passes_2, passes_1. cbn.
  intros H. repeat (destruct H as [H|H]; [subst; tauto|]). contradiction.
Qed.

Lemma passes_prefixes (s : PiModel) :
  passes_4 s = passes_1 s ++ [EvFreezeBN; EvForward UnlabeledW1 true;
                              EvForward UnlabeledW2 true; EvUnfreezeBN] /\
  passes_4 s = passes_2 s ++ [EvForward UnlabeledW2 true; EvUnfreezeBN] /\
  passes_4 s = passes_3 s ++ [EvUnfreezeBN].
Proof. repeat split. Qed.

(** Every run of [compute_losses] stops somewhere inside [passes_4], or goes
    through it and composes the loss. *)
Lemma compute_losses_calls (lb : lb_batch) (ulb : ulb_batch) (warmup : Q) (s : PiModel) :
  let r := compute_losses C lb ulb warmup s in
  (exists e rest, outcome r = Raise e /\ calls r ++ rest = passes_4 s) \/
  (exists sup_loss unsup_loss total,
     outcome r = Ok (sup_loss, unsup_loss, total) /\
     bn_frozen (after r) = false /\
     calls r = passes_4 s ++ [EvComposeLoss sup_loss unsup_loss total]).
Proof.
  cbv zeta. rewrite compute_losses_run.
  destruct (passes_prefixes s) as (P1 & P2 & P3).
  destruct (net C (model s) (fst lb)) as [l|e]; cbv zeta.
  2:{ left. exists e. eexists. split; [reflexivity|]. symmetry. exact P1. }
  destruct (net C _ (fst ulb)) as [l1|e].
  2:{ left. exists e. eexists. split; [reflexivity|]. symmetry. exact P2. }
  destruct (net C _ (snd ulb)) as [l2|e].
  2:{ left. exists e. eexists. split; [reflexivity|]. symmetry. exact P3. }
  destruct (ce_loss C l (snd lb)) as [sup|e].
  2:{ left. exists e, []. split; [reflexivity|]. apply app_nil_r. }
  right. eexists _, _, _. repeat split.
Qed.

(** C7: in an iteration that starts with the statistics unfrozen, the labeled
    batch is forwarded unfrozen, both unlabeled views are forwarded frozen,
    and an iteration that reaches the composition of the loss has made its
    calls in the order labeled pass, [freeze_bn], first view, second view,
    [unfreeze_bn], loss composition, leaving the statistics unfrozen.  A run
    cut short by an exception has made an initial part of these calls.  The
    calls are made: the labeled pass always; [freeze_bn] and the pass over the
    first view as soon as the labeled pass returns; the pass over the second
    view as soon as the first returns; [unfreeze_bn] as soon as the second
    returns; and the iteration returns its losses as soon as the supervised
    loss does. *)
Theorem bn_freeze_brackets_unlabeled_passes
    (lb : lb_batch) (ulb : ulb_batch) (warmup : Q) (s : PiModel) :
  bn_frozen s = false ->
  let r := compute_losses C lb ulb warmup s in
  (forall f, In (EvForward Labeled f) (calls r) -> f = false) /\
  (forall f, In (EvForward UnlabeledW1 f) (calls r) \/
             In (EvForward UnlabeledW2 f) (calls r) -> f = true) /\
  (exists sup_loss unsup_loss total rest,
     calls r ++ rest = forward_protocol sup_loss unsup_loss total) /\
  (forall v, outcome r = Ok v ->
     bn_frozen (after r) = false /\
     calls r = forward_protocol (fst (fst v)) (snd (fst v)) (snd v)) /\
  match net C (model s) (fst lb) with
  | Raise e => outcome r = Raise e /\ calls r = [EvForward Labeled false]
  | Ok logits_x_lb =>
      let live := model (after_forward C (fst lb) s) in
      match net C live (fst ulb) with
      | Raise e =>
          outcome r = Raise e /\
          calls r = [EvForward Labeled false; EvFreezeBN; EvForward UnlabeledW1 true]
      | Ok _ =>
          match net C live (snd ulb) with
          | Raise e =>
              outcome r = Raise e /\
              calls r = [EvForward Labeled false; EvFreezeBN;
                         EvForward UnlabeledW1 true; EvForward UnlabeledW2 true]
          | Ok _ =>
              match ce_loss C logits_x_lb (snd lb) with
              | Raise e =>
                  outcome r = Raise e /\
                  calls r = [EvForward Labeled false; EvFreezeBN;
                             EvForward UnlabeledW1 true; EvForward UnlabeledW2 true;
                             EvUnfreezeBN]
              | Ok _ => exists v, outcome r = Ok v
              end
          end
      end
  end.
Proof.
  intros Hs r.
  assert (Hin : forall e, In e (calls r) ->
            e = EvForward Labeled false \/ e = EvFreezeBN \/
            e = EvForward UnlabeledW1 true \/ e = EvForward UnlabeledW2 true \/
            e = EvUnfreezeBN \/ exists a b c, e = EvComposeLoss a b c).
  { intros e He.
    destruct (compute_losses_calls lb ulb warmup s)
      as [(ex & rest & _ & Hc) | (a & b & c & _ & _ & Hc)]; fold r in Hc.
    - assert (Hp : In e (passes_4 s)) by (rewrite <- Hc; apply in_or_app; now left).
      apply in_passes_4 in Hp. rewrite Hs in Hp. tauto.
    - rewrite Hc in He. apply in_app_or in He. destruct He as [Hp|[Hl|[]]].
      + apply in_passes_4 in Hp. rewrite Hs in Hp. tauto.
      + right; right; right; right; right. now exists a, b, c. }
  split; [|split; [|split; [|split]]].
  - intros f Hf. apply Hin in Hf.
    destruct Hf as [H|[H|[H|[H|[H|(a & b & c & H)]]]]]; congruence.
  - intros f [Hf|Hf]; apply Hin in Hf;
      destruct Hf as [H|[H|[H|[H|[H|(a & b & c & H)]]]]]; congruence.
  - destruct (compute_losses_calls lb ulb warmup s)
      as [(ex & rest & _ & Hc) | (a & b & c & _ & _ & Hc)]; fold r in Hc.
    + exists 0%Q, 0%Q, 0%Q, (rest ++ [EvComposeLoss 0 0 0]).
      rewrite app_assoc, Hc. unfold passes_4, passes_3, passes_2, passes_1.
      rewrite Hs. reflexivity.
    + exists a, b, c, []. rewrite app_nil_r, Hc.
      unfold passes_4, passes_3, passes_2, passes_1. rewrite Hs. reflexivity.
  - intros v Hv.
    destruct (compute_losses_calls lb ulb warmup s)
      as [(ex & rest & Ho & _) | (a & b & c & Ho & Hf & Hc)];
      fold r in Ho; [congruence|]. fold r in Hf, Hc.
    rewrite Ho in Hv. injection Hv as <-. split; [exact Hf|].
    rewrite Hc. unfold passes_4, passes_3, passes_2, passes_1.
    rewrite Hs. reflexivity.
  - subst r. rewrite compute_losses_run.
    unfold passes_4, passes_3, passes_2, passes_1. rewrite Hs.
    destruct (net C (model s) (fst lb)) as [l|ex]; [|split; reflexivity].
    cbv zeta.
    change (model (with_bn_frozen true (after_forward C (fst lb) s)))
      with (model (after_forward C (fst lb) s)).
    destruct (net C (model (after_forward C (fst lb) s)) (fst ulb)) as [l1|ex];
      [|split; reflexivity].
    destruct (net C (model (after_forward C (fst lb) s)) (snd ulb)) as [l2|ex];
      [|split; reflexivity].
    destruct (ce_loss C l (snd lb)) as [sup|ex]; [|split; reflexivity].
    eexists. reflexivity.
Qed.

(** [forward_and_losses] returns only if the warmup factor was defined, and
    then returns what [compute_losses] does with it. *)
Lemma forward_and_losses_inv (args : Args) (lb : lb_batch) (ulb : ulb_batch)
    (s : PiModel) (v : Q * Q * Q) :
  outcome (forward_and_losses C args lb ulb s) = Ok v ->
  exists warmup,
    unsup_warmup (it s) (unsup_warmup_pos args) (num_train_iter args) = Ok warmup /\
    outcome (compute_losses C lb ulb warmup s) = Ok v.
Proof.
  unfold forward_and_losses. run.
  destruct (unsup_warmup (it s) (unsup_warmup_pos args) (num_train_iter args))
    as [w|e]; cbn; [|discriminate].
  intros H. exists w. split; [reflexivity|].
  destruct (compute_losses C lb ulb w s) as [[r s2] t2]. exact H.
Qed.

Lemma compute_losses_inv (lb : lb_batch) (ulb : ulb_batch) (warmup : Q)
    (s : PiModel) (v : Q * Q * Q) :
  outcome (compute_losses C lb ulb warmup s) = Ok v ->
  exists l l1 l2 sup_loss,
    let frozen_model := model (after_forward C (fst lb) s) in
    net C (model s) (fst lb) = Ok l /\
    net C frozen_model (fst ulb) = Ok l1 /\
    net C frozen_model (snd ulb) = Ok l2 /\
    ce_loss C l (snd lb) = Ok sup_loss /\
    v = (sup_loss, consistency_loss (expq C) l1 l2,
         compose_loss sup_loss (lambda_u s) (consistency_loss (expq C) l1 l2) warmup).
Proof.
  rewrite compute_losses_run.
  destruct (net C (model s) (fst lb)) as [l|e]; cbv zeta; [|discriminate].
  change (model (with_bn_frozen true (after_forward C (fst lb) s)))
    with (model (after_forward C (fst lb) s)).
  destruct (net C _ (fst ulb)) as [l1|e] eqn:E1; [|discriminate].
  destruct (net C _ (snd ulb)) as [l2|e] eqn:E2; [|discriminate].
  destruct (ce_loss C l (snd lb)) as [sup|e] eqn:E3; [|discriminate].
  cbn. intros H. injection H as <-.
  exists l, l1, l2, sup. auto.
Qed.

(** The losses are composed whenever the warmup denominator is not zero and
    the network and the supervised loss return. *)
Lemma forward_and_losses_returns (args : Args) (lb : lb_batch) (ulb : ulb_batch)
    (s : PiModel) (l l1 l2 : tensor) (sup_loss : Q) :
  ~ (unsup_warmup_pos args * inject_Z (num_train_iter args) == 0)%Q ->
  net C (model s) (fst lb) = Ok l ->
  net C (model (after_forward C (fst lb) s)) (fst ulb) = Ok l1 ->
  net C (model (after_forward C (fst lb) s)) (snd ulb) = Ok l2 ->
  ce_loss C l (snd lb) = Ok sup_loss ->
  exists total,
    outcome (forward_and_losses C args lb ulb s)
    = Ok (sup_loss, consistency_loss (expq C) l1 l2, total).
Proof.
  intros Hd Hl H1 H2 Hs. unfold forward_and_losses. run.
  rewrite (unsup_warmup_defined _ _ _ Hd). cbn.
  rewrite compute_losses_run, Hl. cbv zeta.
  change (model (with_bn_frozen true (after_forward C (fst lb) s)))
    with (model (after_forward C (fst lb) s)).
  rewrite H1, H2, Hs. cbn. eexists. reflexivity.
Qed.

(** C4: whenever an iteration composes its loss, the total is
    [sup_loss + lambda_u * unsup_loss * warmup_factor] with
    [warmup_factor = clip(it / (unsup_warmup_pos * num_train_iter), 0, 1)],
    the counter and the weight being those of the object at that iteration. *)
Theorem total_loss_composition (args : Args) (lb : lb_batch) (ulb : ulb_batch)
    (s : PiModel) (sup_loss unsup_loss total : Q) :
  outcome (forward_and_losses C args lb ulb s) = Ok (sup_loss, unsup_loss, total) ->
  (total == sup_loss + lambda_u s * unsup_loss *
            warmup_factor_spec (it s) (unsup_warmup_pos args) (num_train_iter args))%Q.
Proof.
  intros H.
  apply forward_and_losses_inv in H. destruct H as (w & Hw & H).
  apply compute_losses_inv in H.
  destruct H as (l & l1 & l2 & sup & _ & _ & _ & _ & Hv).
  injection Hv as -> -> ->.
  unfold unsup_warmup, py_div in Hw.
  destruct (Qeq_bool _ 0); cbn in Hw; [discriminate|]. injection Hw as <-.
  unfold compose_loss, warmup_factor_spec.
  rewrite np_clip_matches_spec. reflexivity.
Qed.

(** C5: whenever an iteration composes its loss, the unsupervised term is the
    mean squared error between the softmax of the logits of the first view
    and the softmax of the logits of the second view, both computed by the
    same (frozen) model; no labels enter it. *)
Theorem unsup_loss_is_softmax_mse (args : Args) (lb : lb_batch) (ulb : ulb_batch)
    (s : PiModel) (sup_loss unsup_loss total : Q) :
  outcome (forward_and_losses C args lb ulb s) = Ok (sup_loss, unsup_loss, total) ->
  exists logits_w1 logits_w2,
    net C (model (after_forward C (fst lb) s)) (fst ulb) = Ok logits_w1 /\
    net C (model (after_forward C (fst lb) s)) (snd ulb) = Ok logits_w2 /\
    unsup_loss = mse_loss (softmax (expq C) logits_w1) (softmax (expq C) logits_w2).
Proof.
  intros H.
  apply forward_and_losses_inv in H. destruct H as (w & _ & H).
  apply compute_losses_inv in H.
  destruct H as (l & l1 & l2 & sup & _ & H1 & H2 & _ & Hv).
  injection Hv as -> -> ->.
  exists l1, l2. repeat split; assumption.
Qed.

End Losses.

(** The function of the same name in [remixmatch_utils.py] is another one:
    it softens its first operand only and compares it with the target as
    given. *)
Remark remixmatch_consistency_loss_keeps_target :
  (forall e logits_w y,
     Remixmatch.consistency_loss e logits_w y = mse_loss (softmax e logits_w) y) /\
  (Remixmatch.consistency_loss (expq Fixture.collaborators) [[0]] [[0]] == 1)%Q /\
  (consistency_loss (expq Fixture.collaborators) [[0]] [[0]] == 0)%Q.
Proof. repeat split. Qed.

Lemma total_loss_composition_witness :
  exists sup_loss unsup_loss total,
    outcome (forward_and_losses Fixture.collaborators Fixture.args
               Fixture.lb Fixture.ulb Fixture.object)
    = Ok (sup_loss, unsup_loss, total) /\
    (total == sup_loss + lambda_u Fixture.object * unsup_loss *
              warmup_factor_spec (it Fixture.object)
                (unsup_warmup_pos Fixture.args) (num_train_iter Fixture.args))%Q.
Proof.
  eexists _, _, _. split; [reflexivity|].
  apply (total_loss_composition Fixture.collaborators Fixture.args
           Fixture.lb Fixture.ulb Fixture.object).
  reflexivity.
Defined.

Lemma unsup_loss_is_softmax_mse_witness :
  exists sup_loss unsup_loss total,
    outcome (forward_and_losses Fixture.collaborators Fixture.args
               Fixture.lb Fixture.ulb Fixture.object)
    = Ok (sup_loss, unsup_loss, total) /\
    exists logits_w1 logits_w2,
      net Fixture.collaborators
        (model (after_forward Fixture.collaborators (fst Fixture.lb) Fixture.object))
        (fst Fixture.ulb) = Ok logits_w1 /\
      net Fixture.collaborators
        (model (after_forward Fixture.collaborators (fst Fixture.lb) Fixture.object))
        (snd Fixture.ulb) = Ok logits_w2 /\
      unsup_loss = mse_loss (softmax (expq Fixture.collaborators) logits_w1)
                            (softmax (expq Fixture.collaborators) logits_w2).
Proof.
  eexists _, _, _. split; [reflexivity|].
  eapply (unsup_loss_is_softmax_mse Fixture.collaborators Fixture.args
            Fixture.lb Fixture.ulb Fixture.object).
  reflexivity.
Defined.

Lemma bn_freeze_brackets_unlabeled_passes_witness :
  bn_frozen Fixture.object = false /\
  let r := compute_losses Fixture.collaborators Fixture.lb Fixture.ulb (1 # 2)
             Fixture.object in
  (forall f, In (EvForward Labeled f) (calls r) -> f = false) /\
  (forall f, In (EvForward UnlabeledW1 f) (calls r) \/
             In (EvForward UnlabeledW2 f) (calls r) -> f = true) /\
  (exists sup_loss unsup_loss total rest,
     calls r ++ rest = forward_protocol sup_loss unsup_loss total) /\
  (forall v, outcome r = Ok v ->
     bn_frozen (after r) = false /\
     calls r = forward_protocol (fst (fst v)) (snd (fst v)) (snd v)) /\
  exists v, outcome r = Ok v.
Proof.
  split; [reflexivity|].
  exact (bn_freeze_brackets_unlabeled_passes Fixture.collaborators
           Fixture.lb Fixture.ulb (1 # 2) Fixture.object eq_refl).
Defined.

(** A forward pass that fails at once: the labeled pass has been attempted,
    unfrozen, and nothing else has been called. *)
Example compute_losses_cut_short :
  let r := compute_losses Fixture.failing_forward Fixture.lb Fixture.ulb (1 # 2)
             Fixture.object in
  outcome r = Raise RuntimeError /\ calls r = [EvForward Labeled false].
Proof. cbv zeta. vm_compute. split; reflexivity. Qed.

(** ** Evaluation under the EMA shadow *)

Section Evaluate.

Variable C : Collaborators.

Lemma forward_eval_mode (p : pass) (x : tensor) (s : PiModel) :
  training s = false ->
  after (forward C p x s) = s /\ calls (forward C p x s) = [EvForward p (bn_frozen s)].
Proof.
  intros H. unfold forward. run.
  destruct (net C (model s) x); cbn; [|split; reflexivity].
  rewrite H. cbn. split; reflexivity.
Qed.

Lemma evaluate_batch_eval_mode (acc : eval_acc) (b : lb_batch) (s : PiModel) :
  training s = false ->
  after (evaluate_batch C acc b s) = s /\ only_forward (calls (evaluate_batch C acc b s)).
Proof.
  intros H. unfold evaluate_batch.
  destruct (forward_eval_mode HeldOut (fst b) s H) as [Ha Hc].
  destruct (forward C HeldOut (fst b) s) as [[r s1] t1] eqn:E.
  unfold after, calls in Ha, Hc. cbn in Ha, Hc. subst s1 t1.
  assert (Hof : only_forward [EvForward HeldOut (bn_frozen s)]).
  { intros ev [<-|[]]. now exists HeldOut, (bn_frozen s). }
  destruct r as [logits|e].
  - rewrite (bind_ok _ _ _ _ _ _ E). run.
    destruct (ce_loss C logits (snd b)); cbn; split; try reflexivity; exact Hof.
  - rewrite (bind_raise _ _ _ _ _ _ E). split; [reflexivity | exact Hof].
Qed.

Lemma evaluate_loop_eval_mode (batches : list lb_batch) :
  forall acc s,
    training s = false ->
    after (evaluate_loop C batches acc s) = s /\
    only_forward (calls (evaluate_loop C batches acc s)).
Proof.
  induction batches as [|b rest IH]; intros acc s H.
  - cbn. split; [reflexivity|]. intros ev [].
  - cbn [evaluate_loop]. unfold bind.
    destruct (evaluate_batch_eval_mode acc b s H) as [Ha Hc].
    destruct (evaluate_batch C acc b s) as [[r s1] t1].
    unfold after, calls in Ha, Hc. cbn in Ha, Hc. subst s1.
    destruct r as [acc'|e]; [|split; [reflexivity | exact Hc]].
    destruct (IH acc' s H) as [Ha' Hc'].
    destruct (evaluate_loop C rest acc' s) as [[r2 s2] t2].
    unfold after, calls in Ha', Hc' |- *. cbn in Ha', Hc' |- *.
    split; [exact Ha'|].
    intros ev Hin. apply in_app_or in Hin. destruct Hin; auto.
Qed.

(** The evaluation computation leaves the object as it found it and never
    calls [restore]. *)
Lemma eval_computation_eval_mode (batches : list lb_batch) (s : PiModel) :
  training s = false ->
  after (eval_computation C batches s) = s /\
  ~ In EvRestore (calls (eval_computation C batches s)).
Proof.
  intros H. unfold eval_computation, bind.
  destruct (evaluate_loop_eval_mode batches eval_acc0 s H) as [Ha Hc].
  destruct (evaluate_loop C batches eval_acc0 s) as [[r s1] t1].
  unfold after, calls in Ha, Hc |- *. cbn in Ha, Hc |- *. subst s1.
  assert (Hno : ~ In EvRestore t1).
  { intros Hin. destruct (Hc _ Hin) as (p & f & Hev). discriminate. }
  destruct r as [acc|e]; [|split; [reflexivity | exact Hno]].
  run. destruct (sk_metrics C (y_true acc) (y_pred acc) (y_logits acc)); cbn.
  - split; [reflexivity|]. intros Hin. apply in_app_or in Hin.
    destruct Hin as [Hin|[Hin|[]]]; [auto | discriminate].
  - split; [reflexivity|]. rewrite app_nil_r. exact Hno.
Qed.

(** [evaluate] unfolded along the outcome of the evaluation computation. *)
Lemma evaluate_run (eval_loader : option (list lb_batch)) (s : PiModel) (e : EMA) :
  ema s = Some e ->
  let batches := chosen_loader eval_loader s in
  let computed := eval_computation C batches (shadowed e s) in
  evaluate C eval_loader s =
  match outcome computed with
  | Raise ex =>
      (Raise ex, shadowed e s, [EvEvalMode; EvApplyShadow] ++ calls computed)
  | Ok v =>
      (eval_result batches (fst v) (fst (snd v)) (snd (snd v)),
       unshadowed e s,
       [EvEvalMode; EvApplyShadow] ++ calls computed ++ [EvRestore; EvTrainMode])
  end.
Proof.
  intros He. cbv zeta.
  assert (Hmode : training (shadowed e s) = false) by reflexivity.
  destruct (eval_computation_eval_mode (chosen_loader eval_loader s)
              (shadowed e s) Hmode) as [Ha _].
  unfold outcome, calls.
  destruct (eval_computation C (chosen_loader eval_loader s) (shadowed e s))
    as [[r s1] t1] eqn:E.
  unfold after in Ha. cbn in Ha. subst s1.
  unfold evaluate, model_eval, ema_apply_shadow, ema_restore, model_train, the_ema.
  destruct s as [m rep tr fr em emm d o sc i n lam ld dk].
  cbn in He. subst em.
  unfold shadowed, unshadowed, chosen_loader in *. cbn in E |- *.
  destruct eval_loader as [l|]; run; rewrite E; cbn;
    destruct r as [v|ex]; cbn; try reflexivity;
    destruct (eval_result _ _ _ _); reflexivity.
Qed.

(** C1, in the form the code satisfies: an execution of [evaluate] whose evaluation computation
    (forward passes, losses and metrics over the loader) completes calls
    [restore] after [apply_shadow] and hands back the live parameters it
    found; when that computation raises, the exception leaves [evaluate],
    [restore] is not called and the live parameters stay the shadow values. *)
Theorem evaluate_restores_unless_computation_raises
    (eval_loader : option (list lb_batch)) (s : PiModel) (e : EMA) :
  ema s = Some e ->
  let r := evaluate C eval_loader s in
  let computed := eval_computation C (chosen_loader eval_loader s) (shadowed e s) in
  match outcome computed with
  | Ok _ =>
      calls r = [EvEvalMode; EvApplyShadow] ++ calls computed ++ [EvRestore; EvTrainMode] /\
      ~ In EvRestore (calls computed) /\
      model (after r) = model s /\
      training (after r) = true
  | Raise ex =>
      outcome r = Raise ex /\
      In EvApplyShadow (calls r) /\
      ~ In EvRestore (calls r) /\
      model (after r) = shadow e
  end.
Proof.
  intros He r computed. subst r.
  rewrite (evaluate_run eval_loader s e He). cbv zeta. fold computed.
  assert (Hmode : training (shadowed e s) = false) by reflexivity.
  destruct (eval_computation_eval_mode (chosen_loader eval_loader s)
              (shadowed e s) Hmode) as [_ Hno].
  fold computed in Hno.
  destruct (outcome computed) as [v|ex].
  - repeat split. exact Hno.
  - repeat split.
    + cbn. auto.
    + cbn. intros [H|[H|H]]; [discriminate | discriminate | auto].
Qed.

End Evaluate.

Lemma evaluate_restores_unless_computation_raises_witness :
  ema Fixture.object = Some Fixture.tracker_ema /\
  let r := evaluate Fixture.collaborators None Fixture.object in
  let computed := eval_computation Fixture.collaborators
                    (chosen_loader None Fixture.object)
                    (shadowed Fixture.tracker_ema Fixture.object) in
  match outcome computed with
  | Ok _ =>
      calls r = [EvEvalMode; EvApplyShadow] ++ calls computed ++ [EvRestore; EvTrainMode] /\
      ~ In EvRestore (calls computed) /\
      model (after r) = model Fixture.object /\
      training (after r) = true
  | Raise ex =>
      outcome r = Raise ex /\
      In EvApplyShadow (calls r) /\
      ~ In EvRestore (calls r) /\
      model (after r) = shadow Fixture.tracker_ema
  end.
Proof.
  split; [reflexivity|].
  apply (evaluate_restores_unless_computation_raises Fixture.collaborators
           None Fixture.object Fixture.tracker_ema).
  reflexivity.
Defined.

(** Against C1 as the spec words it: when the forward pass of the evaluation raises,
    [evaluate] terminates after [apply_shadow] without calling [restore],
    and the live parameters are left at the shadow values. *)
Lemma evaluate_leaves_shadow_on_exception :
  let r := evaluate Fixture.failing_forward None Fixture.object in
  outcome r = Raise RuntimeError /\
  In EvApplyShadow (calls r) /\
  ~ In EvRestore (calls r) /\
  model (after r) = shadow Fixture.tracker_ema /\
  model (after r) <> model Fixture.object.
Proof.
  cbv zeta. vm_compute. repeat split.
  - auto.
  - intros [H|[H|[H|H]]]; try discriminate; exact H.
  - discriminate.
Qed.

(** ** Best-accuracy tracker and the "best" checkpoint *)

Section BestTracker.

Variable C : Collaborators.

Lemma Qgt_bool_iff (a b : Q) : Qgt_bool a b = true <-> (b < a)%Q.
Proof.
  unfold Qgt_bool. rewrite negb_true_iff. split.
  - intros H. apply Qnot_le_lt. intros Hle.
    apply Qle_bool_iff in Hle. congruence.
  - intros H. destruct (Qle_bool a b) eqn:E; [|reflexivity].
    apply Qle_bool_iff in E. exfalso. exact (Qlt_not_le _ _ H E).
Qed.

(** With a tracker in place [save_model] writes the file and returns. *)
Lemma save_model_run (name path : string) (s : PiModel) (e : EMA) :
  ema s = Some e ->
  exists s', save_model name path s
             = (Ok tt, s', save_calls (PyStr.path_join path name)) /\
             it s' = it s.
Proof.
  intros He. destruct s as [m rep tr fr em emm d o sc i n lam ld dk].
  cbn in He. subst em. eexists. split; [|shelve].
  unfold save_model, model_eval, ema_apply_shadow, ema_restore, model_train,
    the_ema, torch_save, save_calls.
  run. reflexivity.
  Unshelve. reflexivity.
Qed.

(** [record_evaluation] unfolded: the tracker it returns and the calls it
    makes, for a reported accuracy [top1] and a rank gate that evaluates to
    [w]. *)
Lemma record_evaluation_run (args : Args) (tb_dict eval_dict : list (string * Q))
    (tr : tracker) (s : PiModel) (e : EMA) (top1 : Q) (w : bool) :
  ema s = Some e ->
  PyDict.get "eval/top-1-acc" (PyDict.update tb_dict eval_dict) = Some top1 ->
  may_write C args = Ok w ->
  let tr' := if Qgt_bool top1 (best_eval_acc tr)
             then {| best_eval_acc := top1; best_it := it s |}
             else tr in
  exists s',
    record_evaluation C args tb_dict eval_dict tr s
    = (Ok tr', s',
       EvPrint "iteration, BEST_EVAL_ACC"
       :: (if w && (it s =? best_it tr') then save_calls (best_file args) else [])
       ++ (if w && has_tb_log C then [EvTbLog] else [])).
Proof.
  intros He Htop Hw tr'.
  destruct s as [m rep trn fr em emm d o sc i n lam ld dk].
  cbn in He. subst em.
  unfold record_evaluation, save_model, model_eval, ema_apply_shadow, ema_restore,
    model_train, the_ema, torch_save, save_calls, best_file.
  run. rewrite Htop, Hw. subst tr'. cbn.
  destruct (Qgt_bool top1 (best_eval_acc tr)); cbn;
    (destruct w; cbn; [|eexists; reflexivity]).
  - rewrite Z.eqb_refl. cbn. destruct (has_tb_log C); cbn; eexists; reflexivity.
  - destruct (i =? best_it tr); cbn; destruct (has_tb_log C); cbn;
      eexists; reflexivity.
Qed.

Lemma in_save_calls (file : string) : In (EvTorchSave file) (save_calls file).
Proof. unfold save_calls. cbn. auto 6. Qed.

(** C6, in the form the code satisfies: the tracker is replaced by
    (accuracy, current iteration) exactly when the reported top-1 accuracy is
    strictly greater than the previous best.  A process that fails the rank
    gate never writes [model_best].  A process that passes it writes
    [model_best] at every strict improvement, the first evaluation of a run
    included, and writes nothing at an evaluation without strict
    improvement, a tie included, whose counter is not the iteration already
    recorded as best. *)
Theorem best_checkpoint_iff_gated_improvement
    (args : Args) (tb_dict eval_dict : list (string * Q)) (tr : tracker)
    (s : PiModel) (e : EMA) (top1 : Q) (w : bool) :
  ema s = Some e ->
  PyDict.get "eval/top-1-acc" (PyDict.update tb_dict eval_dict) = Some top1 ->
  may_write C args = Ok w ->
  let r := record_evaluation C args tb_dict eval_dict tr s in
  exists tr',
    outcome r = Ok tr' /\
    ((best_eval_acc tr < top1)%Q ->
     tr' = {| best_eval_acc := top1; best_it := it s |}) /\
    (~ (best_eval_acc tr < top1)%Q -> tr' = tr) /\
    (w = false -> ~ In (EvTorchSave (best_file args)) (calls r)) /\
    (w = true -> (best_eval_acc tr < top1)%Q ->
     In (EvTorchSave (best_file args)) (calls r)) /\
    (best_it tr <> it s -> ~ (best_eval_acc tr < top1)%Q ->
     ~ In (EvTorchSave (best_file args)) (calls r)) /\
    (best_it tr <> it s ->
     (In (EvTorchSave (best_file args)) (calls r) <->
      w = true /\ (best_eval_acc tr < top1)%Q)).
Proof.
  intros He Htop Hw r. subst r.
  destruct (record_evaluation_run args tb_dict eval_dict tr s e top1 w He Htop Hw)
    as (s' & ->).
  unfold outcome, calls. cbn [fst snd].
  assert (Hgate : forall c : bool,
            In (EvTorchSave (best_file args))
              (EvPrint "iteration, BEST_EVAL_ACC"
               :: (if w && c then save_calls (best_file args) else [])
               ++ (if w && has_tb_log C then [EvTbLog] else []))
            <-> w = true /\ c = true).
  { intros c. split.
    - intros [H|H]; [discriminate|]. apply in_app_or in H.
      destruct H as [H|H].
      + destruct w, c; cbn in H; try contradiction. now split.
      + destruct (w && has_tb_log C); cbn in H; [destruct H as [H|[]]; discriminate|].
        contradiction.
    - intros [-> ->]. right. apply in_or_app. left. apply in_save_calls. }
  destruct (Qgt_bool top1 (best_eval_acc tr)) eqn:Hgt.
  - apply Qgt_bool_iff in Hgt.
    eexists. split; [reflexivity|]. split; [reflexivity|].
    split; [intros Hn; contradiction|].
    cbn [best_it]. rewrite Z.eqb_refl.
    split; [|split; [|split]].
    + intros -> H. apply Hgate in H. destruct H; discriminate.
    + intros -> _. apply Hgate. now split.
    + intros _ Hn. contradiction.
    + intros _. rewrite Hgate. tauto.
  - assert (Hn : ~ (best_eval_acc tr < top1)%Q).
    { intros H. apply Qgt_bool_iff in H. congruence. }
    eexists. split; [reflexivity|]. split; [intros H; contradiction|].
    split; [reflexivity|].
    split; [|split; [|split]].
    + intros -> H. apply Hgate in H. destruct H; discriminate.
    + intros _ H. contradiction.
    + intros Hit _ H. apply Hgate in H. destruct H as [_ H].
      apply Z.eqb_eq in H. congruence.
    + intros Hit. rewrite Hgate. split.
      * intros [_ H]. apply Z.eqb_eq in H. congruence.
      * intros [_ H]. contradiction.
Qed.

End BestTracker.

Lemma best_checkpoint_iff_gated_improvement_witness :
  let initial := {| best_eval_acc := 0%Q; best_it := 0 |} in
  ema Fixture.fresh_object = Some Fixture.tracker_ema /\
  PyDict.get "eval/top-1-acc"
    (PyDict.update [("train/total_loss"%string, 1%Q)]
       [("eval/top-1-acc"%string, (3 # 4)%Q)]) = Some (3 # 4)%Q /\
  may_write Fixture.collaborators Fixture.args = Ok true /\
  it Fixture.fresh_object = 0 /\
  let r := record_evaluation Fixture.collaborators Fixture.args
             [("train/total_loss"%string, 1%Q)]
             [("eval/top-1-acc"%string, (3 # 4)%Q)]
             initial Fixture.fresh_object in
  exists tr',
    outcome r = Ok tr' /\
    ((best_eval_acc initial < 3 # 4)%Q ->
     tr' = {| best_eval_acc := (3 # 4)%Q; best_it := it Fixture.fresh_object |}) /\
    (~ (best_eval_acc initial < 3 # 4)%Q -> tr' = initial) /\
    (true = false -> ~ In (EvTorchSave (best_file Fixture.args)) (calls r)) /\
    (true = true -> (best_eval_acc initial < 3 # 4)%Q ->
     In (EvTorchSave (best_file Fixture.args)) (calls r)) /\
    (best_it initial <> it Fixture.fresh_object -> ~ (best_eval_acc initial < 3 # 4)%Q ->
     ~ In (EvTorchSave (best_file Fixture.args)) (calls r)) /\
    (best_it initial <> it Fixture.fresh_object ->
     (In (EvTorchSave (best_file Fixture.args)) (calls r) <->
      true = true /\ (best_eval_acc initial < 3 # 4)%Q)).
Proof.
  cbv zeta.
  split; [reflexivity|]. split; [reflexivity|]. split; [reflexivity|].
  split; [reflexivity|].
  apply (best_checkpoint_iff_gated_improvement Fixture.collaborators Fixture.args
           [("train/total_loss"%string, 1%Q)]
           [("eval/top-1-acc"%string, (3 # 4)%Q)]
           {| best_eval_acc := 0%Q; best_it := 0 |}
           Fixture.fresh_object Fixture.tracker_ema (3 # 4)%Q true);
    reflexivity.
Defined.

(** A tie at an iteration that is not the recorded best one writes nothing. *)
Example tie_writes_no_best_checkpoint :
  let previous := {| best_eval_acc := (3 # 4)%Q; best_it := 100 |} in
  let r := record_evaluation Fixture.collaborators Fixture.args
             [] [("eval/top-1-acc"%string, (3 # 4)%Q)] previous Fixture.object in
  it Fixture.object = 200 /\
  outcome r = Ok previous /\
  ~ In (EvTorchSave (best_file Fixture.args)) (calls r).
Proof.
  cbv zeta. split; [reflexivity|]. split; [reflexivity|].
  vm_compute. intros [H|[]]. discriminate.
Qed.

(** Against C6 as the spec words it: on a replica that does not pass the rank gate a
    strict improvement updates the tracker and writes no checkpoint. *)
Lemma improvement_without_best_checkpoint :
  let previous := {| best_eval_acc := (1 # 2)%Q; best_it := 100 |} in
  let r := record_evaluation Fixture.collaborators Fixture.replica_args
             [] [("eval/top-1-acc"%string, (3 # 4)%Q)] previous Fixture.object in
  (best_eval_acc previous < 3 # 4)%Q /\
  outcome r = Ok {| best_eval_acc := (3 # 4)%Q; best_it := it Fixture.object |} /\
  ~ In (EvTorchSave (best_file Fixture.replica_args)) (calls r).
Proof.
  cbv zeta. split; [reflexivity|]. split; [reflexivity|].
  vm_compute. intros [H|[]]. discriminate.
Qed.

(** What the theorem leaves aside is an evaluation without strict
    improvement at the very iteration recorded as best.  At iteration 0 of a
    fresh run the recorded best iteration is already 0, and an accuracy of 0
    (a tie with the initial best) writes the checkpoint. *)
Remark tie_at_iteration_zero_writes_best :
  let initial := {| best_eval_acc := 0%Q; best_it := 0 |} in
  let r := record_evaluation Fixture.collaborators Fixture.args
             [] [("eval/top-1-acc"%string, 0%Q)] initial Fixture.fresh_object in
  outcome r = Ok initial /\
  In (EvTorchSave (best_file Fixture.args)) (calls r).
Proof.
  cbv zeta. split; [reflexivity|]. vm_compute. auto 10.
Qed.

(** ** Mixup *)

Import Remixmatch.

#[export] Instance BlendLaws_Q : BlendLaws Q.
Proof.
  constructor. intros a b _. cbn. ring.
Qed.

#[export] Instance BlendLaws_list (T : Type) {BT : Blend T} {LT : BlendLaws T}
  : BlendLaws (list T).
Proof.
  constructor. intros a b Hab. cbn in *.
  induction Hab as [|u v a b Huv Hab IH]; cbn; constructor.
  - apply keep_first. exact Huv.
  - exact IH.
Qed.

Section Mixup.

Lemma gather_defined {T : Type} (t : list T) (index : list nat) :
  Forall (fun i => (i < length t)%nat) index ->
  exists l, gather t index = Ok l /\ map Some l = map (nth_error t) index.
Proof.
  induction 1 as [|i index Hi _ IH]; cbn.
  - exists []. split; reflexivity.
  - destruct IH as (l & -> & Hl).
    destruct (nth_error t i) as [v|] eqn:E.
    + exists (v :: l). cbn. split; [reflexivity|]. now rewrite Hl.
    + apply nth_error_None in E. lia.
Qed.

Lemma nth_error_enumerates {T : Type} (t : list T) :
  forall pre, map (nth_error (pre ++ t)) (seq (length pre) (length t)) = map Some t.
Proof.
  induction t as [|v t IH]; intros pre; [reflexivity|].
  cbn [length seq map]. rewrite nth_error_middle. f_equal.
  specialize (IH (pre ++ [v])).
  rewrite <- app_assoc, length_app, Nat.add_1_r in IH. exact IH.
Qed.

Lemma map_Some_inj {T : Type} (l1 : list T) :
  forall l2, map Some l1 = map Some l2 -> l1 = l2.
Proof.
  induction l1 as [|a l1 IH]; intros [|b l2] H; try discriminate; [reflexivity|].
  cbn in H. injection H as -> H. f_equal. apply IH. exact H.
Qed.

(** Indexing a batch by a permutation of its positions never raises and
    yields a rearrangement of the batch. *)
Lemma gather_permutation {T : Type} (t : list T) (index : list nat) :
  Permutation index (seq 0 (length t)) ->
  exists l, gather t index = Ok l /\ Permutation l t.
Proof.
  intros Hp.
  assert (Hb : Forall (fun i => (i < length t)%nat) index).
  { apply (Permutation_Forall (Permutation_sym Hp)).
    apply Forall_forall. intros i Hi. apply in_seq in Hi. lia. }
  destruct (gather_defined t index Hb) as (l & Hg & Hl).
  exists l. split; [exact Hg|].
  assert (Hm : Permutation (map Some l) (map Some t)).
  { rewrite Hl, <- (nth_error_enumerates t []).
    apply Permutation_map. exact Hp. }
  apply Permutation_map_inv in Hm. destruct Hm as (l3 & E & Hperm).
  apply map_Some_inj in E. subst l3. apply Permutation_sym. exact Hperm.
Qed.

Lemma uniform_like {T : Type} `{Blend T} (a : list T) :
  forall b, length a = length b ->
    (forall u v, In u a -> In v b -> like u v) -> Forall2 like a b.
Proof.
  induction a as [|u a IH]; intros [|v b] Hlen Hall; try discriminate; constructor.
  - apply Hall; now left.
  - apply IH; [now injection Hlen|]. intros u' v' Hu Hv. apply Hall; now right.
Qed.

Lemma keep_first_batch {T : Type} `{BlendLaws T} (t t_perm : list T) :
  uniform t -> Permutation t_perm t ->
  same (plus (scale 1 t) (scale (1 - 1) t_perm)) t.
Proof.
  intros Hu Hp. apply (keep_first (T := list T)). cbn.
  apply uniform_like.
  - symmetry. apply Permutation_length. exact Hp.
  - intros u v Hin Hv. apply Hu; [exact Hin|].
    apply (Permutation_in v Hp). exact Hv.
Qed.

(** The mixing weight as the code computes it from the two flags and the
    Beta draw. *)
Lemma mixing_weight (alpha beta_draw : Q) (is_bias : bool) :
  (0 <= beta_draw <= 1)%Q ->
  let lam0 := if Qgt_bool alpha 0 then beta_draw else 1%Q in
  let lam := if is_bias then Qmax lam0 (1 - lam0)%Q else lam0 in
  (0 <= lam <= 1)%Q /\
  ((alpha <= 0)%Q -> lam = 1%Q) /\
  ((0 < alpha)%Q -> is_bias = true -> (1 # 2 <= lam)%Q).
Proof.
  intros Hb lam0 lam.
  assert (H0 : (0 <= lam0 <= 1)%Q).
  { unfold lam0. destruct (Qgt_bool alpha 0); [exact Hb|]. split; discriminate. }
  split; [|split].
  - unfold lam. destruct is_bias; [|exact H0]. split.
    + apply Qle_trans with lam0; [tauto | apply Q.le_max_l].
    + apply Q.max_lub; [tauto | lra].
  - intros Ha. unfold lam, lam0.
    replace (Qgt_bool alpha 0) with false.
    + destruct is_bias; reflexivity.
    + symmetry. destruct (Qgt_bool alpha 0) eqn:E; [|reflexivity].
      apply Qgt_bool_iff in E. lra.
  - intros Ha ->. unfold lam.
    destruct (Qlt_le_dec lam0 (1 # 2)) as [Hlt|Hge].
    + apply Qle_trans with (1 - lam0)%Q; [lra | apply Q.le_max_r].
    + apply Qle_trans with lam0; [exact Hge | apply Q.le_max_l].
Qed.


End Mixup.


Example mixup_biased_draw :
  mixup_one_target (X := Q) (Y := Q) [1%Q; 3%Q] [0%Q; 1%Q] 1 true (1 # 4) [1%nat; 0%nat]
  = Ok ([(3 # 4) * 1 + (1 - (3 # 4)) * 3; (3 # 4) * 3 + (1 - (3 # 4)) * 1]%Q,
        [(3 # 4) * 0 + (1 - (3 # 4)) * 1; (3 # 4) * 1 + (1 - (3 # 4)) * 0]%Q,
        (3 # 4)%Q).
Proof. reflexivity. Qed.

(** ** Checkpoints *)

Section Checkpoints.

(** [load_model] unfolded along the results of the strict loads. *)
Lemma load_model_run (load_path : string) (s : PiModel) (ck : checkpoint) :
  PyDict.get load_path (disk s) = Some ck ->
  load_model load_path s = load_model_cases ck s.
Proof.
  intros Hget. destruct s as [m rep trn fr em emm d o sc i n lam ld dk].
  cbn in Hget.
  unfold load_model, load_model_cases, fallback_run, load_renamed, restore_progress,
    torch_load, model_load_state_dict, ema_model_load_state_dict, load_state_dict,
    progress_restored, reconcile, print_loading, print_incompatible, print_reconciled.
  run. rewrite Hget. run.
  destruct (loadable m (ck_model ck)); cbn.
  - destruct (loadable m (ck_ema_model ck)); cbn; [reflexivity|].
    destruct rep; cbn;
      repeat match goal with
        | |- context [loadable ?a ?b] => destruct (loadable a b); cbn
        end; reflexivity.
  - destruct rep; cbn;
      repeat match goal with
        | |- context [loadable ?a ?b] => destruct (loadable a b); cbn
        end; reflexivity.
Qed.

Lemma substring_all (k : string) : substring 0 (String.length k) k = k.
Proof. induction k as [|c k IH]; cbn; [reflexivity | now rewrite IH]. Qed.

Lemma prefix_empty (k : string) : String.prefix "" k = true.
Proof. destruct k; reflexivity. Qed.

Lemma replace_from_absent (old new : string) (k : string) :
  PyStr.contains old k = false -> PyStr.replace_from old new 0 k = k.
Proof.
  induction k as [|c k IH]; intros H; [reflexivity|].
  cbn [PyStr.contains] in H. apply orb_false_iff in H. destruct H as [Hp Hc].
  cbn [PyStr.replace_from]. rewrite Hp, (IH Hc). reflexivity.
Qed.

Lemma contains_prefix (old k : string) :
  PyStr.contains old k = false -> String.prefix old k = false.
Proof.
  destruct k; cbn [PyStr.contains]; intros H; apply orb_false_iff in H; tauto.
Qed.

(** On a stored name in which ["module."] occurs at most as the leading
    prefix, the code's [replace] is the spec's prefix stripping. *)
Lemma strip_module_is_prefix_stripping (k : string) :
  PyStr.contains "module." k = false ->
  strip_module (String.append "module." k) = k /\
  strip_prefix_spec (String.append "module." k) = k /\
  strip_module k = k /\
  strip_prefix_spec k = k.
Proof.
  intros H. repeat split.
  - unfold strip_module, PyStr.replace. cbn. rewrite prefix_empty.
    apply replace_from_absent. exact H.
  - unfold strip_prefix_spec, PyStr.startswith. cbn. rewrite prefix_empty.
    rewrite Nat.sub_0_r. apply substring_all.
  - apply replace_from_absent. exact H.
  - unfold strip_prefix_spec, PyStr.startswith.
    rewrite (contains_prefix _ _ H). reflexivity.
Qed.

Lemma progress_restored_fields (ck : checkpoint) (s : PiModel) :
  optimizer (progress_restored ck s) = ck_optimizer ck /\
  scheduler (progress_restored ck s) = ck_scheduler ck /\
  it (progress_restored ck s) = ck_it ck /\
  model (progress_restored ck s) = model s.
Proof. repeat split. Qed.

(** What the [except] branch does, by the results of its two strict loads. *)
Lemma fallback_run_cases (ck : checkpoint) (s : PiModel) :
  let sd := rename_keys (reconcile s) (ck_model ck) in
  let sd_ema := rename_keys (reconcile s) (ck_ema_model ck) in
  let r := fallback_run ck s in
  In print_incompatible (calls r) /\
  (outcome r = Ok tt ->
     loadable (model s) sd = true /\ loadable (ema_model s) sd_ema = true /\
     after r = progress_restored ck
                 (with_ema_model (copy_matching (ema_model s) sd_ema)
                    (with_model (copy_matching (model s) sd) s))) /\
  (loadable (model s) sd = true -> loadable (ema_model s) sd_ema = true ->
     outcome r = Ok tt) /\
  (outcome r <> Ok tt ->
     outcome r = Raise RuntimeError /\
     optimizer (after r) = optimizer s /\
     scheduler (after r) = scheduler s /\
     it (after r) = it s).
Proof.
  cbv zeta. unfold fallback_run.
  destruct (loadable (model s) (rename_keys (reconcile s) (ck_model ck)));
    [destruct (loadable (ema_model s) (rename_keys (reconcile s) (ck_ema_model ck)))|];
    cbn; repeat split; auto; try discriminate; try congruence.
Qed.

Lemma copy_entry_name (sd : state_dict) (kv : string * vec) :
  fst (copy_entry sd kv) = fst kv.
Proof.
  unfold copy_entry. destruct (PyDict.get (fst kv) sd) as [v|]; [|reflexivity].
  destruct (same_shape (snd kv) v); reflexivity.
Qed.

Lemma copy_entry_shape (sd : state_dict) (kv : string * vec) :
  length (snd (copy_entry sd kv)) = length (snd kv).
Proof.
  unfold copy_entry. destruct (PyDict.get (fst kv) sd) as [v|]; [|reflexivity].
  destruct (same_shape (snd kv) v) eqn:E; [|reflexivity].
  cbn. symmetry. apply Nat.eqb_eq. exact E.
Qed.

Lemma mem_copy_matching (own sd : state_dict) (k : string) :
  PyDict.mem k (copy_matching own sd) = PyDict.mem k own.
Proof.
  unfold PyDict.mem, copy_matching.
  induction own as [|kv own IH]; [reflexivity|].
  cbn [map PyDict.get].
  pose proof (copy_entry_name sd kv) as Hn.
  destruct (copy_entry sd kv) as [k1 v1]. destruct kv as [k0 v0].
  cbn in Hn. subst k1. destruct (String.eqb k k0); [reflexivity | exact IH].
Qed.

Lemma forallb_pointwise {A : Type} (f g : A -> bool) (l : list A) :
  (forall a, f a = g a) -> forallb f l = forallb g l.
Proof.
  intros H. induction l as [|a l IH]; [reflexivity|].
  cbn. now rewrite H, IH.
Qed.

(** A strict load that raised has changed neither the names nor the shapes
    of the model, so it does not change what can be loaded next. *)
Lemma loadable_copy_matching (own sd other : state_dict) :
  loadable (copy_matching own sd) other = loadable own other.
Proof.
  unfold loadable. f_equal.
  - unfold copy_matching. induction own as [|kv own IH]; [reflexivity|].
    cbn [map forallb]. rewrite IH. f_equal.
    rewrite copy_entry_name. destruct (PyDict.get (fst kv) other) as [v|]; [|reflexivity].
    unfold same_shape. now rewrite copy_entry_shape.
  - apply forallb_pointwise. intros kv. apply mem_copy_matching.
Qed.

(** What [load_model] guarantees.  When a strict load of the stored live or
    EMA parameters into the current model raises, [load_model] enters the
    fallback, which renames the stored names (adding ["module."] on a
    replicated model; on a single-device model stripping it from every name
    in which ["module."] occurs only as the leading prefix and keeping names
    without it) and loads again.  Whenever [load_model] returns, on the
    direct or on the fallback path, optimizer state, scheduler state and
    iteration counter are the checkpoint's; when the renamed names still do
    not fit, the error leaves [load_model] and none of the three has been
    restored. *)
Theorem load_model_reconciles_and_restores
    (load_path : string) (s : PiModel) (ck : checkpoint) :
  PyDict.get load_path (disk s) = Some ck ->
  let r := load_model load_path s in
  let sd := rename_keys (reconcile s) (ck_model ck) in
  let sd_ema := rename_keys (reconcile s) (ck_ema_model ck) in
  (outcome r = Ok tt ->
     optimizer (after r) = ck_optimizer ck /\
     scheduler (after r) = ck_scheduler ck /\
     it (after r) = ck_it ck) /\
  (loadable (model s) (ck_model ck) = true ->
   loadable (model s) (ck_ema_model ck) = true ->
     outcome r = Ok tt /\
     calls r = [print_loading; EvPrint "model loaded"] /\
     model (after r) = copy_matching (model s) (ck_model ck)) /\
  (loadable (model s) (ck_model ck) = false ->
     In print_incompatible (calls r) /\
     (loadable (model s) sd = true -> loadable (model s) sd_ema = true ->
        outcome r = Ok tt /\
        model (after r) = copy_matching (copy_matching (model s) (ck_model ck)) sd) /\
     (loadable (model s) sd = false \/ loadable (model s) sd_ema = false ->
        outcome r = Raise RuntimeError /\
        optimizer (after r) = optimizer s /\
        scheduler (after r) = scheduler s /\
        it (after r) = it s)) /\
  (loadable (model s) (ck_model ck) = true ->
   loadable (model s) (ck_ema_model ck) = false ->
     In print_incompatible (calls r) /\
     (loadable (model s) sd = true -> loadable (model s) sd_ema = true ->
        outcome r = Ok tt) /\
     (loadable (model s) sd = false \/ loadable (model s) sd_ema = false ->
        outcome r = Raise RuntimeError /\
        optimizer (after r) = optimizer s /\
        scheduler (after r) = scheduler s /\
        it (after r) = it s)) /\
  (replicated s = true -> forall k, reconcile s k = String.append "module." k) /\
  (replicated s = false -> forall k,
     PyStr.contains "module." k = false ->
     reconcile s (String.append "module." k) = strip_prefix_spec (String.append "module." k) /\
     reconcile s (String.append "module." k) = k /\
     reconcile s k = k).
Proof.
  intros Hget r sd sd_ema. subst r.
  rewrite (load_model_run load_path s ck Hget).
  unfold load_model_cases.
  set (s1 := with_model (copy_matching (model s) (ck_model ck)) (with_ema_model (model s) s)).
  set (s2 := with_ema_model (copy_matching (model s) (ck_ema_model ck)) s1).
  pose proof (fallback_run_cases ck s1) as F1.
  pose proof (fallback_run_cases ck s2) as F2.
  cbv zeta in F1, F2.
  change (reconcile s1) with (reconcile s) in F1.
  change (reconcile s2) with (reconcile s) in F2.
  change (model s1) with (copy_matching (model s) (ck_model ck)) in F1.
  change (ema_model s1) with (model s) in F1.
  change (model s2) with (copy_matching (model s) (ck_model ck)) in F2.
  change (ema_model s2) with (copy_matching (model s) (ck_ema_model ck)) in F2.
  rewrite loadable_copy_matching in F1.
  rewrite !loadable_copy_matching in F2.
  fold sd sd_ema in F1, F2.
  destruct F1 as (F1in & F1ok & F1run & F1bad).
  destruct F2 as (F2in & F2ok & F2run & F2bad).
  split; [|split; [|split; [|split; [|split]]]].
  - destruct (loadable (model s) (ck_model ck));
      [destruct (loadable (model s) (ck_ema_model ck))|].
    + intros _. repeat split.
    + intros H. destruct (F2ok H) as (_ & _ & ->). repeat split.
    + intros H. destruct (F1ok H) as (_ & _ & ->). repeat split.
  - intros -> ->. repeat split.
  - intros ->. split; [exact F1in|]. split.
    + intros H1 H2. pose proof (F1run H1 H2) as Hok.
      split; [exact Hok|]. destruct (F1ok Hok) as (_ & _ & ->). reflexivity.
    + intros Hbad. apply F1bad. intros Hok.
      destruct (F1ok Hok) as (H1 & H2 & _). destruct Hbad; congruence.
  - intros -> ->. split; [exact F2in|]. split.
    + intros H1 H2. exact (F2run H1 H2).
    + intros Hbad. apply F2bad. intros Hok.
      destruct (F2ok Hok) as (H1 & H2 & _). destruct Hbad; congruence.
  - intros Hrep k. unfold reconcile. rewrite Hrep. reflexivity.
  - intros Hrep k Hk. unfold reconcile. rewrite Hrep.
    destruct (strip_module_is_prefix_stripping k Hk) as (E1 & E2 & E3 & _).
    rewrite E1, E2, E3. repeat split.
Qed.

(** *** Dictionaries whose names agree *)

Lemma get_set_same {V : Type} (k : string) (v : V) (d : list (string * V)) :
  PyDict.get k (PyDict.set k v d) = Some v.
Proof.
  induction d as [|[k' v'] d IH]; cbn.
  - now rewrite String.eqb_refl.
  - destruct (String.eqb k k') eqn:E; cbn; [now rewrite String.eqb_refl|].
    rewrite E. exact IH.
Qed.

Lemma get_absent {V : Type} (k : string) (d : list (string * V)) :
  ~ In k (map fst d) -> PyDict.get k d = None.
Proof.
  induction d as [|[k' v'] d IH]; cbn; [reflexivity|].
  intros H. destruct (String.eqb_spec k k') as [->|_]; [exfalso; auto|].
  apply IH. auto.
Qed.

Lemma get_present {V : Type} (k : string) (v : V) (d : list (string * V)) :
  NoDup (map fst d) -> In (k, v) d -> PyDict.get k d = Some v.
Proof.
  induction d as [|[k' v'] d IH]; cbn; [contradiction|].
  intros Hnd [H|H].
  - injection H as -> ->. now rewrite String.eqb_refl.
  - inversion Hnd as [|? ? Hnotin Hnd']; subst.
    destruct (String.eqb_spec k k') as [->|_].
    + exfalso. apply Hnotin. apply (in_map fst) in H. exact H.
    + apply IH; assumption.
Qed.

Lemma set_fresh {V : Type} (k : string) (v : V) (d : list (string * V)) :
  ~ In k (map fst d) -> PyDict.set k v d = d ++ [(k, v)].
Proof.
  induction d as [|[k' v'] d IH]; cbn; [reflexivity|].
  intros H. destruct (String.eqb_spec k k') as [->|_]; [exfalso; auto|].
  rewrite IH by auto. reflexivity.
Qed.

Lemma congruent_names (own sd : state_dict) :
  congruent own sd -> map fst own = map fst sd.
Proof.
  intros Hc. induction Hc as [|x y a b Hxy _ IH]; cbn; [reflexivity|].
  destruct Hxy as [Hk _]. f_equal; assumption.
Qed.

Lemma congruent_copy_matching (own sd other : state_dict) :
  congruent own other -> congruent (copy_matching own sd) other.
Proof.
  unfold copy_matching. intros Hc.
  induction Hc as [|x y a b Hxy _ IH]; cbn; constructor; [|exact IH].
  rewrite copy_entry_name, copy_entry_shape. exact Hxy.
Qed.

Lemma get_in_keys {V : Type} (k : string) (d : list (string * V)) :
  In k (map fst d) -> PyDict.mem k d = true.
Proof.
  unfold PyDict.mem. induction d as [|[k' v'] d IH]; cbn; [contradiction|].
  intros [->|H]; [now rewrite String.eqb_refl|].
  destruct (String.eqb k k'); [reflexivity | auto].
Qed.

Lemma copy_entry_hit (sd : state_dict) (x y : string * vec) :
  NoDup (map fst sd) -> In y sd ->
  fst x = fst y -> length (snd x) = length (snd y) ->
  copy_entry sd x = y /\
  exists v, PyDict.get (fst x) sd = Some v /\ same_shape (snd x) v = true.
Proof.
  intros Hnd Hin Hk Hl. destruct y as [ky vy]. cbn in Hk, Hl.
  assert (Hg : PyDict.get (fst x) sd = Some vy)
    by (rewrite Hk; now apply get_present).
  assert (Hs : same_shape (snd x) vy = true) by (now apply Nat.eqb_eq).
  split; [|now exists vy].
  unfold copy_entry. rewrite Hg, Hs, Hk. reflexivity.
Qed.

Lemma copy_matching_part (sd : state_dict) :
  NoDup (map fst sd) ->
  forall own' sd', congruent own' sd' -> incl sd' sd ->
    map (copy_entry sd) own' = sd' /\
    forallb (fun kv => match PyDict.get (fst kv) sd with
                       | Some v => same_shape (snd kv) v
                       | None => false
                       end) own' = true.
Proof.
  intros Hnd own' sd' Hc.
  induction Hc as [|x y a b Hxy _ IH]; intros Hincl; [split; reflexivity|].
  destruct Hxy as [Hk Hl].
  assert (Hy : In y sd) by (apply Hincl; now left).
  destruct (copy_entry_hit sd x y Hnd Hy Hk Hl) as (Hcopy & v & Hg & Hs).
  destruct IH as [IH1 IH2]; [intros z Hz; apply Hincl; now right|].
  cbn. rewrite Hcopy, IH1, Hg, Hs, IH2. split; reflexivity.
Qed.

(** A strict load between dictionaries with the same names and shapes
    succeeds and hands over every stored value. *)
Lemma load_congruent (own sd : state_dict) :
  NoDup (map fst sd) -> congruent own sd ->
  loadable own sd = true /\ copy_matching own sd = sd.
Proof.
  intros Hnd Hc.
  destruct (copy_matching_part sd Hnd own sd Hc (incl_refl sd)) as [Hcopy Hall].
  split; [|exact Hcopy].
  unfold loadable. rewrite Hall. cbn.
  apply forallb_forall. intros d Hd. apply get_in_keys.
  rewrite (congruent_names own sd Hc). apply in_map. exact Hd.
Qed.

(** The renaming loop, when the new names do not collide: every entry is
    renamed in place. *)
Lemma rename_keys_fresh (f : string -> string) (sd : state_dict) :
  forall acc,
    NoDup (map fst acc ++ map f (map fst sd)) ->
    fold_left (fun acc kv => PyDict.set (f (fst kv)) (snd kv) acc) sd acc
    = acc ++ map (rename_entry f) sd.
Proof.
  induction sd as [|[k v] sd IH]; intros acc Hnd; cbn.
  - now rewrite app_nil_r.
  - cbn in Hnd. rewrite set_fresh.
    + rewrite IH.
      * rewrite <- app_assoc. reflexivity.
      * rewrite map_app, <- app_assoc. exact Hnd.
    + apply NoDup_remove_2 in Hnd. intros Hin. apply Hnd.
      apply in_or_app. now left.
Qed.

Lemma rename_keys_injective (f : string -> string) (sd : state_dict) :
  NoDup (map f (map fst sd)) -> rename_keys f sd = map (rename_entry f) sd.
Proof. intros H. unfold rename_keys. now rewrite rename_keys_fresh. Qed.

(** *** Round trip for networks with clean parameter names *)

Lemma save_model_written (name path : string) (s : PiModel) (e : EMA) :
  ema s = Some e ->
  PyDict.get (PyStr.path_join path name) (disk (after (save_model name path s)))
  = Some (written s e).
Proof.
  intros He. destruct s as [m rep trn fr em emm d o sc i n lam ld dk].
  cbn in He. subst em.
  unfold save_model, model_eval, ema_apply_shadow, ema_restore, model_train,
    the_ema, torch_save, written, after.
  run. apply get_set_same.
Qed.

Lemma state_dict_of_names (ddp : bool) (network : state_dict) :
  map fst (state_dict_of ddp network) = map (wrapped ddp) (map fst network).
Proof. unfold state_dict_of. rewrite !map_map. reflexivity. Qed.

Lemma state_dict_of_congruent (ddp : bool) (a b : state_dict) :
  congruent a b -> congruent (state_dict_of ddp a) (state_dict_of ddp b).
Proof.
  intros Hc. unfold state_dict_of.
  induction Hc as [|x y a b Hxy _ IH]; cbn [map]; constructor; [|exact IH].
  destruct Hxy as [Hk Hl]. unfold rename_entry. cbn [fst snd].
  split; [f_equal; exact Hk | exact Hl].
Qed.

Lemma wrapped_injective (ddp : bool) (a b : string) :
  wrapped ddp a = wrapped ddp b -> a = b.
Proof.
  destruct ddp; cbn; [|auto]. intros H. now injection H.
Qed.

Lemma NoDup_map_injective {A B : Type} (f : A -> B) (l : list A) :
  (forall a b, f a = f b -> a = b) -> NoDup l -> NoDup (map f l).
Proof.
  intros Hf Hnd. induction Hnd as [|a l Hnotin _ IH]; cbn; constructor; [|exact IH].
  intros Hin. apply in_map_iff in Hin. destruct Hin as (b & Hb & Hin).
  apply Hf in Hb. subst b. contradiction.
Qed.

Lemma state_dict_of_NoDup (ddp : bool) (network : state_dict) :
  NoDup (map fst network) -> NoDup (map fst (state_dict_of ddp network)).
Proof.
  intros H. rewrite state_dict_of_names.
  apply NoDup_map_injective; [apply wrapped_injective | exact H].
Qed.

Lemma module_prefix_occurs (k : string) : PyStr.contains "module." (add_module k) = true.
Proof. cbn. now rewrite prefix_empty. Qed.

(** Across the two formats the renaming of the fallback turns the stored
    name of a clean parameter into the name the loading instance uses. *)
Lemma reconcile_wrapped (ddp_saver ddp_loader : bool) (name : string) :
  ddp_saver <> ddp_loader -> clean name ->
  (if ddp_loader then add_module else strip_module) (wrapped ddp_saver name)
  = wrapped ddp_loader name.
Proof.
  intros Hd Hc. destruct ddp_saver, ddp_loader; try congruence; cbn.
  - apply strip_module_is_prefix_stripping. exact Hc.
  - reflexivity.
Qed.

Lemma rename_state_dict_of (ddp_saver ddp_loader : bool) (network : state_dict) :
  ddp_saver <> ddp_loader ->
  NoDup (map fst network) -> Forall clean (map fst network) ->
  rename_keys (if ddp_loader then add_module else strip_module)
    (state_dict_of ddp_saver network)
  = state_dict_of ddp_loader network.
Proof.
  intros Hd Hnd Hc.
  assert (Hmap : map (rename_entry (if ddp_loader then add_module else strip_module))
                   (state_dict_of ddp_saver network)
                 = state_dict_of ddp_loader network).
  { unfold state_dict_of. rewrite map_map. clear Hnd.
    induction network as [|[k v] network IH]; [reflexivity|].
    cbn in Hc. inversion Hc as [|? ? Hk Hc']; subst.
    cbn [map]. rewrite (IH Hc'). f_equal.
    unfold rename_entry. cbn [fst snd]. f_equal.
    apply reconcile_wrapped; assumption. }
  rewrite rename_keys_injective; [exact Hmap|].
  replace (map (if ddp_loader then add_module else strip_module)
             (map fst (state_dict_of ddp_saver network)))
    with (map fst (map (rename_entry (if ddp_loader then add_module else strip_module))
                     (state_dict_of ddp_saver network)))
    by (rewrite !map_map; reflexivity).
  rewrite Hmap. apply state_dict_of_NoDup. exact Hnd.
Qed.

Lemma get_some_in_keys {V : Type} (k : string) (v : V) (d : list (string * V)) :
  PyDict.get k d = Some v -> In k (map fst d).
Proof.
  induction d as [|[k' v'] d IH]; cbn; [discriminate|].
  destruct (String.eqb_spec k k') as [->|_]; [now left | right; auto].
Qed.

(** Between the two formats the direct load of a non-empty network raises. *)
Lemma cross_format_not_loadable (ddp_saver ddp_loader : bool) (net_l net_s : state_dict) :
  ddp_saver <> ddp_loader ->
  Forall clean (map fst net_s) -> congruent net_l net_s ->
  loadable (state_dict_of ddp_loader net_l) (state_dict_of ddp_saver net_s) = true ->
  net_l = [].
Proof.
  intros Hd Hclean Hc Hload.
  destruct Hc as [|x y nl ns Hxy Hc]; [reflexivity|]. exfalso.
  destruct Hxy as [Hk _].
  unfold loadable in Hload. apply andb_true_iff in Hload. destruct Hload as [Hload _].
  cbn [state_dict_of map forallb] in Hload.
  apply andb_true_iff in Hload. destruct Hload as [Hhead _].
  unfold rename_entry at 1 in Hhead. cbn [fst snd] in Hhead.
  change (rename_entry (wrapped ddp_saver) y :: map (rename_entry (wrapped ddp_saver)) ns)
    with (state_dict_of ddp_saver (y :: ns)) in Hhead.
  match type of Hhead with
  | match ?g with _ => _ end = _ => destruct g as [v|] eqn:Hg; [|discriminate Hhead]
  end.
  apply get_some_in_keys in Hg.
  rewrite state_dict_of_names in Hg. apply in_map_iff in Hg.
  destruct Hg as (n & Hn & Hin).
  pose proof (proj1 (Forall_forall _ _) Hclean) as Hall.
  unfold vec in *.
  destruct ddp_saver, ddp_loader; try congruence; cbn [wrapped] in Hn.
  - assert (Hy : clean (fst y)) by (apply Hall; now left).
    pose proof (module_prefix_occurs n) as Hocc.
    unfold clean in Hy. congruence.
  - specialize (Hall n Hin). pose proof (module_prefix_occurs (fst x)) as Hocc.
    unfold clean in Hall. congruence.
Qed.

(** [load_model] on a checkpoint of the same network, whatever the naming
    of the saving instance, on a loading instance whose names carry the
    prefix exactly when it is replicated, or as the checkpoint's do. *)
Lemma load_model_cases_clean (l : PiModel) (ck : checkpoint) (ddp_saver prefixed : bool)
    (net_s net_e net_l : state_dict) :
  NoDup (map fst net_s) -> Forall clean (map fst net_s) ->
  congruent net_l net_s -> congruent net_l net_e ->
  ck_model ck = state_dict_of ddp_saver net_s ->
  ck_ema_model ck = state_dict_of ddp_saver net_e ->
  model l = state_dict_of prefixed net_l ->
  prefixed = replicated l \/ prefixed = ddp_saver ->
  let r := load_model_cases ck l in
  outcome r = Ok tt /\
  model (after r) = state_dict_of prefixed net_s /\
  ema_model (after r) = state_dict_of prefixed net_e /\
  optimizer (after r) = ck_optimizer ck /\
  scheduler (after r) = ck_scheduler ck /\
  it (after r) = ck_it ck.
Proof.
  intros Hnd Hclean Hcs Hce Hm He Hl Hp r. subst r.
  assert (Hnames : map fst net_e = map fst net_s).
  { rewrite <- (congruent_names _ _ Hce). apply congruent_names. exact Hcs. }
  assert (Hnd_e : NoDup (map fst net_e)) by (now rewrite Hnames).
  assert (Hclean_e : Forall clean (map fst net_e)) by (now rewrite Hnames).
  set (target_m := state_dict_of prefixed net_s).
  set (target_e := state_dict_of prefixed net_e).
  assert (Am : congruent (model l) target_m)
    by (rewrite Hl; apply state_dict_of_congruent; exact Hcs).
  assert (Ae : congruent (model l) target_e)
    by (rewrite Hl; apply state_dict_of_congruent; exact Hce).
  assert (Bm : NoDup (map fst target_m)) by (now apply state_dict_of_NoDup).
  assert (Be : NoDup (map fst target_e)) by (now apply state_dict_of_NoDup).
  destruct (load_congruent (model l) target_m Bm Am) as [Lm Cm].
  destruct (load_congruent (model l) target_e Be Ae) as [Le Ce].
  assert (Hdirect : ck_model ck = target_m -> ck_ema_model ck = target_e ->
            outcome (load_model_cases ck l) = Ok tt /\
            model (after (load_model_cases ck l)) = target_m /\
            ema_model (after (load_model_cases ck l)) = target_e /\
            optimizer (after (load_model_cases ck l)) = ck_optimizer ck /\
            scheduler (after (load_model_cases ck l)) = ck_scheduler ck /\
            it (after (load_model_cases ck l)) = ck_it ck).
  { intros Em Ee. unfold load_model_cases. rewrite Em, Ee, Lm, Le.
    cbn. rewrite Cm, Ce. repeat split. }
  destruct (bool_dec ddp_saver prefixed) as [E|N].
  { apply Hdirect; [rewrite Hm | rewrite He]; now rewrite E. }
  assert (Hrep : replicated l = prefixed) by (destruct Hp; congruence).
  destruct (loadable (model l) (ck_model ck)) eqn:Ld.
  { rewrite Hl, Hm in Ld.
    apply (cross_format_not_loadable _ _ _ _ N Hclean Hcs) in Ld. subst net_l.
    inversion Hcs; subst. inversion Hce; subst.
    apply Hdirect; [rewrite Hm | rewrite He]; reflexivity. }
  assert (Dm : rename_keys (reconcile l) (ck_model ck) = target_m).
  { rewrite Hm. unfold reconcile. rewrite Hrep. apply rename_state_dict_of; assumption. }
  assert (De : rename_keys (reconcile l) (ck_ema_model ck) = target_e).
  { rewrite He. unfold reconcile. rewrite Hrep. apply rename_state_dict_of; assumption. }
  unfold load_model_cases. rewrite Ld. unfold fallback_run.
  change (reconcile (with_model _ (with_ema_model (model l) l))) with (reconcile l).
  rewrite Dm, De.
  change (model (with_model (copy_matching (model l) (ck_model ck))
                   (with_ema_model (model l) l)))
    with (copy_matching (model l) (ck_model ck)).
  change (ema_model (with_model (copy_matching (model l) (ck_model ck))
                       (with_ema_model (model l) l)))
    with (model l).
  rewrite loadable_copy_matching, Lm, Le.
  destruct (load_congruent (copy_matching (model l) (ck_model ck)) target_m Bm
              (congruent_copy_matching _ _ _ Am)) as [_ Cm'].
  cbn. rewrite Cm', Ce. repeat split.
Qed.

Lemma state_dict_of_unwrapped (network : state_dict) :
  state_dict_of false network = network.
Proof.
  unfold state_dict_of. induction network as [|[k v] network IH]; [reflexivity|].
  cbn [map]. rewrite IH. reflexivity.
Qed.

Lemma rename_clean_unchanged (sd : state_dict) :
  NoDup (map fst sd) -> Forall clean (map fst sd) -> rename_keys strip_module sd = sd.
Proof.
  intros Hnd Hclean.
  assert (Hmap : map (rename_entry strip_module) sd = sd).
  { clear Hnd. induction sd as [|[k v] sd IH]; [reflexivity|].
    cbn in Hclean. inversion Hclean as [|? ? Hk Hc']; subst.
    cbn [map]. rewrite (IH Hc'). unfold rename_entry. cbn [fst snd].
    destruct (strip_module_is_prefix_stripping k Hk) as (_ & _ & -> & _). reflexivity. }
  rewrite rename_keys_injective; [exact Hmap|].
  replace (map strip_module (map fst sd)) with (map fst (map (rename_entry strip_module) sd))
    by (rewrite !map_map; reflexivity).
  now rewrite Hmap.
Qed.

(** The case the fallback does not reach: names with the prefix on a model
    that is not a [DistributedDataParallel], and a checkpoint without it. *)
Lemma load_model_cases_other_wrapper (l : PiModel) (ck : checkpoint)
    (net_s net_l : state_dict) :
  NoDup (map fst net_s) -> Forall clean (map fst net_s) ->
  congruent net_l net_s -> net_l <> [] ->
  ck_model ck = state_dict_of false net_s ->
  model l = state_dict_of true net_l ->
  replicated l = false ->
  let r := load_model_cases ck l in
  outcome r = Raise RuntimeError /\
  optimizer (after r) = optimizer l /\
  scheduler (after r) = scheduler l /\
  it (after r) = it l.
Proof.
  intros Hnd Hclean Hcs Hne Hm Hl Hrep r. subst r.
  assert (Hcross : loadable (model l) (state_dict_of false net_s) = false).
  { destruct (loadable (model l) (state_dict_of false net_s)) eqn:Ld; [|reflexivity].
    rewrite Hl in Ld.
    apply (cross_format_not_loadable false true) in Ld;
      [contradiction | discriminate | exact Hclean | exact Hcs]. }
  unfold load_model_cases. rewrite Hm, Hcross.
  set (s1 := with_model (copy_matching (model l) (state_dict_of false net_s))
               (with_ema_model (model l) l)).
  pose proof (fallback_run_cases ck s1) as F. cbv zeta in F.
  destruct F as (_ & Fok & _ & Fbad).
  apply Fbad. intros Hok. destruct (Fok Hok) as (Hload & _).
  unfold reconcile in Hload.
  change (replicated s1) with (replicated l) in Hload. rewrite Hrep in Hload.
  change (model s1) with (copy_matching (model l) (state_dict_of false net_s)) in Hload.
  rewrite loadable_copy_matching, Hm, state_dict_of_unwrapped in Hload.
  rewrite rename_clean_unchanged in Hload by assumption.
  rewrite state_dict_of_unwrapped in Hcross. congruence.
Qed.

(** Where the round trip of C2 does hold: for a network none of whose
    parameter names contains ["module."], saved by an instance of either
    naming.  Loading on an instance of the same network whose names carry the
    prefix exactly when it is a [DistributedDataParallel] (the test of the
    fallback), or as the saving instance's do, reproduces the counter, the
    optimizer and scheduler state, and every parameter value of the live and
    of the EMA model.  The case left is a loading instance that has the
    prefix without being a [DistributedDataParallel] (a [DataParallel]
    wrapper) and meets a checkpoint without the prefix: the fallback strips
    where it should add, and [load_model] raises with nothing restored. *)
Theorem checkpoint_roundtrip_clean_names
    (s l : PiModel) (e : EMA) (net_s net_e net_l : state_dict) (name path : string)
    (prefixed_s prefixed_l : bool) :
  ema s = Some e ->
  NoDup (map fst net_s) -> Forall clean (map fst net_s) ->
  congruent net_l net_s -> congruent net_l net_e ->
  model s = state_dict_of prefixed_s net_s ->
  shadow e = state_dict_of prefixed_s net_e ->
  model l = state_dict_of prefixed_l net_l ->
  let saved := after (save_model name path s) in
  let r := load_model (PyStr.path_join path name) (with_disk (disk saved) l) in
  (prefixed_l = replicated l \/ prefixed_l = prefixed_s ->
     outcome r = Ok tt /\
     model (after r) = state_dict_of prefixed_l net_s /\
     ema_model (after r) = state_dict_of prefixed_l net_e /\
     optimizer (after r) = optimizer s /\
     scheduler (after r) = scheduler s /\
     it (after r) = it s) /\
  (prefixed_l = true -> replicated l = false -> prefixed_s = false -> net_l <> [] ->
     outcome r = Raise RuntimeError /\
     optimizer (after r) = optimizer l /\
     scheduler (after r) = scheduler l /\
     it (after r) = it l).
Proof.
  intros He Hnd Hclean Hcs Hce Hs Hsh Hl saved r. subst r saved.
  rewrite (load_model_run _ _ (written s e))
    by (cbn [disk with_disk]; apply save_model_written; exact He).
  split.
  - intros Hp.
    apply (load_model_cases_clean
             (with_disk (disk (after (save_model name path s))) l)
             (written s e) prefixed_s prefixed_l net_s net_e net_l);
      assumption.
  - intros Hpl Hrep Hps Hne. subst prefixed_l prefixed_s.
    apply (load_model_cases_other_wrapper
             (with_disk (disk (after (save_model name path s))) l)
             (written s e) net_s net_l);
      assumption.
Qed.

End Checkpoints.

Lemma load_model_reconciles_and_restores_witness :
  let s := Fixture.resuming "module.fc.weight" "fc.weight" in
  let ck := Fixture.replicated_checkpoint "module.fc.weight" in
  let r := load_model "run/latest_model.pth" s in
  PyDict.get "run/latest_model.pth"%string (disk s) = Some ck /\
  loadable (model s) (ck_model ck) = false /\
  outcome r = Ok tt /\
  In print_incompatible (calls r) /\
  optimizer (after r) = ck_optimizer ck /\
  scheduler (after r) = ck_scheduler ck /\
  it (after r) = ck_it ck.
Proof.
  cbv zeta.
  pose proof (load_model_reconciles_and_restores "run/latest_model.pth"
                (Fixture.resuming "module.fc.weight" "fc.weight")
                (Fixture.replicated_checkpoint "module.fc.weight") eq_refl)
    as (Hrestored & _ & Hfallback & _).
  cbv zeta in Hrestored, Hfallback.
  destruct (Hfallback eq_refl) as (Hin & Hok & _).
  destruct (Hok eq_refl eq_refl) as (Hout & _).
  destruct (Hrestored Hout) as (Ho & Hs & Hi).
  repeat split; assumption.
Defined.

(** A checkpoint of another architecture makes the direct load raise, the
    fallback is entered and raises again, and [load_model] ends with the
    exception, without having restored optimizer, scheduler or counter. *)
Lemma load_model_propagates_foreign_checkpoint :
  let s := Fixture.resuming "module.backbone.weight" "fc.weight" in
  let ck := Fixture.replicated_checkpoint "module.backbone.weight" in
  let r := load_model "run/latest_model.pth" s in
  PyDict.get "run/latest_model.pth"%string (disk s) = Some ck /\
  loadable (model s) (ck_model ck) = false /\
  In print_incompatible (calls r) /\
  outcome r = Raise RuntimeError /\
  optimizer (after r) <> ck_optimizer ck /\
  scheduler (after r) <> ck_scheduler ck /\
  it (after r) <> ck_it ck.
Proof.
  cbv zeta. vm_compute. repeat split; try discriminate. auto.
Qed.

(** *** The renaming of the fallback on a name with an inner ["module."] *)

Lemma replace_from_no_longer (old : string) (k : string) :
  forall skip,
    (String.length (PyStr.replace_from old "" skip k) <= String.length k)%nat.
Proof.
  induction k as [|c k IH]; intros skip; [cbn; lia|].
  cbn [PyStr.replace_from String.length]. destruct skip as [|skip].
  - destruct (String.prefix old (String c k)).
    + cbn [String.append]. specialize (IH (String.length old - 1)%nat). lia.
    + cbn [String.length]. specialize (IH 0%nat). lia.
  - specialize (IH skip). lia.
Qed.

Lemma replace_from_shorter (old : string) (k : string) :
  old <> EmptyString -> PyStr.contains old k = true ->
  (String.length (PyStr.replace_from old "" 0 k) < String.length k)%nat.
Proof.
  intros Hold. induction k as [|c k IH]; intros H.
  - exfalso. destruct old; [congruence | discriminate H].
  - cbn [PyStr.contains] in H. cbn [PyStr.replace_from String.length].
    destruct (String.prefix old (String c k)) eqn:Hp.
    + cbn [String.append].
      pose proof (replace_from_no_longer old k (String.length old - 1)). lia.
    + cbn [orb] in H. cbn [String.length]. specialize (IH H). lia.
Qed.

(** Whatever follows the prefix, prefix stripping gives it back; [replace]
    does so only when ["module."] does not occur in it again. *)
Lemma strip_module_removes_inner (k : string) :
  PyStr.contains "module." k = true ->
  strip_prefix_spec (add_module k) = k /\ strip_module (add_module k) <> k.
Proof.
  intros H. split.
  - unfold strip_prefix_spec, add_module, PyStr.startswith. cbn. rewrite prefix_empty.
    rewrite Nat.sub_0_r. apply substring_all.
  - unfold strip_module, add_module, PyStr.replace. cbn. rewrite prefix_empty.
    intros E.
    pose proof (replace_from_shorter "module." k ltac:(discriminate) H) as Hlt.
    cbn [String.append] in E. rewrite E in Hlt. lia.
Qed.

(** C3 at its failing input: a single-device model whose network has a
    submodule named [attention_module] finds the checkpoint a replicated run
    of the same network wrote.  The direct load raises and the fallback is
    entered, but its renaming is [replace], which removes every ["module."]
    and not the leading prefix only: the stored name becomes
    ["attention_weight"], the strict load raises again, and [load_model]
    ends without having restored the counter, the scheduler or the
    optimizer.  Stripping the prefix, as the comment above the branch
    announces, would have loaded both dictionaries.  The renaming differs
    from prefix stripping on every name in which ["module."] occurs after
    the prefix. *)
Theorem load_model_fallback_removes_inner_module :
  let s := Fixture.resuming "module.attention_module.weight" "attention_module.weight" in
  let ck := Fixture.replicated_checkpoint "module.attention_module.weight" in
  let r := load_model "run/latest_model.pth" s in
  replicated s = false /\
  PyDict.get "run/latest_model.pth"%string (disk s) = Some ck /\
  loadable (model s) (ck_model ck) = false /\
  In print_incompatible (calls r) /\
  rename_keys (reconcile s) (ck_model ck)
  = [("attention_weight"%string, [(5 # 1)%Q; (6 # 1)%Q])] /\
  rename_keys strip_prefix_spec (ck_model ck)
  = [("attention_module.weight"%string, [(5 # 1)%Q; (6 # 1)%Q])] /\
  loadable (model s) (rename_keys strip_prefix_spec (ck_model ck)) = true /\
  loadable (model s) (rename_keys strip_prefix_spec (ck_ema_model ck)) = true /\
  outcome r = Raise RuntimeError /\
  ck_it ck = 5000 /\ it (after r) = 0 /\
  ck_scheduler ck = 5000 /\ scheduler (after r) = 0 /\
  ck_optimizer ck <> [] /\ optimizer (after r) = [] /\
  (forall k, PyStr.contains "module." k = true ->
     strip_prefix_spec (add_module k) = k /\ reconcile s (add_module k) <> k).
Proof.
  cbv zeta.
  repeat (split; [first [ solve [vm_compute; reflexivity]
                        | solve [vm_compute; auto 10]
                        | discriminate ]|]).
  intros k Hk. exact (strip_module_removes_inner k Hk).
Qed.

(** C2 at its failing input: a replicated run whose network has a submodule
    named [se_module] saves; a single-device instance of the same network
    loads.  [replace] also removes the inner ["module."], the renamed key
    fits no parameter, the strict load raises inside the fallback, and
    neither the counter nor the optimizer, scheduler or parameters are those
    that were saved. *)
Theorem checkpoint_roundtrip_breaks_on_inner_module :
  let saver := Fixture.replicated_object "module.se_module.weight" in
  let loader := Fixture.single_object "se_module.weight" in
  let r := Fixture.save_then_load saver loader in
  strip_module "module.se_module.weight" = "se_weight"%string /\
  strip_prefix_spec "module.se_module.weight" = "se_module.weight"%string /\
  outcome r = Raise RuntimeError /\
  it saver = 5000 /\ it (after r) = 0 /\
  scheduler saver = 5000 /\ scheduler (after r) = 0 /\
  optimizer (after r) = [] /\
  model (after r) = model loader.
Proof. cbv zeta. vm_compute. repeat split. Qed.

(** The same round trip succeeds, in both directions and within one format,
    when no parameter name contains ["module."] beyond the prefix. *)
Example checkpoint_roundtrip_replicated_to_single :
  let saver := Fixture.replicated_object "module.fc.weight" in
  let r := Fixture.save_then_load saver (Fixture.single_object "fc.weight") in
  outcome r = Ok tt /\
  it (after r) = it saver /\
  optimizer (after r) = optimizer saver /\
  scheduler (after r) = scheduler saver /\
  model (after r) = [("fc.weight"%string, [(5 # 1)%Q; (6 # 1)%Q])].
Proof. cbv zeta. vm_compute. repeat split. Qed.

Example checkpoint_roundtrip_single_to_replicated :
  let saver := Fixture.object in
  let r := Fixture.save_then_load saver (Fixture.replicated_object "module.fc.weight") in
  outcome r = Ok tt /\
  it (after r) = it saver /\
  optimizer (after r) = optimizer saver /\
  scheduler (after r) = scheduler saver /\
  model (after r) = [("module.fc.weight"%string, [(1 # 1)%Q; (2 # 1)%Q])].
Proof. cbv zeta. vm_compute. repeat split. Qed.

Example checkpoint_roundtrip_same_format :
  let saver := Fixture.object in
  let r := Fixture.save_then_load saver (Fixture.single_object "fc.weight") in
  outcome r = Ok tt /\
  calls r = [print_loading; EvPrint "model loaded"] /\
  it (after r) = it saver /\
  optimizer (after r) = optimizer saver /\
  scheduler (after r) = scheduler saver /\
  model (after r) = model saver.
Proof. cbv zeta. vm_compute. repeat split. Qed.

(** ** The freezing flag across a whole iteration *)

Section Iteration.

Variable C : Collaborators.

Lemma bind_inv {A B : Type} (m : M A) (k : A -> M B) (s : PiModel) (b : B) :
  outcome (bind m k s) = Ok b ->
  exists a, outcome (m s) = Ok a /\
            outcome (k a (after (m s))) = Ok b /\
            after (bind m k s) = after (k a (after (m s))).
Proof.
  unfold bind, outcome, after.
  destruct (m s) as [[[a|e] s1] t1]; cbn; [|discriminate].
  destruct (k a s1) as [[r s2] t2] eqn:E; cbn. intros ->.
  exists a. rewrite E. repeat split.
Qed.

Lemma keeps_bn_bind {A B : Type} (m : M A) (k : A -> M B) :
  keeps_bn m -> (forall a, keeps_bn (k a)) -> keeps_bn (bind m k).
Proof.
  intros Hm Hk s. specialize (Hm s). unfold bind, after in *.
  destruct (m s) as [[[a|e] s1] t1]; cbn in *; [|exact Hm].
  specialize (Hk a s1). unfold after in Hk.
  destruct (k a s1) as [[r s2] t2]; cbn in *. congruence.
Qed.

Lemma keeps_bn_ret {A : Type} (a : A) : keeps_bn (ret a).
Proof. intros s. reflexivity. Qed.

Lemma keeps_bn_get {A : Type} (f : PiModel -> A) : keeps_bn (get f).
Proof. intros s. reflexivity. Qed.

Lemma keeps_bn_emit (e : event) : keeps_bn (emit e).
Proof. intros s. reflexivity. Qed.

Lemma keeps_bn_lift {A : Type} (r : result A) : keeps_bn (lift r).
Proof. intros s. reflexivity. Qed.

Lemma keeps_bn_modify (f : PiModel -> PiModel) :
  (forall s, bn_frozen (f s) = bn_frozen s) -> keeps_bn (modify f).
Proof. intros H s. apply H. Qed.

Lemma keeps_bn_the_ema : keeps_bn the_ema.
Proof. intros s. unfold the_ema. destruct (ema s); reflexivity. Qed.

Lemma keeps_bn_state {A : Type} (m : PiModel -> M A) :
  (forall s0, keeps_bn (m s0)) -> keeps_bn (fun s => m s s).
Proof. intros H s. apply (H s). Qed.

(** Decomposes a method into its primitives. *)
Ltac keeps :=
  repeat first
    [ apply keeps_bn_ret | apply keeps_bn_get | apply keeps_bn_emit
    | apply keeps_bn_lift | apply keeps_bn_the_ema
    | apply keeps_bn_modify; intros ?; reflexivity
    | apply keeps_bn_bind; [|intros ?]
    | match goal with
      | |- keeps_bn (if ?b then _ else _) => destruct b
      | |- keeps_bn (match ?x with _ => _ end) => destruct x
      | |- keeps_bn (fun s => _) => apply keeps_bn_state; intros ?
      end ].

Lemma keeps_bn_forward (p : pass) (x : tensor) : keeps_bn (forward C p x).
Proof. unfold forward. keeps. Qed.

Lemma keeps_bn_evaluate_loop (batches : list lb_batch) :
  forall acc, keeps_bn (evaluate_loop C batches acc).
Proof.
  induction batches as [|b rest IH]; intros acc; cbn [evaluate_loop].
  - keeps.
  - apply keeps_bn_bind; [|exact IH].
    unfold evaluate_batch. apply keeps_bn_bind; [apply keeps_bn_forward|].
    intros logits. keeps.
Qed.

Lemma keeps_bn_evaluate (eval_loader : option (list lb_batch)) :
  keeps_bn (evaluate C eval_loader).
Proof.
  unfold evaluate, model_eval, ema_apply_shadow, ema_restore, model_train,
    eval_computation.
  keeps. apply keeps_bn_evaluate_loop.
Qed.

Lemma keeps_bn_save_model (name path : string) : keeps_bn (save_model name path).
Proof.
  unfold save_model, model_eval, ema_apply_shadow, ema_restore, model_train, torch_save.
  keeps.
Qed.

(** Everything an iteration does after composing its loss. *)
Lemma keeps_bn_after_losses (args : Args) (tr : tracker) (losses : Q * Q * Q) (cur : Z) :
  keeps_bn
    (parameter_updates C args (snd losses) ;;
     scheduler_step ;;
     ema_update ;;
     emit EvZeroGrad ;;
     save_latest C args ;;
     if match terminal_iter args with
        | Some t => cur >=? t
        | None => false
        end
     then ret (Break, tr)
     else
       tr' <- evaluate_and_record C args
                [("train/sup_loss"%string, fst (fst losses));
                 ("train/unsup_loss"%string, snd (fst losses));
                 ("train/total_loss"%string, snd losses)] tr ;;
       advance args ;;
       ret (Continue, tr')).
Proof.
  unfold parameter_updates, scheduler_step, ema_update, save_latest,
    evaluate_and_record, record_evaluation, advance.
  keeps. apply keeps_bn_evaluate_loop.
Qed.

(** An iteration that starts with the statistics unfrozen and returns leaves
    them unfrozen: every iteration of the loop starts as C7 assumes. *)
Lemma train_iteration_leaves_unfrozen (args : Args) (lb : lb_batch) (ulb : ulb_batch)
    (tr : tracker) (s : PiModel) (v : flow * tracker) :
  bn_frozen s = false ->
  outcome (train_iteration C args lb ulb tr s) = Ok v ->
  bn_frozen (after (train_iteration C args lb ulb tr s)) = false.
Proof.
  intros Hs Hv. unfold train_iteration in *.
  apply bind_inv in Hv. destruct Hv as (cur & _ & Hv & ->).
  change (after (get it s)) with s in *.
  destruct (cur >? num_train_iter args); [exact Hs|].
  apply bind_inv in Hv. destruct Hv as (losses & Hl & _ & ->).
  rewrite keeps_bn_after_losses.
  unfold forward_and_losses in *.
  apply bind_inv in Hl. destruct Hl as (cur' & _ & Hl & ->).
  change (after (get it s)) with s in *.
  apply bind_inv in Hl. destruct Hl as (w & _ & Hl & ->).
  change (after (lift (unsup_warmup cur' (unsup_warmup_pos args) (num_train_iter args)) s))
    with s in *.
  destruct (compute_losses_calls C lb ulb w s)
    as [(e & rest & Hr & _) | (a & b & c & _ & Hf & _)]; [congruence | exact Hf].
Qed.

End Iteration.

(* ================================================================== *)
(** * Further properties of the sources *)
(* ================================================================== *)

(** ** [interleave_offsets] on every pair of integers *)

Section InterleaveOffsetsEverywhere.

(** The closed form does not need a non-negative batch. *)
Lemma interleave_offsets_closed_form_any (batch nu : Z) :
  0 <= nu ->
  let q := batch / (nu + 1) in
  let r := Z.to_nat (batch mod (nu + 1)) in
  let a := (Z.to_nat (nu + 1) - r)%nat in
  interleave_offsets batch nu
  = Ok (0 :: prefix_sums 0 (repeat q a ++ repeat (q + 1) r)).
Proof.
  intros Hn q r a.
  assert (Hmod : 0 <= batch mod (nu + 1) < nu + 1) by (apply Z.mod_pos_bound; lia).
  assert (Hdiv : batch = (nu + 1) * q + batch mod (nu + 1))
    by (apply Z.div_mod; lia).
  unfold interleave_offsets.
  destruct (Z.eqb_spec (nu + 1) 0) as [E|_]; [lia|].
  fold q. unfold PyList.times at 1.
  rewrite sum_repeat, Z2Nat.id by lia.
  replace (batch - (nu + 1) * q) with (batch mod (nu + 1)) by lia.
  unfold PyList.range, PyList.times. fold r.
  replace (Z.to_nat (nu + 1)) with (a + r)%nat by (unfold a, r; lia).
  rewrite <- (app_nil_r (repeat q (a + r))).
  change (@nil Z) with (repeat (q + 1) 0).
  rewrite bump_groups_spec. cbn [rbind Nat.add].
  rewrite (append_offsets_spec _ [] 0). cbn [app].
  unfold PyList.last_elt. rewrite prefix_sums_last.
  rewrite sum_app, !sum_repeat.
  destruct (Z.eqb_spec (0 + (Z.of_nat a * q + Z.of_nat r * (q + 1))) batch) as [_|Hne];
    [reflexivity|].
  exfalso. apply Hne. unfold a, r. nia.
Qed.

Lemma nth_two_levels_exact (q : Z) (a r i : nat) :
  (i < a + r)%nat ->
  nth i (repeat q a ++ repeat (q + 1) r) 0 = q + (if (a <=? i)%nat then 1 else 0).
Proof.
  intros Hi. destruct (Nat.leb_spec a i) as [Hge|Hlt].
  - rewrite app_nth2 by (now rewrite repeat_length).
    rewrite repeat_length. apply nth_repeat_lt. lia.
  - rewrite app_nth1 by (now rewrite repeat_length).
    rewrite nth_repeat_lt by exact Hlt. lia.
Qed.

(** For [nu >= 0] and any integer [batch], negative ones included, the
    function returns, its last offset is [batch], and group [i] has size
    [batch // (nu + 1)], plus one exactly for the last [batch % (nu + 1)]
    groups: the larger groups come last. *)
Theorem interleave_offsets_group_sizes (batch nu : Z) :
  0 <= nu ->
  exists offsets,
    interleave_offsets batch nu = Ok offsets /\
    Z.of_nat (length offsets) = nu + 2 /\
    last offsets 0 = batch /\
    (forall i, 0 <= i <= nu ->
       group_size offsets (Z.to_nat i)
       = batch / (nu + 1) + (if nu + 1 - batch mod (nu + 1) <=? i then 1 else 0)) /\
    (forall i j, 0 <= i <= j -> j <= nu ->
       group_size offsets (Z.to_nat i) <= group_size offsets (Z.to_nat j)).
Proof.
  intros Hn.
  pose proof (interleave_offsets_closed_form_any batch nu Hn) as Hcf.
  cbv zeta in Hcf.
  set (q := batch / (nu + 1)) in *.
  set (r := Z.to_nat (batch mod (nu + 1))) in *.
  set (a := (Z.to_nat (nu + 1) - r)%nat) in *.
  set (gs := repeat q a ++ repeat (q + 1) r) in *.
  assert (Hmod : 0 <= batch mod (nu + 1) < nu + 1) by (apply Z.mod_pos_bound; lia).
  assert (Hdiv : batch = (nu + 1) * q + batch mod (nu + 1))
    by (apply Z.div_mod; lia).
  assert (Hlen : length gs = (a + r)%nat)
    by (unfold gs; now rewrite length_app, !repeat_length).
  assert (Har : (a + r)%nat = S (Z.to_nat nu)) by (unfold a, r; lia).
  assert (Hsz : forall i, 0 <= i <= nu ->
            group_size (0 :: prefix_sums 0 gs) (Z.to_nat i)
            = q + (if nu + 1 - batch mod (nu + 1) <=? i then 1 else 0)).
  { intros i Hi. rewrite prefix_sums_step by lia.
    unfold gs. rewrite nth_two_levels_exact by lia.
    f_equal. destruct (Nat.leb_spec a (Z.to_nat i)) as [H|H];
      destruct (Z.leb_spec (nu + 1 - batch mod (nu + 1)) i) as [H'|H'];
      try reflexivity; unfold a, r in H; lia. }
  exists (0 :: prefix_sums 0 gs). split; [exact Hcf|]. split; [|split; [|split]].
  - cbn [length]. rewrite prefix_sums_length, Hlen, Har. lia.
  - rewrite prefix_sums_last. unfold gs.
    rewrite sum_app, !sum_repeat. unfold a, r. nia.
  - exact Hsz.
  - intros i j Hij Hj. rewrite !Hsz by lia.
    destruct (Z.leb_spec (nu + 1 - batch mod (nu + 1)) i);
      destruct (Z.leb_spec (nu + 1 - batch mod (nu + 1)) j); lia.
Qed.

Lemma interleave_offsets_group_sizes_witness :
  0 <= 2 /\
  exists offsets,
    interleave_offsets (-7) 2 = Ok offsets /\
    Z.of_nat (length offsets) = 2 + 2 /\
    last offsets 0 = -7 /\
    (forall i, 0 <= i <= 2 ->
       group_size offsets (Z.to_nat i)
       = -7 / (2 + 1) + (if 2 + 1 - (-7) mod (2 + 1) <=? i then 1 else 0)) /\
    (forall i j, 0 <= i <= j -> j <= 2 ->
       group_size offsets (Z.to_nat i) <= group_size offsets (Z.to_nat j)).
Proof.
  split; [lia|]. apply (interleave_offsets_group_sizes (-7) 2). lia.
Defined.

(** With [nu < 0] the function fails in three different ways, and returns
    only for an empty batch: [nu = -1] divides by zero; for [nu < -1] the list
    of groups is empty, so a positive batch indexes it out of range, a
    negative batch trips the assertion, and a zero batch yields [[0]]. *)
Theorem interleave_offsets_negative_nu (batch nu : Z) :
  nu < 0 ->
  interleave_offsets batch nu =
  if nu =? -1 then Raise ZeroDivisionError
  else if 0 <? batch then Raise IndexError
  else if batch <? 0 then Raise AssertionError
  else Ok [0].
Proof.
  intros Hn. unfold interleave_offsets.
  destruct (Z.eqb_spec nu (-1)) as [->|Hne]; [reflexivity|].
  destruct (Z.eqb_spec (nu + 1) 0) as [E|_]; [lia|].
  unfold PyList.times.
  replace (Z.to_nat (nu + 1)) with 0%nat by lia. cbn [repeat].
  change (PyList.sum []) with 0. rewrite Z.sub_0_r.
  unfold PyList.range.
  destruct (Z.ltb_spec 0 batch) as [Hpos|Hle].
  - destruct (Z.to_nat batch) as [|k] eqn:Ek; [lia|]. reflexivity.
  - replace (Z.to_nat batch) with 0%nat by lia. cbn.
    destruct batch as [|b|b]; [reflexivity | lia | reflexivity].
Qed.

Lemma interleave_offsets_negative_nu_witness :
  -3 < 0 /\
  interleave_offsets 5 (-3) = Raise IndexError /\
  interleave_offsets (-5) (-3) = Raise AssertionError /\
  interleave_offsets 0 (-3) = Ok [0] /\
  interleave_offsets 5 (-1) = Raise ZeroDivisionError.
Proof.
  split; [lia|].
  rewrite (interleave_offsets_negative_nu 5 (-3)) by lia.
  rewrite (interleave_offsets_negative_nu (-5) (-3)) by lia.
  rewrite (interleave_offsets_negative_nu 0 (-3)) by lia.
  rewrite (interleave_offsets_negative_nu 5 (-1)) by lia.
  repeat split.
Defined.

End InterleaveOffsetsEverywhere.

(** ** The warmup factor outside the conditions of C8 *)

Section WarmupEverywhere.

Local Open Scope Q_scope.

(** The warmup factor is undefined exactly when
    [unsup_warmup_pos * num_train_iter] is zero, where the division raises
    [ZeroDivisionError]; whenever it is defined it lies in [[0, 1]], for a
    negative counter, position or budget as well. *)
Theorem unsup_warmup_domain (it : Z) (pos : Q) (n : Z) :
  (pos * inject_Z n == 0 -> unsup_warmup it pos n = Raise ZeroDivisionError) /\
  (~ pos * inject_Z n == 0 ->
     exists w, unsup_warmup it pos n = Ok w /\ 0 <= w <= 1).
Proof.
  split.
  - intros Hz. unfold unsup_warmup, py_div.
    apply Qeq_bool_iff in Hz. rewrite Hz. reflexivity.
  - intros Hnz. eexists. split; [apply unsup_warmup_defined; exact Hnz|].
    apply np_clip_bounds.
Qed.

(** On the ramp, that is for [0 <= it <= unsup_warmup_pos * num_train_iter],
    the factor is exactly the fraction [it / (unsup_warmup_pos *
    num_train_iter)]: the unsupervised weight grows linearly. *)
Theorem unsup_warmup_linear_ramp (it : Z) (pos : Q) (n : Z) :
  0 < pos -> (0 < n)%Z -> (0 <= it)%Z -> inject_Z it <= pos * inject_Z n ->
  exists w, unsup_warmup it pos n = Ok w /\ w == inject_Z it / (pos * inject_Z n).
Proof.
  intros Hp Hn Hit Hle.
  pose proof (warmup_denominator_pos pos n Hp Hn) as Hd.
  assert (Hnz : ~ pos * inject_Z n == 0)
    by (intros E; rewrite E in Hd; discriminate).
  eexists. split; [apply unsup_warmup_defined; exact Hnz|].
  rewrite np_clip_matches_spec. unfold clip01_spec.
  assert (H0 : 0 <= inject_Z it / (pos * inject_Z n)).
  { apply Qle_shift_div_l; [exact Hd|]. rewrite Qmult_0_l.
    change 0 with (inject_Z 0). rewrite <- Zle_Qle. exact Hit. }
  assert (H1 : inject_Z it / (pos * inject_Z n) <= 1).
  { apply Qle_shift_div_r; [exact Hd|]. rewrite Qmult_1_l. exact Hle. }
  destruct (Qlt_le_dec (inject_Z it / (pos * inject_Z n)) 0) as [Hlt|_].
  - exfalso. exact (Qlt_not_le _ _ Hlt H0).
  - destruct (Qlt_le_dec 1 (inject_Z it / (pos * inject_Z n))) as [Hgt|_].
    + exfalso. exact (Qlt_not_le _ _ Hgt H1).
    + reflexivity.
Qed.

Lemma unsup_warmup_linear_ramp_witness :
  0 < 2 # 5 /\ (0 < 1000)%Z /\ (0 <= 100)%Z /\
  inject_Z 100 <= (2 # 5) * inject_Z 1000 /\
  exists w, unsup_warmup 100 (2 # 5) 1000 = Ok w /\
            w == inject_Z 100 / ((2 # 5) * inject_Z 1000).
Proof.
  split; [reflexivity|]. split; [lia|]. split; [lia|]. split; [discriminate|].
  apply (unsup_warmup_linear_ramp 100 (2 # 5) 1000);
    [reflexivity | lia | lia | discriminate].
Defined.

(** A warmup position below zero keeps the factor at zero for every
    non-negative counter: the unsupervised term never enters the loss. *)
Theorem unsup_warmup_negative_position (it : Z) (pos : Q) (n : Z) :
  pos < 0 -> (0 < n)%Z -> (0 <= it)%Z ->
  exists w, unsup_warmup it pos n = Ok w /\ w == 0.
Proof.
  intros Hp Hn Hit.
  assert (Hd : pos * inject_Z n < 0).
  { setoid_replace 0 with (0 * inject_Z n) by ring.
    apply Qmult_lt_compat_r; [|exact Hp].
    change 0 with (inject_Z 0). rewrite <- Zlt_Qlt. exact Hn. }
  assert (Hnz : ~ pos * inject_Z n == 0)
    by (intros E; rewrite E in Hd; discriminate).
  eexists. split; [apply unsup_warmup_defined; exact Hnz|].
  apply np_clip_below.
  assert (Hi : 0 <= inject_Z it)
    by (change 0 with (inject_Z 0); rewrite <- Zle_Qle; exact Hit).
  assert (Hinv : / (pos * inject_Z n) < 0).
  { apply Qnot_le_lt. intros Hge.
    assert (Hone : (pos * inject_Z n) * / (pos * inject_Z n) == 1)
      by (apply Qmult_inv_r; exact Hnz).
    assert (Hle : (pos * inject_Z n) * / (pos * inject_Z n) <= 0).
    { setoid_replace 0 with (0 * / (pos * inject_Z n)) by ring.
      apply Qmult_le_compat_r; [apply Qlt_le_weak; exact Hd | exact Hge]. }
    rewrite Hone in Hle. apply Hle. reflexivity. }
  unfold Qdiv. setoid_replace 0 with (inject_Z it * 0) by ring.
  rewrite !(Qmult_comm (inject_Z it)).
  apply Qmult_le_compat_r; [apply Qlt_le_weak; exact Hinv | exact Hi].
Qed.

Lemma unsup_warmup_negative_position_witness :
  - (2 # 5) < 0 /\ (0 < 1000)%Z /\ (0 <= 700)%Z /\
  exists w, unsup_warmup 700 (- (2 # 5)) 1000 = Ok w /\ w == 0.
Proof.
  split; [reflexivity|]. split; [lia|]. split; [lia|].
  apply (unsup_warmup_negative_position 700 (- (2 # 5)) 1000);
    [reflexivity | lia | lia].
Defined.

End WarmupEverywhere.

(** ** What the methods leave untouched *)

Lemma keeps_bind {A B D : Type} (f : PiModel -> D) (m : M A) (k : A -> M B) :
  keeps f m -> (forall a, keeps f (k a)) -> keeps f (bind m k).
Proof.
  intros Hm Hk s. specialize (Hm s). unfold bind, after in *.
  destruct (m s) as [[[a|e] s1] t1]; cbn in *; [|exact Hm].
  specialize (Hk a s1). unfold after in Hk.
  destruct (k a s1) as [[r s2] t2]; cbn in *. congruence.
Qed.

Lemma keeps_ret {A D : Type} (f : PiModel -> D) (a : A) : keeps f (ret a).
Proof. intros s. reflexivity. Qed.

Lemma keeps_get {A D : Type} (f : PiModel -> D) (g : PiModel -> A) : keeps f (get g).
Proof. intros s. reflexivity. Qed.

Lemma keeps_emit {D : Type} (f : PiModel -> D) (e : event) : keeps f (emit e).
Proof. intros s. reflexivity. Qed.

Lemma keeps_lift {A D : Type} (f : PiModel -> D) (r : result A) : keeps f (lift r).
Proof. intros s. reflexivity. Qed.

Lemma keeps_modify {D : Type} (f : PiModel -> D) (g : PiModel -> PiModel) :
  (forall s, f (g s) = f s) -> keeps f (modify g).
Proof. intros H s. apply H. Qed.

Lemma keeps_the_ema {D : Type} (f : PiModel -> D) : keeps f the_ema.
Proof. intros s. unfold the_ema. destruct (ema s); reflexivity. Qed.

Lemma keeps_state {A D : Type} (f : PiModel -> D) (m : PiModel -> M A) :
  (forall s0, keeps f (m s0)) -> keeps f (fun s => m s s).
Proof. intros H s. apply (H s). Qed.

(** Decomposes a method into its primitives; what remains are the
    assignments that do change the observation, and the loops. *)
Ltac keeps_tac :=
  repeat first
    [ apply keeps_ret | apply keeps_get | apply keeps_emit
    | apply keeps_lift | apply keeps_the_ema
    | apply keeps_modify; intros ?; reflexivity
    | apply keeps_bind; [|intros ?]
    | match goal with
      | |- keeps _ (if ?b then _ else _) => destruct b
      | |- keeps _ (match ?x with _ => _ end) => destruct x
      | |- keeps _ (fun s => _) => apply keeps_state; intros ?
      end ].

Section Keeps.

Variable C : Collaborators.

Lemma keeps_evaluate_loop {D : Type} (f : PiModel -> D) (batches : list lb_batch) :
  (forall v s, f (with_model v s) = f s) ->
  forall acc, keeps f (evaluate_loop C batches acc).
Proof.
  intros Hf. induction batches as [|b rest IH]; intros acc; cbn [evaluate_loop].
  - apply keeps_ret.
  - apply keeps_bind; [|exact IH].
    unfold evaluate_batch, forward. keeps_tac.
    apply keeps_modify. intros s. apply Hf.
Qed.

(** [evaluate] never touches the counter, the optimizer or the scheduler,
    the evaluation interval, the freezing flag of the statistics or the
    checkpoint files, on any exit path. *)
Theorem evaluate_keeps_training_state (eval_loader : option (list lb_batch)) :
  keeps (fun s => (progress s, num_eval_iter s, bn_frozen s, disk s, ema_model s))
    (evaluate C eval_loader).
Proof.
  unfold evaluate, model_eval, ema_apply_shadow, ema_restore, model_train,
    eval_computation.
  keeps_tac. apply keeps_evaluate_loop. intros v s. reflexivity.
Qed.

(** [save_model] changes nothing but the checkpoint files (and the mode and
    the emptied backup of the tracker): counter, optimizer, scheduler,
    interval and freezing flag are as before on every exit path. *)
Lemma save_model_keeps_training_state (name path : string) :
  keeps (fun s => (progress s, num_eval_iter s, bn_frozen s, ema_model s))
    (save_model name path).
Proof.
  unfold save_model, model_eval, ema_apply_shadow, ema_restore, model_train, torch_save.
  keeps_tac.
Qed.

End Keeps.

(** ** The counter, the interval and the tracker across iterations *)

Section Counter.

Variable C : Collaborators.

Lemma bind_keeps_inv {A B D : Type} (f : PiModel -> D) (m : M A) (k : A -> M B)
    (s : PiModel) (b : B) :
  keeps f m ->
  outcome (bind m k s) = Ok b ->
  exists a s1, outcome (m s) = Ok a /\ s1 = after (m s) /\ f s1 = f s /\
               outcome (k a s1) = Ok b /\
               after (bind m k s) = after (k a s1).
Proof.
  intros Hm H. apply bind_inv in H. destruct H as (a & Ho & H & Ha).
  exists a, (after (m s)). repeat split; try assumption. apply Hm.
Qed.

Lemma keeps_cadence_forward_and_losses (args : Args) (lb : lb_batch) (ulb : ulb_batch) :
  keeps cadence (forward_and_losses C args lb ulb).
Proof.
  unfold forward_and_losses, compute_losses, forward, freeze_bn, unfreeze_bn.
  keeps_tac.
Qed.

Lemma keeps_cadence_save_latest (args : Args) : keeps cadence (save_latest C args).
Proof.
  unfold save_latest, save_model, model_eval, ema_apply_shadow, ema_restore,
    model_train, torch_save.
  keeps_tac.
Qed.

Lemma keeps_cadence_evaluate (eval_loader : option (list lb_batch)) :
  keeps cadence (evaluate C eval_loader).
Proof.
  unfold evaluate, model_eval, ema_apply_shadow, ema_restore, model_train,
    eval_computation.
  keeps_tac. apply keeps_evaluate_loop. intros v s. reflexivity.
Qed.

Lemma keeps_cadence_record_evaluation (args : Args) (tb_dict eval_dict : list (string * Q))
    (tr : tracker) :
  keeps cadence (record_evaluation C args tb_dict eval_dict tr).
Proof.
  unfold record_evaluation, save_model, model_eval, ema_apply_shadow, ema_restore,
    model_train, torch_save.
  keeps_tac.
Qed.

Lemma keeps_cadence_evaluate_and_record (args : Args) (tb_dict : list (string * Q))
    (tr : tracker) :
  keeps cadence (evaluate_and_record C args tb_dict tr).
Proof.
  unfold evaluate_and_record.
  apply keeps_bind; [apply keeps_get|]. intros cur.
  apply keeps_bind; [apply keeps_get|]. intros every.
  apply keeps_bind; [apply keeps_lift|]. intros r.
  destruct (r =? 0); [|apply keeps_ret].
  apply keeps_bind; [apply keeps_cadence_evaluate|]. intros d.
  apply keeps_cadence_record_evaluation.
Qed.

(** What [record_evaluation] can return. *)
Lemma record_evaluation_inv (args : Args) (tb_dict eval_dict : list (string * Q))
    (tr tr' : tracker) (s : PiModel) :
  outcome (record_evaluation C args tb_dict eval_dict tr s) = Ok tr' ->
  tracker_advanced (it s) tr tr'.
Proof.
  unfold record_evaluation. intros H.
  apply bind_inv in H. destruct H as (top1 & _ & H & _).
  change (after (lift _ s)) with s in H.
  apply bind_inv in H. destruct H as (cur & Hcur & H & _).
  change (after (get it s)) with s in H.
  cbn in Hcur. injection Hcur as <-.
  apply bind_inv in H. destruct H as (u & _ & H & _).
  apply bind_inv in H. destruct H as (w & _ & H & _).
  apply bind_inv in H. destruct H as (u' & _ & H & _).
  cbn in H. injection H as <-.
  unfold tracker_advanced.
  destruct (Qgt_bool top1 (best_eval_acc tr)) eqn:E; [|now left].
  right. apply Qgt_bool_iff in E. split; [reflexivity | exact E].
Qed.

Lemma evaluate_and_record_inv (args : Args) (tb_dict : list (string * Q))
    (tr tr' : tracker) (s : PiModel) :
  outcome (evaluate_and_record C args tb_dict tr s) = Ok tr' ->
  tracker_advanced (it s) tr tr'.
Proof.
  unfold evaluate_and_record. intros H.
  apply bind_inv in H. destruct H as (cur & _ & H & _).
  change (after (get it s)) with s in H.
  apply bind_inv in H. destruct H as (every & _ & H & _).
  change (after (get num_eval_iter s)) with s in H.
  apply bind_inv in H. destruct H as (r & _ & H & _).
  change (after (lift _ s)) with s in H.
  destruct (r =? 0).
  - apply (bind_keeps_inv cadence) in H; [|apply keeps_cadence_evaluate].
    destruct H as (d & s1 & _ & _ & Hk & H & _).
    apply record_evaluation_inv in H.
    unfold cadence in Hk. injection Hk as Hit _. rewrite Hit in H. exact H.
  - cbn in H. injection H as <-. now left.
Qed.

Lemma advance_cadence (args : Args) (s : PiModel) :
  outcome (advance args s) = Ok tt /\
  it (after (advance args s)) = it s + 1 /\
  (num_eval_iter (after (advance args s)) = num_eval_iter s \/
   num_eval_iter (after (advance args s)) = 1000).
Proof.
  unfold advance. run.
  destruct (Qgt_bool _ _); cbn; repeat split; auto.
Qed.

End Counter.

Section IterationCounter.

Variable C : Collaborators.

(** Once the counter exceeds the budget an iteration does nothing at all:
    it breaks out of the loop with the tracker it was given, makes no call
    and leaves the object as it is. *)
Theorem train_iteration_beyond_budget (args : Args) (lb : lb_batch) (ulb : ulb_batch)
    (tr : tracker) (s : PiModel) :
  num_train_iter args < it s ->
  train_iteration C args lb ulb tr s = (Ok (Break, tr), s, []).
Proof.
  intros H. unfold train_iteration. run.
  replace (it s >? num_train_iter args) with true
    by (symmetry; apply Z.gtb_lt; exact H).
  reflexivity.
Qed.

(** A budget or warmup position of zero makes the first iteration within the
    budget raise [ZeroDivisionError] before any forward pass, with the object
    untouched. *)
Theorem train_iteration_zero_denominator (args : Args) (lb : lb_batch) (ulb : ulb_batch)
    (tr : tracker) (s : PiModel) :
  it s <= num_train_iter args ->
  (unsup_warmup_pos args * inject_Z (num_train_iter args) == 0)%Q ->
  train_iteration C args lb ulb tr s = (Raise ZeroDivisionError, s, []).
Proof.
  intros Hit Hz. unfold train_iteration, forward_and_losses. run.
  replace (it s >? num_train_iter args) with false
    by (symmetry; rewrite Z.gtb_ltb; apply Z.ltb_ge; exact Hit).
  run. unfold unsup_warmup, py_div.
  apply Qeq_bool_iff in Hz. rewrite Hz. reflexivity.
Qed.

(** What an iteration that returns has done to the counter, the interval
    and the tracker. *)
Lemma train_iteration_inv (args : Args) (lb : lb_batch) (ulb : ulb_batch)
    (tr tr' : tracker) (s : PiModel) (fl : flow) :
  outcome (train_iteration C args lb ulb tr s) = Ok (fl, tr') ->
  let s' := after (train_iteration C args lb ulb tr s) in
  match fl with
  | Break =>
      it s' = it s /\ num_eval_iter s' = num_eval_iter s /\ tr' = tr /\
      (num_train_iter args < it s \/ terminal_reached args (it s) = true)
  | Continue =>
      it s <= num_train_iter args /\ terminal_reached args (it s) = false /\
      it s' = it s + 1 /\
      (num_eval_iter s' = num_eval_iter s \/ num_eval_iter s' = 1000) /\
      tracker_advanced (it s) tr tr'
  end.
Proof.
  intros H s'. subst s'. unfold train_iteration in *.
  apply bind_inv in H. destruct H as (cur & Hcur & H & ->).
  change (after (get it s)) with s in *.
  cbn in Hcur. injection Hcur as <-.
  destruct (Z.gtb_spec (it s) (num_train_iter args)) as [Hgt|Hle].
  { cbn in H. injection H as <- <-. cbn. repeat split. left. lia. }
  apply (bind_keeps_inv cadence) in H; [|apply keeps_cadence_forward_and_losses].
  destruct H as (losses & s1 & _ & _ & K1 & H & ->).
  apply (bind_keeps_inv cadence) in H;
    [|unfold parameter_updates; keeps_tac].
  destruct H as (u2 & s2 & _ & _ & K2 & H & ->).
  apply (bind_keeps_inv cadence) in H; [|unfold scheduler_step; keeps_tac].
  destruct H as (u3 & s3 & _ & _ & K3 & H & ->).
  apply (bind_keeps_inv cadence) in H; [|unfold ema_update; keeps_tac].
  destruct H as (u4 & s4 & _ & _ & K4 & H & ->).
  apply (bind_keeps_inv cadence) in H; [|apply keeps_emit].
  destruct H as (u5 & s5 & _ & _ & K5 & H & ->).
  apply (bind_keeps_inv cadence) in H; [|apply keeps_cadence_save_latest].
  destruct H as (u6 & s6 & _ & _ & K6 & H & ->).
  assert (K : cadence s6 = cadence s) by congruence.
  unfold cadence in K. injection K as Kit Kev.
  change (match terminal_iter args with
          | Some t => it s >=? t
          | None => false
          end) with (terminal_reached args (it s)) in *.
  destruct (terminal_reached args (it s)) eqn:Ht.
  { cbn in H. injection H as <- <-. cbn. repeat split; auto. }
  apply (bind_keeps_inv cadence) in H; [|apply keeps_cadence_evaluate_and_record].
  destruct H as (tr1 & s7 & Hrec & _ & K7 & H & ->).
  apply evaluate_and_record_inv in Hrec. rewrite Kit in Hrec.
  unfold cadence in K7. injection K7 as K7it K7ev.
  destruct (advance_cadence args s7) as (Hao & Hait & Haev).
  apply bind_inv in H. destruct H as (u8 & _ & H & ->).
  cbn in H. injection H as <- <-.
  change (after (ret (Continue, tr1) (after (advance args s7))))
    with (after (advance args s7)).
  repeat split; try lia; try assumption.
Qed.

(** What an iteration that returns has done to the counter, the evaluation
    interval and the tracker.  Leaving the loop changes none of them, and
    happens exactly when the budget is exceeded or the terminal iteration is
    reached; otherwise the counter has advanced by exactly one, the interval
    is the old one or 1000, and the tracker is the old one or records a
    strictly better accuracy at this iteration. *)
Theorem train_iteration_step (args : Args) (lb : lb_batch) (ulb : ulb_batch)
    (tr tr' : tracker) (s : PiModel) (fl : flow) :
  outcome (train_iteration C args lb ulb tr s) = Ok (fl, tr') ->
  let s' := after (train_iteration C args lb ulb tr s) in
  match fl with
  | Break =>
      it s' = it s /\ num_eval_iter s' = num_eval_iter s /\ tr' = tr /\
      (num_train_iter args < it s \/ terminal_reached args (it s) = true)
  | Continue =>
      it s <= num_train_iter args /\ terminal_reached args (it s) = false /\
      it s' = it s + 1 /\
      (num_eval_iter s' = num_eval_iter s \/ num_eval_iter s' = 1000) /\
      tracker_advanced (it s) tr tr'
  end.
Proof. exact (train_iteration_inv args lb ulb tr tr' s fl). Qed.

(** Across the whole loop the counter never decreases and advances by at
    most one per pair of batches; the best accuracy of the tracker never
    decreases; and the tracker is the initial one or its best iteration is
    one the loop went through, strictly before the counter it ends with. *)
Theorem train_loop_progress (args : Args) (lbs : list lb_batch) :
  forall (ulbs : list ulb_batch) (tr tr' : tracker) (s : PiModel),
    outcome (train_loop C args lbs ulbs tr s) = Ok tr' ->
    let s' := after (train_loop C args lbs ulbs tr s) in
    it s <= it s' <= it s + Z.of_nat (Nat.min (length lbs) (length ulbs)) /\
    (best_eval_acc tr <= best_eval_acc tr')%Q /\
    (tr' = tr \/ it s <= best_it tr' < it s').
Proof.
  induction lbs as [|lb lbs IH]; intros ulbs tr tr' s H s'; subst s'.
  { cbn in H |- *. injection H as <-. repeat split; try lia; [apply Qle_refl | now left]. }
  destruct ulbs as [|ulb ulbs].
  { cbn in H |- *. injection H as <-. repeat split; try lia; [apply Qle_refl | now left]. }
  cbn [train_loop] in *.
  apply bind_inv in H. destruct H as ([fl tr1] & Hstep & H & ->).
  apply train_iteration_inv in Hstep. cbv zeta in Hstep.
  set (s1 := after (train_iteration C args lb ulb tr s)) in *.
  cbn [fst snd] in *.
  destruct fl.
  - destruct Hstep as (Hle & _ & Hit & _ & Hadv).
    specialize (IH ulbs tr1 tr' s1 H). cbv zeta in IH.
    destruct IH as (Hrange & Hbest & Hwhere).
    cbn [length]. rewrite <- Nat.succ_min_distr.
    assert (Hb1 : (best_eval_acc tr <= best_eval_acc tr1)%Q).
    { destruct Hadv as [->|[_ Hlt]]; [apply Qle_refl | apply Qlt_le_weak; exact Hlt]. }
    split; [lia|]. split; [apply Qle_trans with (best_eval_acc tr1); assumption|].
    destruct Hwhere as [->|Hin].
    + destruct Hadv as [->|[Hbit _]]; [now left | right; lia].
    + right. lia.
  - destruct Hstep as (Hit & _ & -> & _).
    cbn in H. injection H as <-. cbn.
    repeat split; try lia; [apply Qle_refl | now left].
Qed.

(** Without a terminal override, a loop that returns ends with the counter
    at the larger of its entry value and of [min (num_train_iter + 1, entry +
    number of batch pairs)].  Entered within the budget, it ends at
    [num_train_iter + 1] when the loaders hold enough batches: the step at
    [it = num_train_iter] is still taken.  Entered beyond the budget, as
    after [load_model] of a finished run, it leaves the counter where it
    was. *)
Theorem train_loop_final_counter (args : Args) (lbs : list lb_batch) :
  forall (ulbs : list ulb_batch) (tr tr' : tracker) (s : PiModel),
    terminal_iter args = None ->
    outcome (train_loop C args lbs ulbs tr s) = Ok tr' ->
    it (after (train_loop C args lbs ulbs tr s))
    = Z.max (it s)
        (Z.min (num_train_iter args + 1)
           (it s + Z.of_nat (Nat.min (length lbs) (length ulbs)))).
Proof.
  induction lbs as [|lb lbs IH]; intros ulbs tr tr' s Hterm H.
  { cbn. lia. }
  destruct ulbs as [|ulb ulbs].
  { cbn. lia. }
  cbn [train_loop] in *.
  apply bind_inv in H. destruct H as ([fl tr1] & Hstep & H & ->).
  apply train_iteration_inv in Hstep. cbv zeta in Hstep.
  set (s1 := after (train_iteration C args lb ulb tr s)) in *.
  cbn [fst snd] in *.
  cbn [length]. rewrite <- Nat.succ_min_distr.
  destruct fl.
  - destruct Hstep as (Hle & _ & Hit & _).
    rewrite (IH ulbs tr1 tr' s1 Hterm H). lia.
  - destruct Hstep as (Hit & _ & _ & [Hgt|Ht]).
    + cbn. lia.
    + unfold terminal_reached in Ht. rewrite Hterm in Ht. discriminate.
Qed.

End IterationCounter.

Lemma train_iteration_beyond_budget_witness :
  num_train_iter Fixture.args < it (with_it 2000 Fixture.object) /\
  train_iteration Fixture.collaborators Fixture.args Fixture.lb Fixture.ulb
    Fixture.tracker0 (with_it 2000 Fixture.object)
  = (Ok (Break, Fixture.tracker0), with_it 2000 Fixture.object, []).
Proof.
  split; [reflexivity|].
  apply (train_iteration_beyond_budget Fixture.collaborators Fixture.args
           Fixture.lb Fixture.ulb Fixture.tracker0 (with_it 2000 Fixture.object)).
  reflexivity.
Defined.

Lemma train_iteration_zero_denominator_witness :
  it Fixture.fresh_object <= num_train_iter Fixture.zero_args /\
  (unsup_warmup_pos Fixture.zero_args * inject_Z (num_train_iter Fixture.zero_args) == 0)%Q /\
  train_iteration Fixture.collaborators Fixture.zero_args Fixture.lb Fixture.ulb
    Fixture.tracker0 Fixture.fresh_object
  = (Raise ZeroDivisionError, Fixture.fresh_object, []).
Proof.
  split; [discriminate|]. split; [reflexivity|].
  apply (train_iteration_zero_denominator Fixture.collaborators Fixture.zero_args
           Fixture.lb Fixture.ulb Fixture.tracker0 Fixture.fresh_object);
    [discriminate | reflexivity].
Defined.

Lemma train_iteration_step_witness :
  let r := train_iteration Fixture.collaborators Fixture.args Fixture.lb Fixture.ulb
             Fixture.tracker0 Fixture.object in
  outcome r = Ok (Continue, Fixture.tracker0) /\
  it Fixture.object <= num_train_iter Fixture.args /\
  terminal_reached Fixture.args (it Fixture.object) = false /\
  it (after r) = it Fixture.object + 1 /\
  (num_eval_iter (after r) = num_eval_iter Fixture.object \/
   num_eval_iter (after r) = 1000) /\
  tracker_advanced (it Fixture.object) Fixture.tracker0 Fixture.tracker0.
Proof.
  cbv zeta. split; [vm_compute; reflexivity|].
  apply (train_iteration_step Fixture.collaborators Fixture.args Fixture.lb Fixture.ulb
           Fixture.tracker0 Fixture.tracker0 Fixture.object Continue).
  vm_compute. reflexivity.
Defined.

Lemma train_loop_progress_witness :
  let lbs := [Fixture.lb; Fixture.lb; Fixture.lb] in
  let ulbs := [Fixture.ulb; Fixture.ulb; Fixture.ulb] in
  let r := train_loop Fixture.collaborators Fixture.short_args lbs ulbs
             Fixture.tracker0 Fixture.object in
  outcome r = Ok Fixture.tracker0 /\
  it Fixture.object <= it (after r)
    <= it Fixture.object + Z.of_nat (Nat.min (length lbs) (length ulbs)) /\
  (best_eval_acc Fixture.tracker0 <= best_eval_acc Fixture.tracker0)%Q /\
  (Fixture.tracker0 = Fixture.tracker0 \/
   it Fixture.object <= best_it Fixture.tracker0 < it (after r)).
Proof.
  cbv zeta. split; [vm_compute; reflexivity|].
  apply (train_loop_progress Fixture.collaborators Fixture.short_args
           [Fixture.lb; Fixture.lb; Fixture.lb]
           [Fixture.ulb; Fixture.ulb; Fixture.ulb]
           Fixture.tracker0 Fixture.tracker0 Fixture.object).
  vm_compute. reflexivity.
Defined.

Lemma train_loop_final_counter_witness :
  let lbs := [Fixture.lb; Fixture.lb; Fixture.lb] in
  let ulbs := [Fixture.ulb; Fixture.ulb; Fixture.ulb] in
  let r := train_loop Fixture.collaborators Fixture.short_args lbs ulbs
             Fixture.tracker0 Fixture.object in
  terminal_iter Fixture.short_args = None /\
  outcome r = Ok Fixture.tracker0 /\
  it (after r) = 202 /\
  it (after r)
  = Z.max (it Fixture.object)
      (Z.min (num_train_iter Fixture.short_args + 1)
         (it Fixture.object + Z.of_nat (Nat.min (length lbs) (length ulbs)))).
Proof.
  cbv zeta. split; [reflexivity|].
  split; [vm_compute; reflexivity|]. split; [vm_compute; reflexivity|].
  apply (train_loop_final_counter Fixture.collaborators Fixture.short_args
           [Fixture.lb; Fixture.lb; Fixture.lb]
           [Fixture.ulb; Fixture.ulb; Fixture.ulb]
           Fixture.tracker0 Fixture.tracker0 Fixture.object);
    [reflexivity | vm_compute; reflexivity].
Defined.

(** A resumed counter beyond the budget: the loop breaks at its first turn. *)
Example train_loop_resumed_beyond_budget :
  let r := train_loop Fixture.collaborators Fixture.args
             [Fixture.lb; Fixture.lb; Fixture.lb]
             [Fixture.ulb; Fixture.ulb; Fixture.ulb]
             Fixture.tracker0 (with_it 2000 Fixture.object) in
  num_train_iter Fixture.args = 1000 /\
  outcome r = Ok Fixture.tracker0 /\ it (after r) = 2000 /\ calls r = [].
Proof. cbv zeta. vm_compute. repeat split. Qed.

(** ** Evaluation and saving at their edges *)

Section EvaluateEdges.

Variable C : Collaborators.

(** [self.ema] is assigned in [train] only.  On an object without tracker
    [evaluate] raises [AttributeError] right after [self.model.eval()]: the
    model is left in evaluation mode and nothing else has happened. *)
Theorem evaluate_before_train (eval_loader : option (list lb_batch)) (s : PiModel) :
  ema s = None ->
  evaluate C eval_loader s = (Raise AttributeError, with_training false s, [EvEvalMode]).
Proof.
  intros H. destruct s as [m rep trn fr em emm d o sc i n lam ld dk].
  cbn in H. subst em.
  unfold evaluate, model_eval, ema_apply_shadow, the_ema. run. reflexivity.
Qed.

(** The same holds for [save_model]: without tracker it raises
    [AttributeError], writes no file and leaves the model in evaluation
    mode. *)
Theorem save_model_before_train (name path : string) (s : PiModel) :
  ema s = None ->
  save_model name path s = (Raise AttributeError, with_training false s, [EvEvalMode]).
Proof.
  intros H. destruct s as [m rep trn fr em emm d o sc i n lam ld dk].
  cbn in H. subst em.
  unfold save_model, model_eval, ema_apply_shadow, the_ema. run. reflexivity.
Qed.

(** With an empty loader [evaluate] never returns.  If the metrics accept the
    empty prediction lists, the final [total_loss / total_num] is [0.0 / 0.0]
    and raises [ZeroDivisionError], after [restore] has put the live
    parameters back; if they reject them, their exception leaves the shadow
    parameters in place. *)
Theorem evaluate_empty_loader (eval_loader : option (list lb_batch)) (s : PiModel) (e : EMA) :
  ema s = Some e ->
  chosen_loader eval_loader s = [] ->
  let r := evaluate C eval_loader s in
  match sk_metrics C [] [] [] with
  | Ok _ =>
      outcome r = Raise ZeroDivisionError /\
      In EvRestore (calls r) /\ model (after r) = model s
  | Raise ex =>
      outcome r = Raise ex /\
      ~ In EvRestore (calls r) /\ model (after r) = shadow e
  end.
Proof.
  intros He Hl r. subst r. rewrite (evaluate_run C eval_loader s e He).
  cbv zeta. rewrite Hl. unfold eval_computation. cbn [evaluate_loop].
  run. destruct (sk_metrics C [] [] []) as [tops|ex]; cbn.
  - repeat split. auto 6.
  - repeat split. intros [H|[H|[]]]; discriminate.
Qed.

Lemma get_set_other {V : Type} (k k' : string) (v : V) (d : list (string * V)) :
  k <> k' -> PyDict.get k (PyDict.set k' v d) = PyDict.get k d.
Proof.
  intros Hne. induction d as [|[k0 v0] d IH]; cbn.
  - destruct (String.eqb_spec k k'); [contradiction | reflexivity].
  - destruct (String.eqb_spec k' k0) as [->|Hk0]; cbn.
    + destruct (String.eqb_spec k k0); [contradiction | reflexivity].
    + destruct (String.eqb_spec k k0); [reflexivity | exact IH].
Qed.

(** [save_model] on a trained object returns and writes one file, which
    holds the live parameters as [model], the shadow parameters as
    [ema_model] and the optimizer, scheduler and counter of the moment; every
    other file is as before, and so are the live parameters, which the
    method has swapped out and back. *)
Theorem save_model_writes_live_and_shadow (name path : string) (s : PiModel) (e : EMA) :
  ema s = Some e ->
  let r := save_model name path s in
  let file := PyStr.path_join path name in
  outcome r = Ok tt /\
  PyDict.get file (disk (after r)) = Some (written s e) /\
  (forall other, other <> file ->
     PyDict.get other (disk (after r)) = PyDict.get other (disk s)) /\
  model (after r) = model s /\
  progress (after r) = progress s /\
  training (after r) = true.
Proof.
  intros He. destruct s as [m rep trn fr em emm d o sc i n lam ld dk].
  cbn in He. subst em.
  unfold save_model, model_eval, ema_apply_shadow, ema_restore, model_train,
    the_ema, torch_save, written, after, outcome.
  run. repeat split.
  - apply get_set_same.
  - intros other Hne. apply get_set_other. exact Hne.
Qed.

End EvaluateEdges.

Lemma evaluate_before_train_witness :
  ema (Fixture.single_object "fc.weight") = None /\
  evaluate Fixture.collaborators None (Fixture.single_object "fc.weight")
  = (Raise AttributeError, with_training false (Fixture.single_object "fc.weight"),
     [EvEvalMode]).
Proof.
  split; [reflexivity|].
  apply (evaluate_before_train Fixture.collaborators None
           (Fixture.single_object "fc.weight")).
  reflexivity.
Defined.

Lemma save_model_before_train_witness :
  ema (Fixture.single_object "fc.weight") = None /\
  save_model "latest_model.pth" "run" (Fixture.single_object "fc.weight")
  = (Raise AttributeError, with_training false (Fixture.single_object "fc.weight"),
     [EvEvalMode]).
Proof.
  split; [reflexivity|].
  apply (save_model_before_train "latest_model.pth" "run"
           (Fixture.single_object "fc.weight")).
  reflexivity.
Defined.

Lemma evaluate_empty_loader_witness :
  ema Fixture.object = Some Fixture.tracker_ema /\
  chosen_loader (Some []) Fixture.object = [] /\
  let r := evaluate Fixture.collaborators (Some []) Fixture.object in
  outcome r = Raise ZeroDivisionError /\
  In EvRestore (calls r) /\ model (after r) = model Fixture.object.
Proof.
  split; [reflexivity|]. split; [reflexivity|].
  apply (evaluate_empty_loader Fixture.collaborators (Some []) Fixture.object
           Fixture.tracker_ema); reflexivity.
Defined.

Lemma save_model_writes_live_and_shadow_witness :
  ema Fixture.object = Some Fixture.tracker_ema /\
  let r := save_model "latest_model.pth" "run" Fixture.object in
  let file := PyStr.path_join "run" "latest_model.pth" in
  outcome r = Ok tt /\
  PyDict.get file (disk (after r)) = Some (written Fixture.object Fixture.tracker_ema) /\
  (forall other, other <> file ->
     PyDict.get other (disk (after r)) = PyDict.get other (disk Fixture.object)) /\
  model (after r) = model Fixture.object /\
  progress (after r) = progress Fixture.object /\
  training (after r) = true.
Proof.
  split; [reflexivity|].
  apply (save_model_writes_live_and_shadow "latest_model.pth" "run" Fixture.object
           Fixture.tracker_ema).
  reflexivity.
Defined.

Lemma checkpoint_roundtrip_clean_names_witness :
  let s := Fixture.replicated_object "module.fc.weight" in
  let l := Fixture.single_object "fc.weight" in
  let net_s := [("fc.weight"%string, [(5 # 1)%Q; (6 # 1)%Q])] in
  let net_e := [("fc.weight"%string, [(7 # 1)%Q; (8 # 1)%Q])] in
  let net_l := [("fc.weight"%string, [0%Q; 0%Q])] in
  let r := load_model (PyStr.path_join "run" "latest_model.pth")
             (with_disk (disk (after (save_model "latest_model.pth" "run" s))) l) in
  NoDup (map fst net_s) /\ Forall clean (map fst net_s) /\
  congruent net_l net_s /\ congruent net_l net_e /\
  model s = state_dict_of true net_s /\
  model l = state_dict_of false net_l /\
  (false = replicated l \/ false = true ->
     outcome r = Ok tt /\
     model (after r) = state_dict_of false net_s /\
     ema_model (after r) = state_dict_of false net_e /\
     optimizer (after r) = optimizer s /\
     scheduler (after r) = scheduler s /\
     it (after r) = it s) /\
  (false = true -> replicated l = false -> true = false -> net_l <> [] ->
     outcome r = Raise RuntimeError /\
     optimizer (after r) = optimizer l /\
     scheduler (after r) = scheduler l /\
     it (after r) = it l).
Proof.
  cbv zeta.
  assert (Hnd : NoDup (map fst [("fc.weight"%string, [(5 # 1)%Q; (6 # 1)%Q])]))
    by (repeat constructor; intros []).
  assert (Hclean : Forall clean (map fst [("fc.weight"%string, [(5 # 1)%Q; (6 # 1)%Q])]))
    by (repeat constructor).
  assert (Hcs : congruent [("fc.weight"%string, [0%Q; 0%Q])]
                  [("fc.weight"%string, [(5 # 1)%Q; (6 # 1)%Q])])
    by (repeat constructor).
  assert (Hce : congruent [("fc.weight"%string, [0%Q; 0%Q])]
                  [("fc.weight"%string, [(7 # 1)%Q; (8 # 1)%Q])])
    by (repeat constructor).
  split; [exact Hnd|]. split; [exact Hclean|]. split; [exact Hcs|]. split; [exact Hce|].
  split; [reflexivity|]. split; [reflexivity|].
  exact (checkpoint_roundtrip_clean_names
           (Fixture.replicated_object "module.fc.weight")
           (Fixture.single_object "fc.weight")
           {| decay := (999 # 1000)%Q;
              shadow := [("module.fc.weight"%string, [(7 # 1)%Q; (8 # 1)%Q])];
              backup := [] |}
           [("fc.weight"%string, [(5 # 1)%Q; (6 # 1)%Q])]
           [("fc.weight"%string, [(7 # 1)%Q; (8 # 1)%Q])]
           [("fc.weight"%string, [0%Q; 0%Q])]
           "latest_model.pth" "run" true false
           eq_refl Hnd Hclean Hcs Hce eq_refl eq_refl eq_refl).
Defined.

(** A [DataParallel]-wrapped instance, with the prefix in its names and not
    a [DistributedDataParallel], cannot load what a single-device run saved. *)
Example checkpoint_roundtrip_to_data_parallel :
  let saver := Fixture.object in
  let loader := with_model [("module.fc.weight"%string, [0%Q; 0%Q])]
                  (Fixture.single_object "fc.weight") in
  let r := Fixture.save_then_load saver loader in
  replicated loader = false /\
  outcome r = Raise RuntimeError /\
  it saver = 200 /\ it (after r) = 0.
Proof. cbv zeta. vm_compute. repeat split. Qed.

(** ** Mixup on soft labels *)

Section MixupDistributions.

Import Remixmatch.

Local Open Scope Q_scope.

Lemma qsum_scale (c : Q) (a : vec) : qsum (map (Qmult c) a) == c * qsum a.
Proof.
  unfold qsum. induction a as [|v a IH]; cbn [map fold_right]; [ring|].
  rewrite IH. ring.
Qed.

Lemma qsum_zip_plus (a : vec) :
  forall b, length a = length b -> qsum (zip_with Qplus a b) == qsum a + qsum b.
Proof.
  unfold qsum.
  induction a as [|u a IH]; intros [|v b] Hlen; try discriminate;
    cbn [zip_with fold_right]; [ring|].
  rewrite IH by (now injection Hlen). ring.
Qed.

Lemma in_zip_with {A B D : Type} (f : A -> B -> D) (l1 : list A) :
  forall l2 d, In d (zip_with f l1 l2) ->
    exists a b, In a l1 /\ In b l2 /\ d = f a b.
Proof.
  induction l1 as [|a l1 IH]; intros [|b l2] d H; cbn in H; try contradiction.
  destruct H as [<-|H].
  - exists a, b. repeat split; now left.
  - destruct (IH l2 d H) as (a' & b' & Ha & Hb & E).
    exists a', b'. repeat split; [now right | now right | exact E].
Qed.

Lemma zip_with_length {A B D : Type} (f : A -> B -> D) (l1 : list A) :
  forall l2, length l1 = length l2 -> length (zip_with f l1 l2) = length l1.
Proof.
  induction l1 as [|a l1 IH]; intros [|b l2] H; try discriminate; cbn; [reflexivity|].
  f_equal. apply IH. now injection H.
Qed.


End MixupDistributions.


(** ** [one_hot] *)

Section OneHot.

Lemma set_nth_zeros (t c : nat) :
  (t < c)%nat ->
  PyList.set_nth t 1%Q (repeat 0%Q c) = repeat 0%Q t ++ 1%Q :: repeat 0%Q (c - t - 1).
Proof.
  revert c. induction t as [|t IH]; intros [|c] H; try lia.
  - cbn. now rewrite Nat.sub_0_r.
  - cbn [repeat PyList.set_nth app]. rewrite IH by lia.
    replace (S c - S t - 1)%nat with (c - t - 1)%nat by lia. reflexivity.
Qed.

Lemma map_constant {A B : Type} (f : A -> B) (v : B) (l : list A) :
  (forall a, In a l -> f a = v) -> map f l = repeat v (length l).
Proof.
  induction l as [|a l IH]; intros H; [reflexivity|].
  cbn. rewrite (H a (or_introl eq_refl)), IH; [reflexivity|].
  intros b Hb. apply H. now right.
Qed.

Lemma indicator_zeros (c : Z) (t : Z) :
  0 <= t < c ->
  indicator c t
  = repeat 0%Q (Z.to_nat t) ++ 1%Q :: repeat 0%Q (Z.to_nat c - Z.to_nat t - 1).
Proof.
  intros Ht. unfold indicator.
  replace (Z.to_nat c) with (Z.to_nat t + S (Z.to_nat c - Z.to_nat t - 1))%nat at 1 by lia.
  rewrite seq_app, map_app. cbn [seq map]. f_equal; [|f_equal].
  - rewrite (map_constant _ 0%Q), length_seq; [reflexivity|].
    intros j Hj. apply in_seq in Hj.
    destruct (Z.eqb_spec (Z.of_nat j) t); [lia | reflexivity].
  - rewrite Nat.add_0_l. destruct (Z.eqb_spec (Z.of_nat (Z.to_nat t)) t); [reflexivity | lia].
  - rewrite (map_constant _ 0%Q), length_seq; [reflexivity|].
    intros j Hj. apply in_seq in Hj.
    destruct (Z.eqb_spec (Z.of_nat j) t); [lia | reflexivity].
Qed.

Lemma scatter_zero_row (c t : Z) :
  0 <= t < c ->
  scatter_row (repeat 0%Q (Z.to_nat c)) t 1%Q = Ok (indicator c t).
Proof.
  intros Ht. unfold scatter_row. rewrite repeat_length.
  replace ((0 <=? t) && (t <? Z.of_nat (Z.to_nat c))) with true
    by (symmetry; apply andb_true_iff; split; [apply Z.leb_le | apply Z.ltb_lt]; lia).
  rewrite set_nth_zeros by lia. now rewrite indicator_zeros.
Qed.

Lemma scatter_zero_rows (c : Z) (targets : list Z) :
  Forall (fun t => 0 <= t < c) targets ->
  scatter_rows (repeat (repeat 0%Q (Z.to_nat c)) (length targets)) targets 1%Q
  = Ok (map (indicator c) targets).
Proof.
  induction 1 as [|t targets Ht _ IH]; [reflexivity|].
  cbn [length repeat scatter_rows map].
  rewrite (scatter_zero_row c t Ht). cbn [rbind]. rewrite IH. reflexivity.
Qed.

Lemma argmax_from_zeros (k : nat) :
  forall best best_i i rest,
    Qle_bool 0 best = true ->
    argmax_from best best_i i (repeat 0%Q k ++ rest)
    = argmax_from best best_i (i + Z.of_nat k) rest.
Proof.
  induction k as [|k IH]; intros best best_i i rest Hb.
  - cbn. now rewrite Z.add_0_r.
  - cbn [repeat app argmax_from]. rewrite Hb, IH by exact Hb.
    f_equal. lia.
Qed.

Lemma argmax_indicator (c t : Z) : 0 <= t < c -> argmax (indicator c t) = t.
Proof.
  intros Ht. rewrite indicator_zeros by exact Ht.
  destruct (Z.to_nat t) as [|k] eqn:Ek.
  - cbn [repeat app argmax].
    rewrite <- (app_nil_r (repeat 0%Q _)), argmax_from_zeros by reflexivity.
    cbn. lia.
  - cbn [repeat app argmax]. rewrite argmax_from_zeros by reflexivity.
    cbn [argmax_from]. change (Qle_bool 1 0) with false. cbv iota.
    rewrite <- (app_nil_r (repeat 0%Q _)), argmax_from_zeros by reflexivity.
    cbn [argmax_from]. lia.
Qed.

Lemma qsum_app (a b : vec) : (qsum (a ++ b) == qsum a + qsum b)%Q.
Proof.
  unfold qsum. induction a as [|v a IH]; cbn [app fold_right]; [ring|].
  rewrite IH. ring.
Qed.

Lemma qsum_zeros (k : nat) : (qsum (repeat 0%Q k) == 0)%Q.
Proof.
  unfold qsum. induction k as [|k IH]; cbn [repeat fold_right]; [reflexivity|].
  rewrite IH. reflexivity.
Qed.

(** For labels inside [[0, nClass)], [one_hot] returns one row per label, of
    width [nClass], with a one at the label and zeros elsewhere; each row
    sums to one, and taking the arg-max of the rows gives the labels back. *)
Theorem one_hot_rows (targets : list Z) (nClass : Z) :
  0 <= nClass ->
  Forall (fun t => 0 <= t < nClass) targets ->
  one_hot targets nClass = Ok (map (indicator nClass) targets) /\
  map argmax (map (indicator nClass) targets) = targets /\
  (forall row, In row (map (indicator nClass) targets) ->
     Z.of_nat (length row) = nClass /\ (qsum row == 1)%Q).
Proof.
  intros Hc Hall. split; [|split].
  - unfold one_hot, zeros.
    destruct (Z.ltb_spec nClass 0); [lia|]. cbn [rbind].
    apply scatter_zero_rows. exact Hall.
  - rewrite map_map. induction Hall as [|t targets Ht _ IH]; [reflexivity|].
    cbn [map]. rewrite argmax_indicator by exact Ht. now rewrite IH.
  - intros row Hrow. apply in_map_iff in Hrow. destruct Hrow as (t & <- & Hin).
    pose proof (proj1 (Forall_forall _ _) Hall t Hin) as Ht.
    split.
    + unfold indicator. rewrite length_map, length_seq. lia.
    + rewrite indicator_zeros by exact Ht.
      rewrite qsum_app. change (1%Q :: ?l) with ([1%Q] ++ l).
      change (qsum (1%Q :: repeat 0%Q (Z.to_nat nClass - Z.to_nat t - 1)))
        with (qsum ([1%Q] ++ repeat 0%Q (Z.to_nat nClass - Z.to_nat t - 1))).
      rewrite qsum_app, !qsum_zeros. reflexivity.
Qed.

Lemma one_hot_rows_witness :
  0 <= 3 /\
  Forall (fun t => 0 <= t < 3) [2; 0; 2] /\
  one_hot [2; 0; 2] 3 = Ok (map (indicator 3) [2; 0; 2]) /\
  map argmax (map (indicator 3) [2; 0; 2]) = [2; 0; 2] /\
  (forall row, In row (map (indicator 3) [2; 0; 2]) ->
     Z.of_nat (length row) = 3 /\ (qsum row == 1)%Q).
Proof.
  split; [lia|].
  assert (H : Forall (fun t => 0 <= t < 3) [2; 0; 2]) by (repeat constructor; lia).
  split; [exact H|].
  apply (one_hot_rows [2; 0; 2] 3); [lia | exact H].
Defined.

(** A label outside [[0, nClass)] makes [one_hot] raise: a negative label
    does not count from the end and a large one is not clipped. *)
Theorem one_hot_rejects_label (targets : list Z) (nClass : Z) :
  Exists (fun t => ~ 0 <= t < nClass) targets ->
  one_hot targets nClass = Raise RuntimeError.
Proof.
  intros Hex. unfold one_hot, zeros.
  destruct (Z.ltb_spec nClass 0) as [Hneg|Hc]; [reflexivity|]. cbn [rbind].
  induction Hex as [t targets Hbad | t targets _ IH].
  - cbn [length repeat scatter_rows]. unfold scatter_row. rewrite repeat_length.
    replace ((0 <=? t) && (t <? Z.of_nat (Z.to_nat nClass))) with false; [reflexivity|].
    symmetry. apply andb_false_iff.
    destruct (Z.leb_spec 0 t); [right; apply Z.ltb_ge; lia | now left].
  - cbn [length repeat scatter_rows]. rewrite IH.
    unfold scatter_row.
    destruct ((0 <=? t) && (t <? Z.of_nat (length (repeat 0%Q (Z.to_nat nClass)))));
      reflexivity.
Qed.

Lemma one_hot_rejects_label_witness :
  Exists (fun t => ~ 0 <= t < 3) [1; -1] /\
  one_hot [1; -1] 3 = Raise RuntimeError.
Proof.
  assert (H : Exists (fun t => ~ 0 <= t < 3) [1; -1])
    by (apply Exists_cons_tl, Exists_cons_hd; lia).
  split; [exact H|]. apply (one_hot_rejects_label [1; -1] 3). exact H.
Defined.

End OneHot.

(** ** [interleave] *)

Section Interleave.

Context {A : Type}.

Lemma position_nat (len p : nat) :
  (p < len)%nat -> PyList.position len (Z.of_nat p) = Some p.
Proof.
  intros Hp. unfold PyList.position.
  replace ((0 <=? Z.of_nat p) && (Z.of_nat p <? Z.of_nat len)) with true
    by (symmetry; apply andb_true_iff; split; [apply Z.leb_le | apply Z.ltb_lt]; lia).
  now rewrite Nat2Z.id.
Qed.

Lemma py_item_nth {B : Type} (l : list B) (p : nat) (d : B) :
  (p < length l)%nat -> py_item l (Z.of_nat p) = Ok (nth p l d).
Proof.
  intros Hp. unfold py_item. rewrite position_nat by exact Hp.
  rewrite (nth_error_nth' l d Hp). reflexivity.
Qed.

Lemma py_set_item_nth {B : Type} (l : list B) (p : nat) (v : B) :
  (p < length l)%nat -> py_set_item l (Z.of_nat p) v = Ok (PyList.set_nth p v l).
Proof.
  intros Hp. unfold py_set_item. now rewrite position_nat by exact Hp.
Qed.

Lemma set_nth_length {B : Type} (l : list B) :
  forall p v, length (PyList.set_nth p v l) = length l.
Proof.
  induction l as [|h l IH]; intros [|p] v; cbn; try reflexivity.
  now rewrite IH.
Qed.

Lemma nth_set_nth {B : Type} (l : list B) (d : B) :
  forall p q v, (p < length l)%nat ->
    nth q (PyList.set_nth p v l) d = if (q =? p)%nat then v else nth q l d.
Proof.
  induction l as [|h l IH]; intros [|p] [|q] v Hp; cbn in *; try lia; try reflexivity.
  apply IH. lia.
Qed.

Lemma comprehension_map {B C : Type} (f : B -> result C) (g : B -> C) (l : list B) :
  (forall b, In b l -> f b = Ok (g b)) -> comprehension f l = Ok (map g l).
Proof.
  induction l as [|b l IH]; intros H; [reflexivity|].
  cbn [comprehension map]. rewrite (H b) by now left. cbn [rbind].
  rewrite IH by (intros; apply H; now right). reflexivity.
Qed.

(** *** Cutting at the offsets *)

Lemma slices_nth (offsets : list Z) (n : nat) (v : list A) (p : nat) :
  (p < n)%nat ->
  nth p (slices offsets n v) [] = py_slice v (nth p offsets 0) (nth (S p) offsets 0).
Proof.
  intros Hp. unfold slices.
  rewrite (nth_indep _ [] (py_slice v (nth 0 offsets 0) (nth 1 offsets 0)))
    by now rewrite length_map, length_seq.
  rewrite (map_nth (fun p => py_slice v (nth p offsets 0) (nth (S p) offsets 0))).
  now rewrite seq_nth.
Qed.

Lemma groups_of_slices (offsets : list Z) (nu : Z) (n : nat) (v : list A) :
  length offsets = S n -> Z.to_nat (nu + 1) = n ->
  groups_of offsets nu v = Ok (slices offsets n v).
Proof.
  intros Hlen Hn. unfold groups_of, slices, PyList.range. rewrite Hn.
  rewrite (comprehension_map _
    (fun p => py_slice v (nth (Z.to_nat p) offsets 0) (nth (S (Z.to_nat p)) offsets 0))).
  - rewrite map_map. f_equal. apply map_ext. intros k. now rewrite Nat2Z.id.
  - intros p Hp.
    apply in_map_iff in Hp. destruct Hp as (k & <- & Hk). apply in_seq in Hk.
    rewrite (py_item_nth offsets k 0) by lia. cbn [rbind].
    replace (Z.of_nat k + 1) with (Z.of_nat (S k)) by lia.
    rewrite (py_item_nth offsets (S k) 0) by lia. cbn [rbind].
    now rewrite Nat2Z.id.
Qed.

(** *** The exchange of the diagonal groups *)

Lemma group_at_cell (G : list (list (list A))) (n j p : nat) :
  square n G -> (j < n)%nat -> (p < n)%nat ->
  group_at G (Z.of_nat j) (Z.of_nat p) = Ok (cell G j p).
Proof.
  intros [Hl Hr] Hj Hp. unfold group_at.
  rewrite (py_item_nth G j []) by lia. cbn [rbind].
  apply py_item_nth. rewrite Hr; lia.
Qed.

Lemma set_group_at_put (G : list (list (list A))) (n j p : nat) (g : list A) :
  square n G -> (j < n)%nat -> (p < n)%nat ->
  set_group_at G (Z.of_nat j) (Z.of_nat p) g = Ok (put G j p g).
Proof.
  intros [Hl Hr] Hj Hp. unfold set_group_at.
  rewrite (py_item_nth G j []) by lia. cbn [rbind].
  rewrite py_set_item_nth by (rewrite Hr; lia). cbn [rbind].
  apply py_set_item_nth. lia.
Qed.

Lemma put_square (G : list (list (list A))) (n j p : nat) (g : list A) :
  square n G -> (j < n)%nat -> (p < n)%nat -> square n (put G j p g).
Proof.
  intros [Hl Hr] Hj Hp. unfold put. split.
  - now rewrite set_nth_length.
  - intros j' Hj'. rewrite nth_set_nth by lia.
    destruct (Nat.eqb_spec j' j) as [->|_].
    + rewrite set_nth_length. now apply Hr.
    + now apply Hr.
Qed.

Lemma put_cell (G : list (list (list A))) (n j p : nat) (g : list A) (j' p' : nat) :
  square n G -> (j < n)%nat -> (p < n)%nat ->
  cell (put G j p g) j' p'
  = if (j' =? j)%nat && (p' =? p)%nat then g else cell G j' p'.
Proof.
  intros [Hl Hr] Hj Hp. unfold cell, put.
  rewrite nth_set_nth by lia.
  destruct (Nat.eqb_spec j' j) as [->|_]; cbn [andb]; [|reflexivity].
  apply nth_set_nth. rewrite Hr; lia.
Qed.

Lemma swapped_start (n : nat) (C : list (list (list A))) :
  square n C -> swapped 0 n C C.
Proof.
  intros HC. split; [exact HC|]. intros j p _ _.
  destruct (Nat.leb_spec 1 p), (Nat.leb_spec p 0); cbn [andb]; try reflexivity; lia.
Qed.

Lemma swap_groups_round (n k : nat) (C G : list (list (list A))) :
  swapped k n C G -> (S k < n)%nat ->
  exists G', swap_groups G (Z.of_nat (S k)) = Ok G' /\ swapped (S k) n C G'.
Proof.
  intros [HG Hcells] Hk. unfold swap_groups.
  rewrite (group_at_cell G n (S k) (S k)) by (assumption || lia). cbn [rbind].
  change 0 with (Z.of_nat 0).
  rewrite (group_at_cell G n 0 (S k)) by (assumption || lia). cbn [rbind].
  rewrite (set_group_at_put G n 0 (S k)) by (assumption || lia). cbn [rbind].
  assert (HG1 : square n (put G 0 (S k) (cell G (S k) (S k))))
    by (apply put_square; assumption || lia).
  rewrite (set_group_at_put _ n (S k) (S k)) by (assumption || lia).
  eexists. split; [reflexivity|]. split.
  - apply put_square; assumption || lia.
  - intros j p Hj Hp.
    rewrite (put_cell _ n) by (assumption || lia).
    rewrite (put_cell _ n) by (assumption || lia).
    rewrite !Hcells by lia. unfold source_of.
    destruct (Nat.eqb_spec j (S k)), (Nat.eqb_spec p (S k)), (Nat.eqb_spec j 0),
      (Nat.eqb_spec j p), (Nat.leb_spec 1 p), (Nat.leb_spec p k),
      (Nat.leb_spec p (S k)), (Nat.leb_spec 1 (S k)), (Nat.leb_spec (S k) k);
      cbn [andb]; subst; try reflexivity; try lia.
Qed.

Lemma swap_groups_rounds (n m : nat) (C : list (list (list A))) :
  forall k G,
    swapped k n C G -> (k + m < n)%nat ->
    exists G',
      for_each swap_groups (map (fun x => 1 + Z.of_nat x) (seq k m)) G = Ok G' /\
      swapped (k + m) n C G'.
Proof.
  induction m as [|m IH]; intros k G HG Hk.
  - exists G. rewrite Nat.add_0_r. now split.
  - cbn [seq map for_each].
    replace (1 + Z.of_nat k) with (Z.of_nat (S k)) by lia.
    destruct (swap_groups_round n k C G HG) as (G1 & -> & HG1); [lia|]. cbn [rbind].
    destruct (IH (S k) G1 HG1) as (G' & E & HG'); [lia|].
    exists G'. split; [exact E|]. now replace (k + S m)%nat with (S k + m)%nat by lia.
Qed.

Lemma cat_rows (n : nat) (G : list (list (list A))) :
  square n G -> (0 < n)%nat ->
  comprehension cat G = Ok (map (@concat A) G).
Proof.
  intros [Hl Hr] Hn. apply comprehension_map. intros row Hin.
  destruct (In_nth G row [] Hin) as (j & Hj & <-).
  specialize (Hr j ltac:(lia)).
  destruct (nth j G []); [cbn in Hr; lia | reflexivity].
Qed.

Lemma slices_square (offsets : list Z) (xy : list (list A)) :
  square (length xy) (map (slices offsets (length xy)) xy).
Proof.
  split; [apply length_map|]. intros j Hj.
  rewrite (nth_indep _ [] (slices offsets (length xy) [])) by now rewrite length_map.
  rewrite map_nth. unfold slices. now rewrite length_map, length_seq.
Qed.

Lemma group_sizes_length (batch nu : Z) :
  0 <= nu -> length (group_sizes batch nu) = Z.to_nat (nu + 1).
Proof.
  intros Hn. unfold group_sizes. rewrite length_app, !repeat_length.
  pose proof (Z.mod_pos_bound batch (nu + 1)). lia.
Qed.

Lemma interleave_run (xy : list (list A)) (batch : Z) :
  xy <> [] ->
  exists G,
    swapped (length xy - 1) (length xy)
      (map (slices (0 :: prefix_sums 0 (group_sizes batch (Z.of_nat (length xy) - 1)))
              (length xy)) xy) G /\
    interleave xy batch = Ok (map (@concat A) G).
Proof.
  intros Hxy.
  assert (Hn : (0 < length xy)%nat) by (destruct xy; [congruence | cbn; lia]).
  set (nu := Z.of_nat (length xy) - 1).
  assert (Hnu : 0 <= nu) by (unfold nu; lia).
  pose proof (interleave_offsets_closed_form_any batch nu Hnu) as Hoff.
  cbv zeta in Hoff. fold (group_sizes batch nu) in Hoff.
  set (offsets := 0 :: prefix_sums 0 (group_sizes batch nu)) in *.
  assert (Hlen : length offsets = S (length xy)).
  { unfold offsets. cbn [length].
    rewrite prefix_sums_length, group_sizes_length by exact Hnu. unfold nu. lia. }
  destruct (swap_groups_rounds (length xy) (length xy - 1)
              (map (slices offsets (length xy)) xy) 0
              (map (slices offsets (length xy)) xy)) as (G & Hloop & HG).
  { apply swapped_start, slices_square. }
  { lia. }
  exists G. split; [exact HG|].
  unfold interleave. fold nu. rewrite Hoff. cbn [rbind].
  rewrite (comprehension_map _ (slices offsets (length xy)))
    by (intros v _; apply groups_of_slices; [exact Hlen | unfold nu; lia]).
  cbn [rbind]. unfold py_range.
  replace (Z.to_nat (nu + 1 - 1)) with (length xy - 1)%nat by (unfold nu; lia).
  rewrite Hloop. cbn [rbind].
  apply (cat_rows (length xy)); [apply HG | exact Hn].
Qed.

(** [interleave] raises on an empty list of tensors and on nothing else:
    whatever the batch size and the lengths of the tensors, it returns as
    many tensors as it was given. *)
Theorem interleave_raises_only_on_empty (xy : list (list A)) (batch : Z) :
  match xy with
  | [] => interleave xy batch = Raise ZeroDivisionError
  | _ :: _ => exists out, interleave xy batch = Ok out /\ length out = length xy
  end.
Proof.
  destruct xy as [|v xy]; [reflexivity|].
  destruct (interleave_run (v :: xy) batch) as (G & [[HG _] _] & E); [discriminate|].
  exists (map (@concat A) G). split; [exact E|]. now rewrite length_map.
Qed.

(** *** Tensors of [batch] rows *)

Lemma firstn_firstn_skipn (g k : nat) (v : list A) :
  firstn g v ++ firstn k (skipn g v) = firstn (g + k) v.
Proof.
  revert v. induction g as [|g IH]; intros v; [reflexivity|].
  destruct v as [|x v]; cbn [firstn skipn app Nat.add].
  - now rewrite firstn_nil.
  - now rewrite IH.
Qed.

Lemma concat_pieces (sizes : list nat) :
  forall v : list A, concat (pieces sizes v) = firstn (list_sum sizes) v.
Proof.
  induction sizes as [|g sizes IH]; intros v; [reflexivity|].
  change (list_sum (g :: sizes)) with (g + list_sum sizes)%nat.
  cbn [pieces concat]. rewrite IH. apply firstn_firstn_skipn.
Qed.

Lemma pieces_lengths (sizes : list nat) :
  forall v : list A, (list_sum sizes <= length v)%nat ->
    map (@length A) (pieces sizes v) = sizes.
Proof.
  induction sizes as [|g sizes IH]; intros v Hv; [reflexivity|].
  change (g + list_sum sizes <= length v)%nat in Hv. cbn [pieces map].
  rewrite length_firstn, IH by (rewrite length_skipn; lia).
  f_equal. lia.
Qed.

Lemma pieces_concat (cs : list (list A)) :
  pieces (map (@length A) cs) (concat cs) = cs.
Proof.
  induction cs as [|c cs IH]; [reflexivity|].
  cbn [map concat pieces].
  rewrite firstn_app, Nat.sub_diag, firstn_all, firstn_O, app_nil_r.
  rewrite skipn_app, Nat.sub_diag, skipn_all, skipn_O. cbn [app].
  now rewrite IH.
Qed.

Lemma length_concat_sum (cs : list (list A)) :
  length (concat cs) = list_sum (map (@length A) cs).
Proof.
  induction cs as [|c cs IH]; [reflexivity|].
  cbn [concat map]. rewrite length_app, IH. reflexivity.
Qed.

Lemma py_slice_nat (v : list A) (a g : nat) :
  (a + g <= length v)%nat ->
  py_slice v (Z.of_nat a) (Z.of_nat a + Z.of_nat g) = firstn g (skipn a v).
Proof.
  intros H. unfold py_slice, slice_bound.
  destruct (Z.ltb_spec (Z.of_nat a) 0); [lia|].
  destruct (Z.ltb_spec (Z.of_nat a + Z.of_nat g) 0); [lia|].
  f_equal. lia. f_equal. lia.
Qed.

Lemma slices_pieces (gs : list Z) (v : list A) :
  Forall (fun g => 0 <= g) gs ->
  forall a : nat,
    Z.of_nat a + PyList.sum gs <= Z.of_nat (length v) ->
    slices (Z.of_nat a :: prefix_sums (Z.of_nat a) gs) (length gs) v
    = pieces (map Z.to_nat gs) (skipn a v).
Proof.
  unfold slices.
  induction 1 as [|g gs Hg Hgs IH]; intros a Ha; [reflexivity|].
  rewrite sum_cons in Ha.
  assert (Hs : 0 <= PyList.sum gs).
  { clear -Hgs. induction Hgs as [|x l Hx _ IHl]; [reflexivity|]. rewrite sum_cons. lia. }
  cbn [length seq map prefix_sums pieces].
  rewrite <- seq_shift, map_map. f_equal.
  - cbn [nth]. rewrite <- (Z2Nat.id g) at 1 by exact Hg.
    apply py_slice_nat. lia.
  - replace (Z.of_nat a + g) with (Z.of_nat (a + Z.to_nat g)) by lia.
    rewrite skipn_skipn, (Nat.add_comm (Z.to_nat g) a).
    rewrite <- IH by lia. apply map_ext. intros p. reflexivity.
Qed.

Lemma group_sizes_nonneg (batch nu : Z) :
  0 <= batch -> 0 <= nu -> Forall (fun g => 0 <= g) (group_sizes batch nu).
Proof.
  intros Hb Hn. assert (0 <= batch / (nu + 1)) by (apply Z.div_pos; lia).
  unfold group_sizes. apply Forall_app. split; apply Forall_forall; intros g Hg;
    apply repeat_spec in Hg; lia.
Qed.

Lemma group_sizes_sum (batch nu : Z) :
  0 <= nu -> PyList.sum (group_sizes batch nu) = batch.
Proof.
  intros Hn. unfold group_sizes. rewrite sum_app, !sum_repeat.
  pose proof (Z.mod_pos_bound batch (nu + 1)).
  pose proof (Z.div_mod batch (nu + 1)). nia.
Qed.

Lemma list_sum_to_nat (gs : list Z) :
  Forall (fun g => 0 <= g) gs ->
  Z.of_nat (list_sum (map Z.to_nat gs)) = PyList.sum gs.
Proof.
  induction 1 as [|g gs Hg _ IH]; [reflexivity|].
  cbn [map]. change (list_sum (?a :: ?l)) with (a + list_sum l)%nat.
  rewrite sum_cons. lia.
Qed.

Lemma source_of_bound (n j p : nat) :
  (j < n)%nat -> (p < n)%nat -> (source_of j p < n)%nat.
Proof.
  intros. unfold source_of.
  destruct (Nat.eqb_spec j 0), (Nat.eqb_spec j p); lia.
Qed.

Lemma source_of_involutive (j p : nat) : source_of (source_of j p) p = j.
Proof.
  unfold source_of.
  destruct (Nat.eqb_spec j 0) as [->|Hj].
  - destruct (Nat.eqb_spec p 0) as [->|Hp]; [reflexivity|].
    now rewrite Nat.eqb_refl.
  - destruct (Nat.eqb_spec j p) as [->|Hjp]; [reflexivity|].
    destruct (Nat.eqb_spec j 0), (Nat.eqb_spec j p); congruence.
Qed.

Lemma square_ext (n : nat) (G N : list (list (list A))) :
  square n G -> square n N ->
  (forall j p, (j < n)%nat -> (p < n)%nat -> cell G j p = cell N j p) ->
  G = N.
Proof.
  intros [HG HGr] [HN HNr] Hc.
  apply (nth_ext _ _ [] []); [congruence|]. intros j Hj.
  apply (nth_ext _ _ [] []); [rewrite HGr, HNr; lia|]. intros p Hp.
  apply Hc; [lia | rewrite HGr in Hp; lia].
Qed.

Lemma swapped_cells (n : nat) (C G : list (list (list A))) (j p : nat) :
  swapped (n - 1) n C G -> (j < n)%nat -> (p < n)%nat ->
  cell G j p = cell C (source_of j p) p.
Proof.
  intros HG Hj Hp. rewrite (proj2 HG) by assumption.
  destruct (Nat.leb_spec 1 p), (Nat.leb_spec p (n - 1)); cbn [andb];
    try reflexivity; try lia.
  replace p with 0%nat by lia. unfold source_of.
  destruct (Nat.eqb_spec j 0) as [->|_]; reflexivity.
Qed.

Section Batches.

Variable xy : list (list A).
Variable batch : Z.
Hypothesis xy_not_empty : xy <> [].
Hypothesis xy_lengths : Forall (fun v => Z.of_nat (length v) = batch) xy.

Let n := length xy.
Let nu := Z.of_nat n - 1.
Let gs := group_sizes batch nu.
Let sizes := map Z.to_nat gs.
Let offsets := 0 :: prefix_sums 0 gs.
Let C := map (pieces sizes) xy.

Local Lemma n_pos : (0 < n)%nat.
Proof. unfold n. destruct xy; [congruence | cbn; lia]. Qed.

Local Lemma batch_nonneg : 0 <= batch.
Proof.
  destruct xy as [|v l]; [congruence|].
  inversion xy_lengths; subst. lia.
Qed.

Local Lemma gs_facts :
  Forall (fun g => 0 <= g) gs /\ PyList.sum gs = batch /\ length gs = n /\
  length sizes = n /\ list_sum sizes = Z.to_nat batch.
Proof.
  pose proof n_pos. pose proof batch_nonneg.
  assert (Hg : Forall (fun g => 0 <= g) gs)
    by (apply group_sizes_nonneg; unfold nu; lia).
  assert (Hs : PyList.sum gs = batch) by (apply group_sizes_sum; unfold nu; lia).
  assert (Hl : length gs = n)
    by (unfold gs; rewrite group_sizes_length; unfold nu; lia).
  repeat split; try assumption.
  - unfold sizes. now rewrite length_map.
  - unfold sizes. pose proof (list_sum_to_nat gs Hg). lia.
Qed.

Local Lemma slices_of_batch (v : list A) :
  Z.of_nat (length v) = batch -> slices offsets n v = pieces sizes v.
Proof.
  intros Hv. destruct gs_facts as (Hg & Hs & Hl & _).
  unfold offsets, sizes. rewrite <- Hl.
  change 0 with (Z.of_nat 0). rewrite (slices_pieces gs v Hg 0%nat) by (cbn; lia).
  reflexivity.
Qed.

Local Lemma slices_of_input : map (slices offsets n) xy = C.
Proof.
  apply map_ext_in. intros v Hv. apply slices_of_batch.
  exact (proj1 (Forall_forall _ _) xy_lengths v Hv).
Qed.

Local Lemma cell_of_input (j p : nat) :
  (j < n)%nat -> (p < n)%nat ->
  cell C j p = nth p (pieces sizes (nth j xy [])) [] /\
  length (cell C j p) = nth p sizes 0%nat.
Proof.
  intros Hj Hp. unfold cell, C.
  rewrite (nth_indep _ [] (pieces sizes [])) by now rewrite length_map.
  rewrite map_nth. split; [reflexivity|].
  destruct gs_facts as (_ & _ & _ & _ & Hsum).
  assert (Hv : Z.of_nat (length (nth j xy [])) = batch)
    by (apply (proj1 (Forall_forall _ _) xy_lengths), nth_In; exact Hj).
  rewrite <- (map_nth (@length A) (pieces sizes (nth j xy [])) [] p).
  rewrite pieces_lengths by lia. reflexivity.
Qed.

Section Output.

Variable G : list (list (list A)).
Hypothesis G_swapped : swapped (n - 1) n C G.

Local Lemma cell_of_output (j p : nat) :
  (j < n)%nat -> (p < n)%nat -> cell G j p = cell C (source_of j p) p.
Proof.
  intros Hj Hp. now apply (swapped_cells n).
Qed.

Local Lemma row_lengths (j : nat) :
  (j < n)%nat -> map (@length A) (nth j G []) = sizes.
Proof.
  intros Hj. destruct G_swapped as [[HG Hr] _].
  destruct gs_facts as (_ & _ & _ & Hsz & _).
  apply (nth_ext _ _ 0%nat 0%nat); [rewrite length_map, Hr, Hsz; lia|].
  intros p Hp. rewrite length_map, Hr in Hp by exact Hj.
  change 0%nat with (length (@nil A)) at 1. rewrite map_nth.
  change (nth p (nth j G []) []) with (cell G j p). rewrite cell_of_output by assumption.
  apply cell_of_input; [apply source_of_bound|]; assumption.
Qed.

Local Lemma row_total (j : nat) :
  (j < n)%nat -> Z.of_nat (length (concat (nth j G []))) = batch.
Proof.
  intros Hj. rewrite length_concat_sum, row_lengths by exact Hj.
  destruct gs_facts as (_ & _ & _ & _ & ->). pose proof batch_nonneg. lia.
Qed.

Local Lemma slices_of_output (j : nat) :
  (j < n)%nat -> slices offsets n (concat (nth j G [])) = nth j G [].
Proof.
  intros Hj. rewrite slices_of_batch by (apply row_total; exact Hj).
  rewrite <- (row_lengths j Hj). apply pieces_concat.
Qed.

Local Lemma slices_of_outputs : map (slices offsets n) (map (@concat A) G) = G.
Proof.
  rewrite map_map. rewrite <- (map_id G) at 2. apply map_ext_in. intros row Hrow.
  destruct (In_nth G row [] Hrow) as (j & Hj & <-).
  apply slices_of_output. destruct G_swapped as [[HG _] _]. lia.
Qed.

End Output.

Local Lemma concat_of_input : map (@concat A) C = xy.
Proof.
  unfold C. rewrite map_map. rewrite <- (map_id xy) at 2.
  apply map_ext_in. intros v Hv.
  rewrite concat_pieces. destruct gs_facts as (_ & _ & _ & _ & ->).
  pose proof (proj1 (Forall_forall _ _) xy_lengths v Hv) as Hlen. cbn beta in Hlen.
  apply firstn_all2. lia.
Qed.

Lemma interleave_batches :
  exists G,
    swapped (n - 1) n C G /\
    interleave xy batch = Ok (map (@concat A) G) /\
    interleave (map (@concat A) G) batch = Ok xy.
Proof.
  destruct (interleave_run xy batch xy_not_empty) as (G & HG & E).
  fold n nu gs offsets in HG. rewrite slices_of_input in HG.
  exists G. split; [exact HG|]. split; [exact E|].
  assert (Hout : length (map (@concat A) G) = n)
    by (rewrite length_map; apply HG).
  destruct (interleave_run (map (@concat A) G) batch) as (G2 & HG2 & E2).
  { intros H. pose proof n_pos. rewrite H in Hout. cbn in Hout. lia. }
  rewrite Hout in HG2. fold n nu gs offsets in HG2.
  rewrite (slices_of_outputs G HG) in HG2.
  rewrite E2. f_equal. rewrite <- concat_of_input. f_equal.
  apply (square_ext n).
  - apply HG2.
  - unfold C. pose proof (slices_square offsets xy) as Hsq.
    fold n in Hsq. rewrite slices_of_input in Hsq. exact Hsq.
  - intros j p Hj Hp.
    rewrite (swapped_cells n G G2) by assumption.
    rewrite (swapped_cells n C G) by (try apply source_of_bound; assumption).
    now rewrite source_of_involutive.
Qed.

Lemma interleave_batches_groups :
  exists G,
    interleave_offsets batch nu = Ok offsets /\
    interleave xy batch = Ok (map (@concat A) G) /\
    length (map (@concat A) G) = n /\
    Forall (fun w => Z.of_nat (length w) = batch) (map (@concat A) G) /\
    forall j p, (j < n)%nat -> (p < n)%nat ->
      py_slice (nth j (map (@concat A) G) []) (nth p offsets 0) (nth (S p) offsets 0)
      = py_slice (nth (source_of j p) xy []) (nth p offsets 0) (nth (S p) offsets 0).
Proof.
  destruct interleave_batches as (G & HG & E & _).
  assert (Hlen : length G = n) by apply HG.
  exists G. split; [|split; [exact E|split; [|split]]].
  - pose proof n_pos.
    apply (interleave_offsets_closed_form_any batch nu). unfold nu. lia.
  - now rewrite length_map.
  - apply Forall_forall. intros w Hw. apply in_map_iff in Hw.
    destruct Hw as (row & <- & Hrow).
    destruct (In_nth G row [] Hrow) as (j & Hj & <-).
    apply (row_total G HG). lia.
  - intros j p Hj Hp.
    change (@nil A) with (concat (@nil (list A))) at 1. rewrite map_nth.
    rewrite <- !(slices_nth offsets n) by exact Hp.
    rewrite (slices_of_output G HG) by exact Hj.
    rewrite slices_of_batch
      by (apply (proj1 (Forall_forall _ _) xy_lengths), nth_In, source_of_bound; assumption).
    change (nth p (nth j G []) []) with (cell G j p).
    rewrite (swapped_cells n C G) by assumption.
    apply cell_of_input; [apply source_of_bound|]; assumption.
Qed.

End Batches.

(** On tensors of [batch] rows each, [interleave] returns tensors of
    [batch] rows each, and group [p] of the first one is group [p] of input
    [p], group [i] of output [i] is group [i] of the first input, and every
    other group stays where it was; the groups are those delimited by
    [interleave_offsets]. *)
Theorem interleave_exchanges_groups (xy : list (list A)) (batch : Z) :
  xy <> [] ->
  Forall (fun v => Z.of_nat (length v) = batch) xy ->
  exists offsets out,
    interleave_offsets batch (Z.of_nat (length xy) - 1) = Ok offsets /\
    interleave xy batch = Ok out /\
    length out = length xy /\
    Forall (fun w => Z.of_nat (length w) = batch) out /\
    forall j p, (j < length xy)%nat -> (p < length xy)%nat ->
      py_slice (nth j out []) (nth p offsets 0) (nth (S p) offsets 0)
      = py_slice (nth (source_of j p) xy []) (nth p offsets 0) (nth (S p) offsets 0).
Proof.
  intros Hxy Hlen.
  destruct (interleave_batches_groups xy batch Hxy Hlen) as (G & H).
  eexists; eexists. exact H.
Qed.

(** On tensors of [batch] rows each, [interleave] is its own inverse. *)
Theorem interleave_involution (xy : list (list A)) (batch : Z) :
  xy <> [] ->
  Forall (fun v => Z.of_nat (length v) = batch) xy ->
  exists out, interleave xy batch = Ok out /\ interleave out batch = Ok xy.
Proof.
  intros Hxy Hlen.
  destruct (interleave_batches xy batch Hxy Hlen) as (G & _ & E1 & E2).
  exists (map (@concat A) G). now split.
Qed.

End Interleave.

Lemma interleave_exchanges_groups_witness :
  [[1; 2; 3; 4; 5]; [11; 12; 13; 14; 15]; [21; 22; 23; 24; 25]] <> [] /\
  Forall (fun v => Z.of_nat (length v) = 5)
    [[1; 2; 3; 4; 5]; [11; 12; 13; 14; 15]; [21; 22; 23; 24; 25]] /\
  exists offsets out,
    interleave_offsets 5 (Z.of_nat 3 - 1) = Ok offsets /\
    interleave [[1; 2; 3; 4; 5]; [11; 12; 13; 14; 15]; [21; 22; 23; 24; 25]] 5 = Ok out /\
    length out = 3%nat /\
    Forall (fun w => Z.of_nat (length w) = 5) out /\
    forall j p, (j < 3)%nat -> (p < 3)%nat ->
      py_slice (nth j out []) (nth p offsets 0) (nth (S p) offsets 0)
      = py_slice
          (nth (source_of j p)
             [[1; 2; 3; 4; 5]; [11; 12; 13; 14; 15]; [21; 22; 23; 24; 25]] [])
          (nth p offsets 0) (nth (S p) offsets 0).
Proof.
  assert (H : Forall (fun v : list Z => Z.of_nat (length v) = 5)
                [[1; 2; 3; 4; 5]; [11; 12; 13; 14; 15]; [21; 22; 23; 24; 25]])
    by (repeat constructor).
  split; [discriminate|]. split; [exact H|].
  apply (interleave_exchanges_groups
           [[1; 2; 3; 4; 5]; [11; 12; 13; 14; 15]; [21; 22; 23; 24; 25]] 5);
    [discriminate | exact H].
Defined.

Lemma interleave_involution_witness :
  [[1; 2; 3]; [4; 5; 6]] <> [] /\
  Forall (fun v => Z.of_nat (length v) = 3) [[1; 2; 3]; [4; 5; 6]] /\
  exists out,
    interleave [[1; 2; 3]; [4; 5; 6]] 3 = Ok out /\
    interleave out 3 = Ok [[1; 2; 3]; [4; 5; 6]].
Proof.
  assert (H : Forall (fun v : list Z => Z.of_nat (length v) = 3) [[1; 2; 3]; [4; 5; 6]])
    by (repeat constructor).
  split; [discriminate|]. split; [exact H|].
  apply (interleave_involution [[1; 2; 3]; [4; 5; 6]] 3); [discriminate | exact H].
Defined.

Example interleave_runs :
  interleave [[1; 2; 3; 4; 5]; [11; 12; 13; 14; 15]; [21; 22; 23; 24; 25]] 5
  = Ok [[1; 12; 13; 24; 25]; [11; 2; 3; 14; 15]; [21; 22; 23; 4; 5]].
Proof. vm_compute. reflexivity. Qed.

(** ** [off_diagonal] *)

Section OffDiagonal.

Context {A : Type}.

Lemma py_slice_but_last (l : list A) : py_slice l 0 (-1) = removelast l.
Proof.
  unfold py_slice, slice_bound. cbn [Z.ltb Z.compare Z.to_nat Nat.min skipn].
  rewrite Nat.sub_0_r.
  replace (Z.to_nat (Z.of_nat (length l) + -1)) with (length l - 1)%nat by lia.
  destruct l as [|x l] using rev_ind; [reflexivity|].
  rewrite removelast_last, length_app. cbn [length].
  replace (length l + 1 - 1)%nat with (length l + 0)%nat by lia.
  rewrite firstn_app_2. cbn. apply app_nil_r.
Qed.

Lemma py_slice_from_one (l : list A) : py_slice l 1 (Z.of_nat (length l)) = skipn 1 l.
Proof.
  unfold py_slice, slice_bound.
  destruct (Z.ltb_spec (Z.of_nat (length l)) 0); [lia|].
  cbn [Z.ltb Z.compare]. rewrite Nat2Z.id, Nat.min_id.
  destruct l as [|x l]; [reflexivity|].
  change (Z.to_nat 1) with 1%nat. cbn [length Nat.min skipn].
  replace (Nat.min 1 (S (length l))) with 1%nat by lia.
  cbn [skipn]. replace (S (length l) - 1)%nat with (length l) by lia.
  apply firstn_all.
Qed.

Lemma firstn_removelast (m : nat) (l : list A) :
  (m < length l)%nat -> firstn m (removelast l) = firstn m l.
Proof.
  revert m. induction l as [|x l IH]; intros m Hm; [cbn in Hm; lia|].
  destruct l as [|y l].
  - cbn in Hm. replace m with 0%nat by lia. reflexivity.
  - destruct m as [|m]; [reflexivity|].
    change (removelast (x :: y :: l)) with (x :: removelast (y :: l)).
    cbn [firstn]. f_equal. apply IH. cbn in *. lia.
Qed.

Lemma skipn_removelast (m : nat) (l : list A) :
  (m < length l)%nat -> skipn m (removelast l) = removelast (skipn m l).
Proof.
  revert m. induction l as [|x l IH]; intros m Hm; [cbn in Hm; lia|].
  destruct m as [|m]; [reflexivity|].
  destruct l as [|y l]; [cbn in Hm; lia|].
  change (removelast (x :: y :: l)) with (x :: removelast (y :: l)).
  cbn [skipn]. apply IH. cbn in *. lia.
Qed.

Lemma length_concat_rows (n : nat) (rows : list (list A)) :
  Forall (fun row => length row = n) rows ->
  length (concat rows) = (length rows * n)%nat.
Proof.
  induction 1 as [|row rows Hrow _ IH]; [reflexivity|].
  cbn [concat length]. rewrite length_app, IH, Hrow. lia.
Qed.

Lemma without_diagonal_length (n : nat) (rows : list (list A)) :
  Forall (fun row => length row = n) rows ->
  forall k, (k + length rows <= n)%nat ->
    length (without_diagonal k rows) = (length rows * (n - 1))%nat.
Proof.
  induction 1 as [|row rows Hrow _ IH]; intros k Hk; [reflexivity|].
  cbn [length] in Hk. cbn [without_diagonal length].
  rewrite !length_app, length_firstn, length_skipn, IH, Hrow by lia. lia.
Qed.

(** The chunks of [n + 1] entries start on the diagonal: one round of the
    cutting, started at the diagonal entry of row [k]. *)
Lemma chunks_start_on_diagonal (n : nat) (rest : list (list A)) :
  Forall (fun row => length row = n) rest ->
  forall (row : list A) (k : nat),
    length row = n -> (k + 1 + length rest = n)%nat ->
    concat (map (skipn 1)
              (pieces (repeat (S n) (length rest))
                 (removelast (skipn k row ++ concat rest))))
    = skipn (S k) row ++ without_diagonal (S k) rest.
Proof.
  induction 1 as [|row' rest Hrow' Hrest IH]; intros row k Hrow Hk.
  - cbn [length] in Hk. cbn [length repeat pieces map concat without_diagonal].
    rewrite skipn_all2 by lia. reflexivity.
  - cbn [length] in Hk. cbn [length repeat pieces map concat without_diagonal].
    assert (Hlen : (S n < length (skipn k row ++ concat (row' :: rest)))%nat).
    { cbn [concat]. rewrite !length_app, length_skipn, Hrow, Hrow'. lia. }
    rewrite firstn_removelast, skipn_removelast by exact Hlen.
    cbn [concat].
    assert (Hk' : length (skipn k row) = (n - k)%nat)
      by (rewrite length_skipn; lia).
    rewrite (firstn_app (S n)), (skipn_app (S n)), Hk'.
    rewrite (firstn_all2 (n := S n) (skipn k row)) by lia.
    rewrite (skipn_all2 (n := S n) (skipn k row)) by lia. cbn [app].
    replace (S n - (n - k))%nat with (S k) by lia.
    rewrite (firstn_app (S k)), (skipn_app (S k)), Hrow'.
    replace (S k - n)%nat with 0%nat by lia.
    rewrite firstn_O, skipn_O, app_nil_r.
    rewrite (IH row' (S k) Hrow') by lia.
    rewrite (skipn_app 1), skipn_skipn, Hk'. cbn [Nat.add].
    replace (1 - (n - k))%nat with 0%nat by lia.
    rewrite skipn_O. now rewrite <- !app_assoc.
Qed.

(** [off_diagonal] rejects a matrix that is not square, and on a square one
    returns the rows one after the other, each without its entry on the
    diagonal: [n * (n - 1)] entries. *)
Theorem off_diagonal_rows (x : matrix A) (rows : list (list A)) :
  length rows = nrows x ->
  Forall (fun row => length row = ncols x) rows ->
  flat x = concat rows ->
  if (nrows x =? ncols x)%nat
  then off_diagonal x = Ok (without_diagonal 0 rows) /\
       length (without_diagonal 0 rows) = (nrows x * (nrows x - 1))%nat
  else off_diagonal x = Raise AssertionError.
Proof.
  intros Hn Hrows Hflat. unfold off_diagonal.
  destruct (Nat.eqb_spec (nrows x) (ncols x)) as [Hsq|Hne].
  2:{ destruct (Z.eqb_spec (Z.of_nat (nrows x)) (Z.of_nat (ncols x))); [lia | reflexivity]. }
  rewrite <- Hsq in *. rewrite Z.eqb_refl. cbn [negb].
  split; [|rewrite <- Hn; apply without_diagonal_length; [now rewrite Hn | lia]].
  rewrite py_slice_but_last, Hflat.
  unfold view.
  assert (Hnumel : Z.of_nat (length (removelast (concat rows)))
                   = Z.of_nat (nrows x) * Z.of_nat (nrows x) - 1
                     \/ rows = []).
  { destruct rows as [|row rest]; [now right|left].
    rewrite removelast_firstn_len, length_firstn, (length_concat_rows (nrows x)), Hn
      by exact Hrows.
    cbn [length] in Hn. nia. }
  destruct rows as [|row rest].
  - cbn [length] in Hn. rewrite <- Hn. reflexivity.
  - destruct Hnumel as [Hnumel|]; [|discriminate].
    cbn [length] in Hn.
    unfold view_shape.
    destruct (Z.ltb_spec (Z.of_nat (nrows x) - 1) (-1)); [lia|].
    destruct (Z.ltb_spec (Z.of_nat (nrows x) + 1) (-1)); [lia|]. cbn [orb].
    destruct (Z.eqb_spec (Z.of_nat (nrows x) - 1) (-1)); [lia|]. cbn [andb].
    destruct (Z.eqb_spec (Z.of_nat (nrows x) + 1) (-1)); [lia|].
    rewrite Hnumel.
    destruct (Z.eqb_spec ((Z.of_nat (nrows x) - 1) * (Z.of_nat (nrows x) + 1))
                (Z.of_nat (nrows x) * Z.of_nat (nrows x) - 1)) as [_|Hne]; [|lia].
    cbn [rbind fst snd]. f_equal.
    replace (Z.to_nat (Z.of_nat (nrows x) + 1)) with (S (nrows x)) by lia.
    replace (Z.to_nat (Z.of_nat (nrows x) - 1)) with (length rest) by lia.
    inversion Hrows as [|? ? Hrow Hrest]; subst.
    rewrite (map_ext _ (skipn 1) py_slice_from_one).
    cbn [concat without_diagonal firstn app].
    rewrite <- (skipn_O row) at 1.
    apply (chunks_start_on_diagonal (nrows x)); [exact Hrest | exact Hrow | lia].
Qed.

End OffDiagonal.

Lemma off_diagonal_rows_witness :
  let x := {| nrows := 3; ncols := 3; flat := [1; 2; 3; 4; 5; 6; 7; 8; 9] |} in
  let rows := [[1; 2; 3]; [4; 5; 6]; [7; 8; 9]] in
  length rows = nrows x /\
  Forall (fun row => length row = ncols x) rows /\
  flat x = concat rows /\
  off_diagonal x = Ok [2; 3; 4; 6; 7; 8] /\
  length (without_diagonal 0 rows) = 6%nat.
Proof.
  intros x rows.
  assert (H : Forall (fun row : list Z => length row = ncols x) rows)
    by (repeat constructor).
  split; [reflexivity|]. split; [exact H|]. split; [reflexivity|].
  exact (off_diagonal_rows x rows eq_refl H eq_refl).
Defined.

(** ** The labelled split of [load_data_train] *)

Section CifarSplit.

Context {D Img : Type}.

Lemma py_item_nth_error {B : Type} (l : list B) (k : Z) (v : B) :
  0 <= k -> nth_error l (Z.to_nat k) = Some v -> py_item l k = Ok v.
Proof.
  intros Hk Hv.
  assert (Hlt : (Z.to_nat k < length l)%nat) by (apply nth_error_Some; congruence).
  unfold py_item, PyList.position.
  replace ((0 <=? k) && (k <? Z.of_nat (length l))) with true
    by (symmetry; apply andb_true_iff; split; [apply Z.leb_le | apply Z.ltb_lt]; lia).
  now rewrite Hv.
Qed.

Lemma py_slice_prefix {B : Type} (l : list B) (k : Z) :
  0 <= k -> py_slice l 0 k = firstn (Z.to_nat k) l.
Proof.
  intros Hk. unfold py_slice, slice_bound.
  destruct (Z.ltb_spec k 0); [lia|]. cbn [Z.ltb Z.compare Z.to_nat Nat.min skipn].
  rewrite Nat.sub_0_r.
  destruct (Nat.le_ge_cases (Z.to_nat k) (length l)).
  - now rewrite Nat.min_l.
  - rewrite Nat.min_r, !firstn_all2 by lia. reflexivity.
Qed.

Lemma py_slice_suffix {B : Type} (l : list B) (k : Z) :
  0 <= k -> py_slice l k (Z.of_nat (length l)) = skipn (Z.to_nat k) l.
Proof.
  intros Hk. unfold py_slice, slice_bound.
  destruct (Z.ltb_spec k 0); [lia|].
  destruct (Z.ltb_spec (Z.of_nat (length l)) 0); [lia|].
  rewrite Nat2Z.id, Nat.min_id.
  destruct (Nat.le_ge_cases (Z.to_nat k) (length l)).
  - rewrite Nat.min_l by lia. apply firstn_all2. rewrite length_skipn. lia.
  - rewrite Nat.min_r, Nat.sub_diag, skipn_all, skipn_all2 by lia. reflexivity.
Qed.

(** *** The positions of a class *)

Lemma where_from_in (labels : list Z) (i : Z) :
  forall k x,
    In x (where_from k labels i) <->
    k <= x /\ nth_error labels (Z.to_nat (x - k)) = Some i.
Proof.
  induction labels as [|l labels IH]; intros k x; cbn [where_from].
  - split; [intros [] | intros [_ H]]. now destruct (Z.to_nat (x - k)).
  - assert (Hstep : k + 1 <= x ->
              nth_error (l :: labels) (Z.to_nat (x - k))
              = nth_error labels (Z.to_nat (x - (k + 1)))).
    { intros Hx. replace (Z.to_nat (x - k)) with (S (Z.to_nat (x - (k + 1)))) by lia.
      reflexivity. }
    destruct (Z.eqb_spec l i) as [->|Hne]; cbn [In]; rewrite IH.
    + split.
      * intros [<- | [Hx Hn]].
        -- split; [lia|]. now rewrite Z.sub_diag.
        -- split; [lia|]. now rewrite Hstep.
      * intros [Hx Hn]. destruct (Z.eq_dec k x) as [E|E]; [now left|right].
        split; [lia|]. rewrite <- Hstep by lia. exact Hn.
    + split.
      * intros [Hx Hn]. split; [lia|]. now rewrite Hstep.
      * intros [Hx Hn]. destruct (Z.eq_dec k x) as [<-|E].
        -- rewrite Z.sub_diag in Hn. cbn in Hn. congruence.
        -- split; [lia|]. rewrite <- Hstep by lia. exact Hn.
Qed.

Lemma where_from_nodup (labels : list Z) (i : Z) :
  forall k, NoDup (where_from k labels i).
Proof.
  induction labels as [|l labels IH]; intros k; cbn [where_from]; [constructor|].
  destruct (l =? i); [|apply IH].
  constructor; [|apply IH]. intros Hin. apply where_from_in in Hin. lia.
Qed.

Lemma where_from_length (labels : list Z) (i : Z) :
  forall k, length (where_from k labels i) = count_occ Z.eq_dec labels i.
Proof.
  induction labels as [|l labels IH]; intros k; cbn [where_from count_occ]; [reflexivity|].
  destruct (Z.eqb_spec l i), (Z.eq_dec l i); try congruence; cbn [length]; now rewrite IH.
Qed.

(** *** One class, then all of them *)

Lemma labels_of_class (labels : list Z) (i : Z) (inds : list Z) :
  (forall k, In k inds -> 0 <= k /\ nth_error labels (Z.to_nat k) = Some i) ->
  comprehension (fun k => py_item labels k) inds = Ok (repeat i (length inds)) /\
  Forall2 (fun k l => 0 <= k /\ nth_error labels (Z.to_nat k) = Some l)
    inds (repeat i (length inds)).
Proof.
  induction inds as [|k inds IH]; intros H; [split; [reflexivity | constructor]|].
  destruct (H k (or_introl eq_refl)) as [Hk Hn].
  destruct IH as [IH1 IH2]; [intros; apply H; now right|].
  cbn [comprehension length repeat].
  rewrite (py_item_nth_error labels k i Hk Hn). cbn [rbind]. rewrite IH1. cbn [rbind].
  split; [reflexivity|]. constructor; [now split | exact IH2].
Qed.

Lemma data_of_indices (image : D -> Img) (data : list D) (inds : list Z) :
  (forall k, In k inds -> 0 <= k < Z.of_nat (length data)) ->
  exists xs,
    comprehension (fun k => rbind (py_item data k) (fun d => Ok (image d))) inds = Ok xs /\
    Forall2 (fun k x => 0 <= k /\ exists d, nth_error data (Z.to_nat k) = Some d /\ x = image d)
      inds xs.
Proof.
  induction inds as [|k inds IH]; intros H; [exists []; split; [reflexivity | constructor]|].
  destruct (H k (or_introl eq_refl)) as [Hk Hlt].
  destruct IH as (xs & IH1 & IH2); [intros; apply H; now right|].
  destruct (nth_error data (Z.to_nat k)) as [d|] eqn:Hd.
  2:{ apply nth_error_None in Hd. lia. }
  exists (image d :: xs). cbn [comprehension].
  rewrite (py_item_nth_error data k d Hk Hd). cbn [rbind]. rewrite IH1. cbn [rbind].
  split; [reflexivity|]. constructor; [|exact IH2]. split; [exact Hk|]. now exists d.
Qed.

Section Split.

Variable shuffle : Z -> list Z -> list Z.
Variable image : D -> Img.
Variable data : list D.
Variable labels : list Z.
Variable n_labels : Z.

Hypothesis shuffle_permutes : forall i l, Permutation (shuffle i l) l.
Hypothesis same_length : length data = length labels.
Hypothesis n_labels_nonneg : 0 <= n_labels.

Let shuffled (c : Z) : list Z := shuffle c (np_where_eq labels c).
Let chosen (c : Z) : list Z := firstn (Z.to_nat n_labels) (shuffled c).
Let others (c : Z) : list Z := skipn (Z.to_nat n_labels) (shuffled c).

Local Lemma shuffled_in (c k : Z) :
  In k (shuffled c) <-> 0 <= k /\ nth_error labels (Z.to_nat k) = Some c.
Proof.
  unfold shuffled, np_where_eq. split.
  - intros H. apply (Permutation_in _ (shuffle_permutes c _)) in H.
    apply where_from_in in H. now rewrite Z.sub_0_r in H.
  - intros H. apply (Permutation_in _ (Permutation_sym (shuffle_permutes c _))).
    apply where_from_in. now rewrite Z.sub_0_r.
Qed.

Local Lemma shuffled_length (c : Z) :
  length (shuffled c) = count_occ Z.eq_dec labels c.
Proof.
  unfold shuffled, np_where_eq.
  rewrite (Permutation_length (shuffle_permutes c _)). apply where_from_length.
Qed.

Local Lemma part_of_class (c : Z) (inds : list Z) :
  incl inds (shuffled c) ->
  (forall k, In k inds -> 0 <= k /\ nth_error labels (Z.to_nat k) = Some c) /\
  (forall k, In k inds -> 0 <= k < Z.of_nat (length data)).
Proof.
  intros Hincl. split; intros k Hk; apply Hincl, shuffled_in in Hk; [exact Hk|].
  destruct Hk as [Hk Hn]. split; [exact Hk|].
  assert (Z.to_nat k < length labels)%nat by (apply nth_error_Some; congruence). lia.
Qed.

Local Lemma chosen_incl (c : Z) : incl (chosen c) (shuffled c).
Proof.
  intros k Hk. rewrite <- (firstn_skipn (Z.to_nat n_labels) (shuffled c)).
  apply in_or_app. now left.
Qed.

Local Lemma others_incl (c : Z) : incl (others c) (shuffled c).
Proof.
  intros k Hk. rewrite <- (firstn_skipn (Z.to_nat n_labels) (shuffled c)).
  apply in_or_app. now right.
Qed.

Local Lemma split_class_run (acc : labelled_split Img) (c : Z) :
  exists dx du,
    split_class shuffle image data labels n_labels acc c
    = Ok {| data_x := data_x acc ++ dx;
            label_x := label_x acc ++ repeat c (length (chosen c));
            data_u := data_u acc ++ du;
            label_u := label_u acc ++ repeat c (length (others c)) |} /\
    Forall2 (fun k x => 0 <= k /\ exists d, nth_error data (Z.to_nat k) = Some d /\ x = image d)
      (chosen c) dx /\
    Forall2 (fun k x => 0 <= k /\ exists d, nth_error data (Z.to_nat k) = Some d /\ x = image d)
      (others c) du.
Proof.
  destruct (part_of_class c (chosen c) (chosen_incl c)) as [Hlx Hdx].
  destruct (part_of_class c (others c) (others_incl c)) as [Hlu Hdu].
  destruct (data_of_indices image data (chosen c) Hdx) as (dx & Edx & Fdx).
  destruct (data_of_indices image data (others c) Hdu) as (du & Edu & Fdu).
  exists dx, du. split; [|now split].
  unfold split_class. fold (shuffled c).
  rewrite py_slice_prefix, py_slice_suffix by exact n_labels_nonneg.
  fold (chosen c) (others c).
  rewrite Edx. cbn [rbind].
  rewrite (proj1 (labels_of_class labels c (chosen c) Hlx)). cbn [rbind].
  rewrite Edu. cbn [rbind].
  rewrite (proj1 (labels_of_class labels c (others c) Hlu)). cbn [rbind].
  reflexivity.
Qed.

Local Lemma split_classes_run (cs : list Z) :
  forall acc : labelled_split Img,
  exists dx du,
    for_each (split_class shuffle image data labels n_labels) cs acc
    = Ok {| data_x := data_x acc ++ dx;
            label_x := label_x acc ++ flat_map (fun c => repeat c (length (chosen c))) cs;
            data_u := data_u acc ++ du;
            label_u := label_u acc ++ flat_map (fun c => repeat c (length (others c))) cs |} /\
    Forall2 (fun k x => 0 <= k /\ exists d, nth_error data (Z.to_nat k) = Some d /\ x = image d)
      (flat_map chosen cs) dx /\
    Forall2 (fun k x => 0 <= k /\ exists d, nth_error data (Z.to_nat k) = Some d /\ x = image d)
      (flat_map others cs) du.
Proof.
  induction cs as [|c cs IH]; intros acc.
  - exists [], []. cbn [for_each flat_map]. rewrite !app_nil_r.
    destruct acc. repeat split; constructor.
  - destruct (split_class_run acc c) as (dx & du & E & Fx & Fu).
    cbn [for_each flat_map]. rewrite E. cbn [rbind].
    destruct (IH {| data_x := data_x acc ++ dx;
                    label_x := label_x acc ++ repeat c (length (chosen c));
                    data_u := data_u acc ++ du;
                    label_u := label_u acc ++ repeat c (length (others c)) |})
      as (dx' & du' & E' & Fx' & Fu').
    exists (dx ++ dx'), (du ++ du'). rewrite E'. cbn [data_x label_x data_u label_u].
    rewrite <- !app_assoc. split; [reflexivity|].
    split; now apply Forall2_app.
Qed.

Local Lemma labels_aligned (part : Z -> list Z) (cs : list Z) :
  (forall c, incl (part c) (shuffled c)) ->
  Forall2 (fun k l => 0 <= k /\ nth_error labels (Z.to_nat k) = Some l)
    (flat_map part cs) (flat_map (fun c => repeat c (length (part c))) cs).
Proof.
  intros Hpart. induction cs as [|c cs IH]; [constructor|].
  cbn [flat_map]. apply Forall2_app; [|exact IH].
  apply labels_of_class, part_of_class, Hpart.
Qed.

Local Lemma chosen_length (c : Z) :
  length (chosen c) = Nat.min (Z.to_nat n_labels) (count_occ Z.eq_dec labels c).
Proof. unfold chosen. now rewrite length_firstn, shuffled_length. Qed.

Local Lemma others_length (c : Z) :
  length (others c) = (count_occ Z.eq_dec labels c - Z.to_nat n_labels)%nat.
Proof. unfold others. now rewrite length_skipn, shuffled_length. Qed.

Local Lemma parts_permute (cs : list Z) :
  Permutation (flat_map chosen cs ++ flat_map others cs)
    (flat_map (fun c => np_where_eq labels c) cs).
Proof.
  induction cs as [|c cs IH]; [constructor|].
  cbn [flat_map]. rewrite <- app_assoc.
  rewrite (Permutation_app_swap_app (flat_map chosen cs)).
  rewrite app_assoc. apply Permutation_app; [|exact IH].
  unfold chosen, others. rewrite firstn_skipn. apply shuffle_permutes.
Qed.

Local Lemma positions_nodup (cs : list Z) :
  NoDup cs -> NoDup (flat_map (fun c => np_where_eq labels c) cs).
Proof.
  induction 1 as [|c cs Hc _ IH]; [constructor|].
  cbn [flat_map]. apply NoDup_app; [apply where_from_nodup | exact IH|].
  intros k Hk Hin. apply in_flat_map in Hin. destruct Hin as (c' & Hc' & Hk').
  apply where_from_in in Hk, Hk'.
  assert (c = c') by (destruct Hk as [_ Hk], Hk' as [_ Hk']; congruence).
  subst. contradiction.
Qed.

Local Lemma parts_partition (n : Z) :
  NoDup (flat_map chosen (PyList.range n) ++ flat_map others (PyList.range n)) /\
  forall k,
    In k (flat_map chosen (PyList.range n) ++ flat_map others (PyList.range n)) <->
    0 <= k /\ exists l, nth_error labels (Z.to_nat k) = Some l /\ 0 <= l < n.
Proof.
  assert (Hrange : forall c, In c (PyList.range n) <-> 0 <= c < n).
  { intros c. unfold PyList.range. rewrite in_map_iff. split.
    - intros (j & <- & Hj). apply in_seq in Hj. lia.
    - intros Hc. exists (Z.to_nat c). split; [lia|]. apply in_seq. lia. }
  split.
  - apply (Permutation_NoDup (Permutation_sym (parts_permute _))).
    apply positions_nodup. unfold PyList.range.
    apply Finite.Injective_map_NoDup; [intros a b; lia | apply seq_NoDup].
  - intros k. split.
    + intros Hk. apply (Permutation_in _ (parts_permute _)) in Hk.
      apply in_flat_map in Hk. destruct Hk as (c & Hc & Hk).
      apply where_from_in in Hk. rewrite Z.sub_0_r in Hk.
      split; [apply Hk|]. exists c. split; [apply Hk | now apply Hrange].
    + intros (Hk & l & Hl & Hin).
      apply (Permutation_in _ (Permutation_sym (parts_permute _))).
      apply in_flat_map. exists l. split; [now apply Hrange|].
      apply where_from_in. now rewrite Z.sub_0_r.
Qed.

Lemma split_run (n : Z) :
  exists inds_x inds_u s,
    for_each (split_class shuffle image data labels n_labels) (PyList.range n)
      {| data_x := []; label_x := []; data_u := []; label_u := [] |} = Ok s /\
    label_x s
    = by_class n (fun c => Nat.min (Z.to_nat n_labels) (count_occ Z.eq_dec labels c)) /\
    label_u s
    = by_class n (fun c => (count_occ Z.eq_dec labels c - Z.to_nat n_labels)%nat) /\
    drawn image data labels inds_x (data_x s) (label_x s) /\
    drawn image data labels inds_u (data_u s) (label_u s) /\
    NoDup (inds_x ++ inds_u) /\
    forall k,
      In k (inds_x ++ inds_u) <->
      0 <= k /\ exists l, nth_error labels (Z.to_nat k) = Some l /\ 0 <= l < n.
Proof.
  destruct (split_classes_run (PyList.range n)
              {| data_x := []; label_x := []; data_u := []; label_u := [] |})
    as (dx & du & E & Fx & Fu).
  cbn [data_x label_x data_u label_u app] in E.
  exists (flat_map chosen (PyList.range n)), (flat_map others (PyList.range n)).
  eexists. split; [exact E|]. cbn [data_x label_x data_u label_u].
  split; [|split; [|split; [|split]]].
  - unfold by_class. apply flat_map_ext. intros c. now rewrite chosen_length.
  - unfold by_class. apply flat_map_ext. intros c. now rewrite others_length.
  - split; [exact Fx | apply labels_aligned, chosen_incl].
  - split; [exact Fu | apply labels_aligned, others_incl].
  - apply parts_partition.
Qed.

End Split.

Lemma permitted_L_positive (dataset : cifar) (L : Z) :
  existsb (Z.eqb L) (permitted_L dataset) = true ->
  0 < L /\ 0 <= L / n_class dataset /\
  (n_class dataset * (L / n_class dataset) = L <-> ~ (dataset = CIFAR100 /\ L = 25)).
Proof.
  intros H. apply existsb_exists in H. destruct H as (v & Hin & Hv).
  apply Z.eqb_eq in Hv. subst v.
  assert (Hpos : 0 < L).
  { destruct dataset; cbn [permitted_L In] in Hin;
      repeat (destruct Hin as [<- | Hin]; [lia|]); contradiction. }
  split; [exact Hpos|]. split; [apply Z.div_pos; destruct dataset; cbn; lia|].
  destruct dataset; cbn [permitted_L In] in Hin;
    repeat (destruct Hin as [<- | Hin];
            [first [ split; [intros _ [? ?]; discriminate | intros _; reflexivity]
                   | split; [intros H; vm_compute in H; discriminate
                            | intros H; exfalso; apply H; split; reflexivity] ]|]);
    contradiction.
Qed.

Lemma repeats_length (copies : Z -> nat) (k : nat) (cs : list Z) :
  (forall c, In c cs -> copies c = k) ->
  length (flat_map (fun c => repeat c (copies c)) cs) = (length cs * k)%nat.
Proof.
  induction cs as [|c cs IH]; intros H; [reflexivity|].
  cbn [flat_map length]. rewrite length_app, repeat_length, IH.
  - rewrite (H c) by now left. lia.
  - intros c' Hc'. apply H. now right.
Qed.

Lemma by_class_length (n : Z) (copies : Z -> nat) (k : nat) :
  (forall c, 0 <= c < n -> copies c = k) ->
  length (by_class n copies) = (Z.to_nat n * k)%nat.
Proof.
  intros H. unfold by_class. rewrite (repeats_length copies k).
  - unfold PyList.range. now rewrite length_map, length_seq.
  - intros c Hc. apply H. unfold PyList.range in Hc.
    apply in_map_iff in Hc. destruct Hc as (j & <- & Hj). apply in_seq in Hj. lia.
Qed.

(** [load_data_train] fails its assertion unless [L] is one of the numbers
    permitted for the data set.  Otherwise it returns, and whatever the
    shuffles: the labelled labels are, class after class, at most
    [L // n_class] copies of the class, the unlabelled labels the remaining
    copies; the images and labels of each part are drawn at the same
    positions of [data] and [labels]; and every position whose label is a
    class occurs once, in one of the two parts. *)
Theorem load_data_train_split (shuffle : Z -> list Z -> list Z) (image : D -> Img)
    (L : Z) (dataset : cifar) (data : list D) (labels : list Z) :
  (forall i l, Permutation (shuffle i l) l) ->
  length data = length labels ->
  if existsb (Z.eqb L) (permitted_L dataset)
  then
    exists inds_x inds_u s,
      load_data_train shuffle image L dataset data labels = Ok s /\
      label_x s
      = by_class (n_class dataset)
          (fun c => Nat.min (Z.to_nat (L / n_class dataset)) (count_occ Z.eq_dec labels c)) /\
      label_u s
      = by_class (n_class dataset)
          (fun c => (count_occ Z.eq_dec labels c - Z.to_nat (L / n_class dataset))%nat) /\
      drawn image data labels inds_x (data_x s) (label_x s) /\
      drawn image data labels inds_u (data_u s) (label_u s) /\
      NoDup (inds_x ++ inds_u) /\
      forall k,
        In k (inds_x ++ inds_u) <->
        0 <= k /\
        exists l, nth_error labels (Z.to_nat k) = Some l /\ 0 <= l < n_class dataset
  else load_data_train shuffle image L dataset data labels = Raise AssertionError.
Proof.
  intros Hperm Hlen. unfold load_data_train.
  destruct (existsb (Z.eqb L) (permitted_L dataset)) eqn:HL; [|reflexivity].
  cbn [negb]. apply split_run; [exact Hperm | exact Hlen|].
  now apply permitted_L_positive.
Qed.

(** When every class has at least [L // n_class] samples, the labelled part
    holds [n_class * (L // n_class)] of them.  That is the [L] asked for, for
    every permitted [L] but one: with CIFAR100 and [L = 25] the labelled part
    is empty. *)
Theorem load_data_train_budget (shuffle : Z -> list Z -> list Z) (image : D -> Img)
    (L : Z) (dataset : cifar) (data : list D) (labels : list Z) :
  (forall i l, Permutation (shuffle i l) l) ->
  length data = length labels ->
  existsb (Z.eqb L) (permitted_L dataset) = true ->
  (forall c, 0 <= c < n_class dataset ->
     L / n_class dataset <= Z.of_nat (count_occ Z.eq_dec labels c)) ->
  exists s,
    load_data_train shuffle image L dataset data labels = Ok s /\
    length (data_x s) = length (label_x s) /\
    Z.of_nat (length (label_x s)) = n_class dataset * (L / n_class dataset) /\
    (Z.of_nat (length (label_x s)) = L <-> ~ (dataset = CIFAR100 /\ L = 25)).
Proof.
  intros Hperm Hlen HL Hcount.
  destruct (permitted_L_positive dataset L HL) as (_ & Hk & Hexact).
  destruct (split_run shuffle image data labels (L / n_class dataset) Hperm Hlen Hk
              (n_class dataset)) as (inds_x & _ & s & E & Hlx & _ & [Hdx Hax] & _).
  assert (Hsize : Z.of_nat (length (label_x s)) = n_class dataset * (L / n_class dataset)).
  { rewrite Hlx, (by_class_length _ _ (Z.to_nat (L / n_class dataset))).
    - destruct dataset; cbn [n_class] in *; lia.
    - intros c Hc. specialize (Hcount c Hc). lia. }
  exists s. unfold load_data_train. rewrite HL. cbn [negb].
  split; [exact E|]. split; [|split; [exact Hsize|]].
  - rewrite <- (Forall2_length Hdx). apply (Forall2_length Hax).
  - rewrite Hsize. exact Hexact.
Qed.

End CifarSplit.

Lemma load_data_train_split_witness :
  (forall (i : Z) (l : list Z), Permutation ((fun _ l => rev l) i l) l) /\
  length [100; 101; 102; 103] = length [0; 1; 0; 3] /\
  exists inds_x inds_u s,
    load_data_train (fun _ l => rev l) (fun d : Z => d) 10 CIFAR10
      [100; 101; 102; 103] [0; 1; 0; 3] = Ok s /\
    label_x s
    = by_class (n_class CIFAR10)
        (fun c => Nat.min (Z.to_nat (10 / n_class CIFAR10))
                    (count_occ Z.eq_dec [0; 1; 0; 3] c)) /\
    label_u s
    = by_class (n_class CIFAR10)
        (fun c => Nat.sub (count_occ Z.eq_dec [0; 1; 0; 3] c)
                    (Z.to_nat (10 / n_class CIFAR10))) /\
    drawn (fun d : Z => d) [100; 101; 102; 103] [0; 1; 0; 3] inds_x (data_x s) (label_x s) /\
    drawn (fun d : Z => d) [100; 101; 102; 103] [0; 1; 0; 3] inds_u (data_u s) (label_u s) /\
    NoDup (inds_x ++ inds_u) /\
    forall k,
      In k (inds_x ++ inds_u) <->
      0 <= k /\
      exists l, nth_error [0; 1; 0; 3] (Z.to_nat k) = Some l /\ 0 <= l < n_class CIFAR10.
Proof.
  assert (H : forall (i : Z) (l : list Z), Permutation ((fun _ l => rev l) i l) l)
    by (intros i l; apply Permutation_sym, Permutation_rev).
  split; [exact H|]. split; [reflexivity|].
  exact (load_data_train_split (fun _ l => rev l) (fun d : Z => d) 10 CIFAR10
           [100; 101; 102; 103] [0; 1; 0; 3] H eq_refl).
Defined.

Lemma load_data_train_budget_witness :
  (forall (i : Z) (l : list Z), Permutation ((fun _ l => rev l) i l) l) /\
  length [100; 101; 102] = length [7; 7; 42] /\
  existsb (Z.eqb 25) (permitted_L CIFAR100) = true /\
  (forall c, 0 <= c < n_class CIFAR100 ->
     25 / n_class CIFAR100 <= Z.of_nat (count_occ Z.eq_dec [7; 7; 42] c)) /\
  exists s,
    load_data_train (fun _ l => rev l) (fun d : Z => d) 25 CIFAR100
      [100; 101; 102] [7; 7; 42] = Ok s /\
    length (data_x s) = length (label_x s) /\
    Z.of_nat (length (label_x s)) = n_class CIFAR100 * (25 / n_class CIFAR100) /\
    (Z.of_nat (length (label_x s)) = 25 <-> ~ (CIFAR100 = CIFAR100 /\ 25 = 25)).
Proof.
  assert (H : forall (i : Z) (l : list Z), Permutation ((fun _ l => rev l) i l) l)
    by (intros i l; apply Permutation_sym, Permutation_rev).
  assert (Hc : forall c, 0 <= c < n_class CIFAR100 ->
             25 / n_class CIFAR100 <= Z.of_nat (count_occ Z.eq_dec [7; 7; 42] c))
    by (intros c _; change (25 / n_class CIFAR100) with 0; lia).
  split; [exact H|]. split; [reflexivity|]. split; [reflexivity|]. split; [exact Hc|].
  exact (load_data_train_budget (fun _ l => rev l) (fun d : Z => d) 25 CIFAR100
           [100; 101; 102] [7; 7; 42] H eq_refl eq_refl Hc).
Defined.

Example load_data_train_runs :
  load_data_train (fun _ l => rev l) (fun d : Z => d) 10 CIFAR10
    [100; 101; 102; 103; 104] [0; 1; 0; 3; 11]
  = Ok {| data_x := [102; 101; 103]; label_x := [0; 1; 3];
          data_u := [100]; label_u := [0] |}.
Proof. vm_compute. reflexivity. Qed.

(** ** The results log at the end of [train] *)

Section ResultsLog.

Local Open Scope method_scope.

Variable C : Collaborators.
Variable f : string -> Q -> result unit.

Lemma bind_cong {X Y : Type} (m m' : M X) (k k' : X -> M Y) (s : PiModel) :
  (forall s', m s' = m' s') -> (forall a s', k a s' = k' a s') ->
  bind m k s = bind m' k' s.
Proof.
  intros Hm Hk. unfold bind. rewrite Hm.
  destruct (m' s) as [[[a|e] s1] t1]; [|reflexivity].
  now rewrite Hk.
Qed.

Lemma try_pass (r : result unit) (s : PiModel) :
  try_except (lift r) (fun _ => ret tt) s = ret tt s.
Proof. destruct r as [[]|e]; reflexivity. Qed.

Lemma evaluate_loop_without_log (batches : list lb_batch) :
  forall acc s,
    evaluate_loop (with_append_results C f) batches acc s = evaluate_loop C batches acc s.
Proof.
  induction batches as [|b rest IH]; intros acc s; [reflexivity|].
  cbn [evaluate_loop]. apply bind_cong; [reflexivity|]. intros acc' s'. apply IH.
Qed.

Lemma evaluate_without_log (eval_loader : option (list lb_batch)) (s : PiModel) :
  evaluate (with_append_results C f) eval_loader s = evaluate C eval_loader s.
Proof.
  unfold evaluate, eval_computation.
  repeat (apply bind_cong; [try reflexivity | intros]); [|reflexivity].
  intros s2. apply bind_cong; [|reflexivity].
  intros s3. apply evaluate_loop_without_log.
Qed.

Lemma train_iteration_without_log (args : Args) (lb : lb_batch) (ulb : ulb_batch)
    (tr : tracker) (s : PiModel) :
  train_iteration (with_append_results C f) args lb ulb tr s
  = train_iteration C args lb ulb tr s.
Proof.
  unfold train_iteration.
  apply bind_cong; [reflexivity|]. intros cur s1.
  destruct (cur >? num_train_iter args); [reflexivity|].
  repeat (apply bind_cong; [reflexivity | intros]).
  destruct (match terminal_iter args with Some t => cur >=? t | None => false end);
    [reflexivity|].
  apply bind_cong; [|reflexivity].
  intros s2. unfold evaluate_and_record.
  repeat (apply bind_cong; [reflexivity | intros]).
  match goal with |- (if ?c then _ else _) _ = _ => destruct c end; [|reflexivity].
  apply bind_cong; [|reflexivity]. intros s3. apply evaluate_without_log.
Qed.

Lemma train_loop_without_log (args : Args) (lbs : list lb_batch) :
  forall (ulbs : list ulb_batch) (tr : tracker) (s : PiModel),
    train_loop (with_append_results C f) args lbs ulbs tr s
    = train_loop C args lbs ulbs tr s.
Proof.
  induction lbs as [|lb lbs IH]; intros ulbs tr s; [reflexivity|].
  destruct ulbs as [|ulb ulbs]; [reflexivity|].
  cbn [train_loop]. apply bind_cong; [apply train_iteration_without_log|].
  intros step s'. destruct (fst step); [apply IH | reflexivity].
Qed.

(** [train] does not depend on what becomes of the line it appends to the
    results log: whether the write succeeds or raises, [train] returns the
    same dictionary, or raises the same exception, leaves the object in the
    same state and has made the same calls. *)
Theorem train_ignores_results_log (args : Args) (s : PiModel) :
  train (with_append_results C f) args s = train C args s.
Proof.
  unfold train.
  repeat (apply bind_cong; [reflexivity | intros]).
  apply bind_cong.
  { intros s1. destruct (resume args); [|reflexivity].
    apply bind_cong; [apply evaluate_without_log | reflexivity]. }
  intros.
  repeat (apply bind_cong; [reflexivity | intros]).
  apply bind_cong; [intros; apply train_loop_without_log|]. intros tr s2.
  apply bind_cong; [intros; apply evaluate_without_log|]. intros eval_dict s3.
  unfold bind. now rewrite !try_pass.
Qed.

End ResultsLog.
